(** * The project lifecycle manager of the coding-agent chat server (main.ts)

    A shallow embedding of [CodingAgentService] and of the routes that use
    it: the response parser ([parseFilesFromResponse], [normalizeLanguage]),
    the project store ([createOrUpdateProject], [updateFileContent], the
    DELETE route) and the process supervisor ([buildProject], [runProject],
    [stopProject]).

    JavaScript strings are sequences of UTF-16 code units; they are modelled
    as lists of code units.  The module-level variables [projects] and
    [nextPort] and the private [runningProcesses] map form an explicit
    state; everything the code asks of the outside world (file system,
    child processes, random ids, the clock) is an oracle in an environment
    record, and every file-system, process or signal request is logged.

    A request runs from start to end against one state: the points where
    the code awaits are not interleaved with other requests.  The call of
    the language model, the conversation list, [getFileContent] and the
    background capture of a child's output into [lastOutput] are left out. *)

From Stdlib Require Import NArith List Bool Lia String Ascii Sorted.
From stdpp Require Import base option list gmap.
Import ListNotations.

Local Open Scope N_scope.
Local Open Scope list_scope.

(** ** JavaScript strings *)

Abbreviation char := N (only parsing).
Abbreviation jsstring := (list N) (only parsing).

(** An ASCII literal as code units. *)
Fixpoint str (s : String.string) : jsstring :=
  match s with
  | EmptyString => []
  | String a s' => N_of_ascii a :: str s'
  end.

Definition c_backtick : char := 96.
Definition c_colon : char := 58.
Definition c_newline : char := 10.
Definition c_slash : char := 47.

Definition inRange (lo hi c : char) : bool := (lo <=? c) && (c <=? hi).

(** [\w] without the [u] and [i] flags: [A-Za-z0-9_]. *)
Definition isWord (c : char) : bool :=
  inRange 97 122 c || inRange 65 90 c || inRange 48 57 c || (c =? 95).

(** ECMAScript LineTerminator: LF, CR, U+2028, U+2029. *)
Definition isLineTerminator (c : char) : bool :=
  (c =? 10) || (c =? 13) || (c =? 8232) || (c =? 8233).

(** [.] without the [s] flag: anything but a line terminator. *)
Definition isDot (c : char) : bool := negb (isLineTerminator c).

(** [[\s\S]]: every code unit. *)
Definition isAny (c : char) : bool := true.

(** ECMAScript WhiteSpace (TAB, VT, FF, SP, NBSP, ZWNBSP and category Zs)
    together with LineTerminator: what [String.prototype.trim] strips. *)
Definition isWhiteSpace (c : char) : bool :=
  (c =? 9) || (c =? 11) || (c =? 12) || (c =? 32) || (c =? 160) ||
  (c =? 5760) || inRange 8192 8202 c || (c =? 8239) || (c =? 8287) ||
  (c =? 12288) || (c =? 65279).

Definition isTrimmed (c : char) : bool := isWhiteSpace c || isLineTerminator c.

Fixpoint trimStart (s : jsstring) : jsstring :=
  match s with
  | c :: s' => if isTrimmed c then trimStart s' else s
  | [] => []
  end.

Definition trimEnd (s : jsstring) : jsstring := rev (trimStart (rev s)).

(** [s.trim()] *)
Definition trim (s : jsstring) : jsstring := trimEnd (trimStart s).

(** [s.toLowerCase()].  ASCII capitals are folded; of the code units outside
    ASCII only U+0130 and U+212A lower-case to something that contains an
    ASCII letter, and they are mapped as the Unicode tables say.  Every other
    unit outside ASCII lower-cases to units outside ASCII and is left as it
    is: the code only ever compares the result with ASCII keys or deletes
    what is not [a-z0-9-]. *)
Definition lowerUnit (c : char) : jsstring :=
  if inRange 65 90 c then [c + 32]
  else if c =? 304 then [105; 775]
  else if c =? 8490 then [107]
  else [c].

Definition toLowerCase (s : jsstring) : jsstring := flat_map lowerUnit s.

Definition jsstring_eqb (a b : jsstring) : bool := bool_decide (a = b).

(** [s.startsWith(p)], returning what follows the prefix. *)
Fixpoint stripPrefix (p s : jsstring) : option jsstring :=
  match p, s with
  | [], _ => Some s
  | a :: p', b :: s' => if a =? b then stripPrefix p' s' else None
  | _ :: _, [] => None
  end.

(** [s.includes(p)] *)
Fixpoint includes (p s : jsstring) : bool :=
  match stripPrefix p s with
  | Some _ => true
  | None => match s with
            | [] => false
            | _ :: s' => includes p s'
            end
  end.

(** [s.split(sep)] for a one-unit separator. *)
Fixpoint splitOn (sep : char) (s : jsstring) : list jsstring :=
  match s with
  | [] => [[]]
  | c :: s' =>
      if c =? sep then [] :: splitOn sep s'
      else match splitOn sep s' with
           | seg :: segs => (c :: seg) :: segs
           | [] => [[c]]
           end
  end.

(** [parts.join(sep)] *)
Fixpoint join (sep : jsstring) (parts : list jsstring) : jsstring :=
  match parts with
  | [] => []
  | [p] => p
  | p :: ps => p ++ sep ++ join sep ps
  end.

(** [n.toString()] for a non-negative integer. *)
Definition digitsOf (n : N) : jsstring :=
  let fix go (fuel : nat) (n : N) (acc : jsstring) : jsstring :=
    match fuel with
    | O => acc
    | S fuel' =>
        let acc' := (48 + n mod 10) :: acc in
        if n <? 10 then acc' else go fuel' (n / 10) acc'
    end
  in go (S (N.to_nat (N.log2 n))) n [].

(** ** JavaScript values that can end up in a [language] field

    [langMap[key]] is a property lookup on an object literal, so it also
    sees what the literal inherits from [Object.prototype]. *)

Inductive value :=
| VUndefined
| VString (s : jsstring)
| VBuiltin (name : jsstring).   (* the object stored under that name in Object.prototype *)

Definition truthy (v : value) : bool :=
  match v with
  | VUndefined => false
  | VString [] => false
  | VString (_ :: _) => true
  | VBuiltin _ => true
  end.

(** [a || b] *)
Definition orElse (a b : value) : value := if truthy a then a else b.

(** The property names of [Object.prototype]. *)
Definition objectPrototypeKeys : list jsstring :=
  map str ["constructor"; "__defineGetter__"; "__defineSetter__";
           "hasOwnProperty"; "__lookupGetter__"; "__lookupSetter__";
           "isPrototypeOf"; "propertyIsEnumerable"; "toString"; "valueOf";
           "__proto__"; "toLocaleString"]%string.

Fixpoint assoc (key : jsstring) (own : list (jsstring * jsstring)) : option jsstring :=
  match own with
  | [] => None
  | (k, v) :: own' => if jsstring_eqb k key then Some v else assoc key own'
  end.

(** [obj[key]] for an object literal with the given own properties. *)
Definition getProperty (own : list (jsstring * jsstring)) (key : jsstring) : value :=
  match assoc key own with
  | Some v => VString v
  | None =>
      if existsb (jsstring_eqb key) objectPrototypeKeys then VBuiltin key
      else VUndefined
  end.

(** ** Response parser *)

Definition langMap : list (jsstring * jsstring) :=
  map (fun kv => (str (fst kv), str (snd kv)))
    [("js", "javascript"); ("javascript", "javascript");
     ("ts", "typescript"); ("typescript", "typescript");
     ("py", "python"); ("python", "python");
     ("json", "json"); ("html", "html"); ("css", "css");
     ("md", "markdown")]%string.

Definition normalizeLanguage (lang : jsstring) : value :=
  orElse (getProperty langMap (toLowerCase lang)) (VString (str "text")).

(** *** The regular expression, as a backtracking matcher

    Each combinator takes the continuation that matches the rest of the
    pattern; a [None] from the continuation makes the combinator try its
    next alternative, in the order ECMAScript prescribes (greedy: longest
    first; lazy: shortest first; an optional atom: present first). *)

Section Backtracking.
Context {R : Type}.

(** a literal *)
Definition lit (l : jsstring) (k : jsstring -> option R) (s : jsstring) : option R :=
  match stripPrefix l s with
  | Some s' => k s'
  | None => None
  end.

(** an optional literal *)
Definition optLit (l : jsstring) (k : jsstring -> option R) (s : jsstring) : option R :=
  match lit l k s with
  | Some r => Some r
  | None => k s
  end.

(** a greedy, capturing star over one character class; [acc] is what was
    consumed so far, reversed *)
Fixpoint greedyStar (cls : char -> bool) (acc : jsstring)
    (k : jsstring -> jsstring -> option R) (s : jsstring) : option R :=
  match s with
  | c :: s' =>
      if cls c then
        match greedyStar cls (c :: acc) k s' with
        | Some r => Some r
        | None => k (rev acc) s
        end
      else k (rev acc) s
  | [] => k (rev acc) s
  end.

(** a greedy, capturing plus over one character class *)
Definition greedyPlus (cls : char -> bool)
    (k : jsstring -> jsstring -> option R) (s : jsstring) : option R :=
  match s with
  | c :: s' => if cls c then greedyStar cls [c] k s' else None
  | [] => None
  end.

(** an optional group: it takes part if it can, and is undefined otherwise *)
Definition optGroup (g : (jsstring -> jsstring -> option R) -> jsstring -> option R)
    (k : option jsstring -> jsstring -> option R) (s : jsstring) : option R :=
  match g (fun captured => k (Some captured)) s with
  | Some r => Some r
  | None => k None s
  end.

(** a lazy, capturing star over one character class *)
Fixpoint lazyStar (cls : char -> bool) (acc : jsstring)
    (k : jsstring -> jsstring -> option R) (s : jsstring) : option R :=
  match k (rev acc) s with
  | Some r => Some r
  | None =>
      match s with
      | c :: s' => if cls c then lazyStar cls (c :: acc) k s' else None
      | [] => None
      end
  end.
End Backtracking.

(** A successful match: the three groups and the input after the match
    (where [lastIndex] points). *)
Record RegExpMatch := {
  group1 : option jsstring;
  group2 : jsstring;
  group3 : jsstring;
  afterMatch : jsstring
}.

Definition fence : jsstring := [c_backtick; c_backtick; c_backtick].

(** What follows group 1 in the pattern: [:?(.*?)\n([\s\S]*?)```]. *)
Definition afterLanguage (g1 : option jsstring) : jsstring -> option RegExpMatch :=
  optLit [c_colon]
    (lazyStar isDot [] (fun g2 =>
     lit [c_newline]
       (lazyStar isAny [] (fun g3 =>
        lit fence (fun rest =>
          Some {| group1 := g1; group2 := g2; group3 := g3;
                  afterMatch := rest |}))))).

(** [/```(\w+)?:?(.*?)\n([\s\S]*?)```/] tried at the start of [s]. *)
Definition filePattern (s : jsstring) : option RegExpMatch :=
  lit fence (optGroup (greedyPlus isWord) afterLanguage) s.

(** [filePattern.exec(response)] with the [g] flag: the first position at or
    after [lastIndex] where the pattern matches.  The pattern has no anchor
    and no look-behind, so a match at a position depends only on the input
    from that position on, and [s] is the input from [lastIndex]. *)
Fixpoint exec (s : jsstring) : option RegExpMatch :=
  match filePattern s with
  | Some m => Some m
  | None =>
      match s with
      | [] => None
      | _ :: s' => exec s'
      end
  end.

Record ProjectFile := {
  file_name : jsstring;
  file_path : jsstring;
  file_content : jsstring;
  file_language : value
}.

(** [s.split('/').pop()] *)
Definition lastSegment (s : jsstring) : jsstring := List.last (splitOn c_slash s) [].

(** The body of the [while] loop: the file a match contributes, if any. *)
Definition fileOfMatch (m : RegExpMatch) : option ProjectFile :=
  let language := match group1 m with Some l => l | None => str "text" end in
  let filePath := trim (group2 m) in
  let fileContent := trim (group3 m) in
  match filePath, fileContent with
  | _ :: _, _ :: _ =>
      Some {| file_name := match lastSegment filePath with
                           | [] => filePath
                           | seg => seg
                           end;
              file_path := filePath;
              file_content := fileContent;
              file_language := normalizeLanguage language |}
  | _, _ => None
  end.

(** The successive matches of the [while ((match = exec(...)) !== null)]
    loop.  Every match consumes input, so [fuel] beyond the length of the
    input is never used up ([execAll_fuel]). *)
Fixpoint matchLoop (fuel : nat) (s : jsstring) : list RegExpMatch :=
  match fuel with
  | O => []
  | S fuel' =>
      match exec s with
      | Some m => m :: matchLoop fuel' (afterMatch m)
      | None => []
      end
  end.

Definition execAll (response : jsstring) : list RegExpMatch :=
  matchLoop (S (length response)) response.

Definition parseFilesFromResponse (response : jsstring) : list ProjectFile :=
  omap fileOfMatch (execAll response).

(** ** Projects and the state of the server *)

Inductive Status := Created | Building | Running | Error | Stopped.

Record Project := {
  project_id : jsstring;
  project_name : jsstring;
  project_description : jsstring;
  project_language : jsstring;
  project_status : Status;
  project_created : jsstring;
  project_path : jsstring;
  project_files : list ProjectFile;
  project_currentFile : option jsstring;
  project_lastOutput : option jsstring;
  project_port : option N
}.

(** A [Deno.ChildProcess] handle. *)
Record ChildProcess := { pid : N }.

(** [projects], [this.runningProcesses] and [nextPort].  Ports are
    JavaScript numbers; they are counted here as natural numbers, which
    JavaScript represents exactly far beyond any number of starts a server
    can perform. *)
Record State := {
  projects : list Project;
  runningProcesses : gmap (list N) ChildProcess;
  nextPort : N
}.

Definition initialState : State :=
  {| projects := []; runningProcesses := ∅; nextPort := 3001 |}.

(** ** The outside world *)

(** What a [catch] clause can receive: an [Error] object, or [null] or
    [undefined] (on which reading [.message] is a TypeError).  Deno's own
    functions reject with [Error] objects. *)
Inductive thrown := ErrorObject (message : jsstring) | Nullish.

Inductive result (A : Type) := Return (a : A) | Throw (e : thrown).
Arguments Return {A} a.
Arguments Throw {A} e.

Record CommandOptions := {
  cmd : jsstring;
  args : list jsstring;
  cwd : jsstring;
  env_PORT : option N      (* the PORT variable added to the environment *)
}.

Record CommandOutput := {
  stdoutText : jsstring;   (* already decoded *)
  stderrText : jsstring;
  success : bool
}.

(** The oracles one request sees.  A file-system function answers [None]
    when it succeeds and the value it rejects with otherwise. *)
Record Env := {
  isWindows : bool;                               (* Deno.build.os === windows *)
  randomId : jsstring;                            (* generateId() *)
  isoNow : jsstring;                              (* new Date().toISOString() *)
  mkdir : jsstring -> option thrown;              (* Deno.mkdir(p, recursive) *)
  writeTextFile : jsstring -> jsstring -> option thrown;
  stat : jsstring -> option thrown;
  commandOutput : CommandOptions -> result CommandOutput;  (* Command.output() *)
  spawn : CommandOptions -> result ChildProcess;           (* Command.spawn() *)
  kill : ChildProcess -> option thrown
    (* process.kill(SIGTERM) followed by await process.status: None once
       the child has exited, the value thrown when the signal cannot be
       delivered; whether the child exits at all is asked separately, by
       stopProjectAwaiting *)
}.

(** What a request asks of the outside world, in order. *)
Inductive Effect :=
| EMkdir (p : jsstring)
| EWriteTextFile (p content : jsstring)
| EStat (p : jsstring)
| ECommandOutput (o : CommandOptions)
| ESpawn (o : CommandOptions)
| EKill (proc : ChildProcess)
| EConsoleError (e : thrown).

(** ** Project store *)

(** [projects.find(p => p.id === projectId)]: the position of the object
    found, and the object.  A position stands for the reference the code
    holds; writing through the reference is [<[i := p']>] on the list. *)
Fixpoint findFrom (i : nat) (projectId : jsstring) (ps : list Project)
    : option (nat * Project) :=
  match ps with
  | [] => None
  | p :: ps' =>
      if jsstring_eqb (project_id p) projectId then Some (i, p)
      else findFrom (S i) projectId ps'
  end.

Definition findProject (projectId : jsstring) (st : State) : option (nat * Project) :=
  findFrom 0 projectId (projects st).

Definition setProjects (ps : list Project) (st : State) : State :=
  {| projects := ps; runningProcesses := runningProcesses st; nextPort := nextPort st |}.

(** Write the object [p] back through the reference [i]. *)
Definition storeProject (i : nat) (p : Project) (st : State) : State :=
  setProjects (<[i := p]> (projects st)) st.

Definition withStatus (s : Status) (p : Project) : Project :=
  {| project_id := project_id p; project_name := project_name p;
     project_description := project_description p;
     project_language := project_language p; project_status := s;
     project_created := project_created p; project_path := project_path p;
     project_files := project_files p;
     project_currentFile := project_currentFile p;
     project_lastOutput := project_lastOutput p;
     project_port := project_port p |}.

Definition withFiles (fs : list ProjectFile) (p : Project) : Project :=
  {| project_id := project_id p; project_name := project_name p;
     project_description := project_description p;
     project_language := project_language p;
     project_status := project_status p;
     project_created := project_created p; project_path := project_path p;
     project_files := fs;
     project_currentFile := project_currentFile p;
     project_lastOutput := project_lastOutput p;
     project_port := project_port p |}.

Definition withPort (n : N) (p : Project) : Project :=
  {| project_id := project_id p; project_name := project_name p;
     project_description := project_description p;
     project_language := project_language p;
     project_status := project_status p;
     project_created := project_created p; project_path := project_path p;
     project_files := project_files p;
     project_currentFile := project_currentFile p;
     project_lastOutput := project_lastOutput p;
     project_port := Some n |}.

Definition withLastOutput (o : jsstring) (p : Project) : Project :=
  {| project_id := project_id p; project_name := project_name p;
     project_description := project_description p;
     project_language := project_language p;
     project_status := project_status p;
     project_created := project_created p; project_path := project_path p;
     project_files := project_files p;
     project_currentFile := project_currentFile p;
     project_lastOutput := Some o;
     project_port := project_port p |}.

Definition withContent (content : jsstring) (f : ProjectFile) : ProjectFile :=
  {| file_name := file_name f; file_path := file_path f;
     file_content := content; file_language := file_language f |}.

(** [`${root}/${relative}`] *)
Definition fullPathOf (root relative : jsstring) : jsstring :=
  root ++ [c_slash] ++ relative.

(** [fullPath.substring(0, fullPath.lastIndexOf('/'))]; without any slash
    [lastIndexOf] is -1 and [substring] gives the empty string. *)
Fixpoint dropUntilSlash (s : jsstring) : jsstring :=
  match s with
  | [] => []
  | c :: s' => if c =? c_slash then s' else dropUntilSlash s'
  end.

Definition dirPathOf (fullPath : jsstring) : jsstring :=
  rev (dropUntilSlash (rev fullPath)).

(** The [try] block that puts one file on disk: [mkdir] of the directory,
    then [writeTextFile]; a failure of either is logged and swallowed. *)
Definition writeFileToDisk (env : Env) (root : jsstring) (f : ProjectFile) : list Effect :=
  let fullPath := fullPathOf root (file_path f) in
  let dirPath := dirPathOf fullPath in
  match mkdir env dirPath with
  | Some e => [EMkdir dirPath; EConsoleError e]
  | None =>
      match writeTextFile env fullPath (file_content f) with
      | Some e => [EMkdir dirPath; EWriteTextFile fullPath (file_content f); EConsoleError e]
      | None => [EMkdir dirPath; EWriteTextFile fullPath (file_content f)]
      end
  end.

(** [files.findIndex(f => f.path === path)] *)
Fixpoint findIndexFrom (i : nat) (path : jsstring) (fs : list ProjectFile) : option nat :=
  match fs with
  | [] => None
  | f :: fs' =>
      if jsstring_eqb (file_path f) path then Some i
      else findIndexFrom (S i) path fs'
  end.

Definition findFileIndex (path : jsstring) (fs : list ProjectFile) : option nat :=
  findIndexFrom 0 path fs.

(** One turn of the loop over the new files: replace at the index found,
    or push. *)
Definition upsertFile (fs : list ProjectFile) (newFile : ProjectFile) : list ProjectFile :=
  match findFileIndex (file_path newFile) fs with
  | Some i => <[i := newFile]> fs
  | None => fs ++ [newFile]
  end.

Definition upsertFiles (fs news : list ProjectFile) : list ProjectFile :=
  fold_left upsertFile news fs.

(** [prompt.split(' ').slice(0, 3).join('-').toLowerCase()
       .replace(/[^a-z0-9-]/g, '') || 'new-project'] *)
Definition isNameChar (c : char) : bool :=
  inRange 97 122 c || inRange 48 57 c || (c =? 45).

Definition generateProjectName (prompt : jsstring) : jsstring :=
  match List.filter isNameChar
          (toLowerCase (join (str "-") (firstn 3 (splitOn 32 prompt)))) with
  | [] => str "new-project"
  | n => n
  end.

Definition value_is (s : jsstring) (v : value) : bool :=
  match v with
  | VString t => jsstring_eqb t s
  | _ => false
  end.

Definition detectPrimaryLanguage (fs : list ProjectFile) : jsstring :=
  let languages := map file_language fs in
  if existsb (value_is (str "typescript")) languages then str "typescript"
  else if existsb (value_is (str "javascript")) languages then str "javascript"
  else if existsb (value_is (str "python")) languages then str "python"
  else str "javascript".

(** [createOrUpdateProject(files, prompt, existingProject)].  An existing
    project is the reference the caller got from [projects.find].  The
    result carries the project returned, the new state and the requests
    made of the file system. *)
Definition createOrUpdateProject (env : Env) (fs : list ProjectFile)
    (prompt : jsstring) (existingProject : option (nat * Project)) (st : State)
    : result Project * State * list Effect :=
  match existingProject with
  | Some (i, existing) =>
      let project := withFiles (upsertFiles (project_files existing) fs) existing in
      (Return project, storeProject i project st,
       flat_map (writeFileToDisk env (project_path existing)) fs)
  | None =>
      let projectId := randomId env in
      let projectPath := str "./projects/" ++ projectId in
      match mkdir env projectPath with
      | Some e => (Throw e, st, [EMkdir projectPath; EConsoleError e])
      | None =>
          let project :=
            {| project_id := projectId;
               project_name := generateProjectName prompt;
               project_description := str "Project generated from: " ++ prompt;
               project_language := detectPrimaryLanguage fs;
               project_status := Created;
               project_created := isoNow env;
               project_path := projectPath;
               project_files := fs;
               project_currentFile := None;
               project_lastOutput := None;
               project_port := None |} in
          (Return project, setProjects (project :: projects st) st,
           EMkdir projectPath :: flat_map (writeFileToDisk env projectPath) fs)
      end
  end.

Definition notFound : thrown := ErrorObject (str "Project not found").

(** [updateFileContent(projectId, filePath, content)] *)
Definition updateFileContent (env : Env) (projectId filePath content : jsstring)
    (st : State) : result unit * State * list Effect :=
  match findProject projectId st with
  | None => (Throw notFound, st, [])
  | Some (i, project) =>
      let fullPath := fullPathOf (project_path project) filePath in
      match writeTextFile env fullPath content with
      | Some e => (Throw e, st, [EWriteTextFile fullPath content])
      | None =>
          let files' :=
            match findFileIndex filePath (project_files project) with
            | Some j => alter (withContent content) j (project_files project)
            | None => project_files project
            end in
          (Return tt, storeProject i (withFiles files' project) st,
           [EWriteTextFile fullPath content])
      end
  end.

(** ** Process supervisor *)

Definition setProcesses (procs : gmap (list N) ChildProcess) (st : State) : State :=
  {| projects := projects st; runningProcesses := procs; nextPort := nextPort st |}.

(** The [if (process)] block of [stopProject]: signal the process
    registered for the id, wait for it and drop the registration; a failure
    on the way is logged and the registration stays. *)
Definition signalProcess (env : Env) (projectId : jsstring) (st : State)
    : State * list Effect :=
  match runningProcesses st !! projectId with
  | Some process =>
      match kill env process with
      | None =>
          (setProcesses (delete projectId (runningProcesses st)) st, [EKill process])
      | Some e => (st, [EKill process; EConsoleError e])
      end
  | None => (st, [])
  end.

(** [stopProject(projectId)] *)
Definition stopProject (env : Env) (projectId : jsstring) (st : State)
    : result jsstring * State * list Effect :=
  match findProject projectId st with
  | None => (Throw notFound, st, [])
  | Some (i, project) =>
      let '(st1, log) := signalProcess env projectId st in
      (Return (str "Project stopped"),
       storeProject i (withStatus Stopped project) st1, log)
  end.

(** *** A child that may never exit

    [stopProject] above takes [await process.status] to settle.  Nothing
    bounds that wait, so here the outside world also says, by [exits],
    whether the status promise of a child ever settles once the signal has
    been delivered.  A call either settles, with its result, the store it
    leaves and the requests it made, or stays pending at the await, with
    the store and the requests as they stand there. *)
Inductive Call (A : Type) :=
| Settled (r : result A) (st : State) (log : list Effect)
| Pending (st : State) (log : list Effect).

Arguments Settled {A} r st log.
Arguments Pending {A} st log.

(** [stopProject(projectId)], the wait included.  [kill env process] is
    [None] when [process.kill('SIGTERM')] has not thrown; the call is then
    at [await process.status]. *)
Definition stopProjectAwaiting (env : Env) (exits : ChildProcess -> bool)
    (projectId : jsstring) (st : State) : Call jsstring :=
  match findProject projectId st with
  | None => Settled (Throw notFound) st []
  | Some (i, project) =>
      match runningProcesses st !! projectId with
      | Some process =>
          match kill env process with
          | Some e =>
              Settled (Return (str "Project stopped"))
                (storeProject i (withStatus Stopped project) st)
                [EKill process; EConsoleError e]
          | None =>
              if exits process then
                Settled (Return (str "Project stopped"))
                  (storeProject i (withStatus Stopped project)
                     (setProcesses (delete projectId (runningProcesses st)) st))
                  [EKill process]
              else Pending st [EKill process]
          end
      | None =>
          Settled (Return (str "Project stopped"))
            (storeProject i (withStatus Stopped project) st) []
      end
  end.

(** The handler of [DELETE /api/projects/:id]: the list is filtered first,
    then [stopProject] is called and its rejection goes to [console.error].
    The response does not wait for [stopProject]. *)
Definition deleteProject (env : Env) (projectId : jsstring) (st : State)
    : State * list Effect :=
  let st1 :=
    setProjects
      (List.filter (fun project => negb (jsstring_eqb (project_id project) projectId))
         (projects st)) st in
  match stopProject env projectId st1 with
  | (Return _, st2, log) => (st2, log)
  | (Throw e, st2, log) => (st2, log ++ [EConsoleError e])
  end.

Definition shell (env : Env) : jsstring :=
  if isWindows env then str "cmd" else str "sh".

Definition shellArgs (env : Env) (line : jsstring) : list jsstring :=
  if isWindows env then [str "/c"; line] else [str "-c"; line].

Definition checkMark : jsstring := [9989].        (* U+2705 *)
Definition crossMark : jsstring := [10060].       (* U+274C *)
Definition infoMark : jsstring := [8505; 65039].  (* U+2139 U+FE0F *)

(** [error.message] inside a template *)
Definition messageOf (e : thrown) : result jsstring :=
  match e with
  | ErrorObject m => Return m
  | Nullish => Throw (ErrorObject (str "Cannot read properties of undefined"))
  end.

(** The body of the outer [try] of [buildProject]: the text it would
    return, or what escapes the inner handlers. *)
Definition buildSteps (env : Env) (project : Project)
    : result jsstring * list Effect :=
  let lang := project_language project in
  if jsstring_eqb lang (str "javascript") || jsstring_eqb lang (str "typescript") then
    let packageJsonPath := fullPathOf (project_path project) (str "package.json") in
    let install := {| cmd := shell env; args := shellArgs env (str "npm install");
                      cwd := project_path project; env_PORT := None |} in
    let handler (e : thrown) (log : list Effect) :=
      match messageOf e with
      | Return m =>
          (Return (infoMark ++ str " No package.json found or npm not available: "
                     ++ m ++ [c_newline]), log)
      | Throw e' => (Throw e', log)
      end in
    match stat env packageJsonPath with
    | Some e => handler e [EStat packageJsonPath]
    | None =>
        match commandOutput env install with
        | Throw e => handler e [EStat packageJsonPath; ECommandOutput install]
        | Return o =>
            let output := stdoutText o in
            let output :=
              match stderrText o with
              | [] => output
              | _ => output ++ [c_newline] ++ str "STDERR: " ++ stderrText o
              end in
            let output :=
              if success o
              then output ++ [c_newline] ++ checkMark
                     ++ str " Dependencies installed successfully" ++ [c_newline]
              else output ++ [c_newline] ++ crossMark
                     ++ str " Dependency installation failed" ++ [c_newline] in
            (Return output, [EStat packageJsonPath; ECommandOutput install])
        end
    end
  else if jsstring_eqb lang (str "python") then
    let requirementsPath := fullPathOf (project_path project) (str "requirements.txt") in
    let install := {| cmd := shell env;
                      args := shellArgs env (str "pip install -r requirements.txt");
                      cwd := project_path project; env_PORT := None |} in
    let missing := infoMark ++ str " No requirements.txt found" ++ [c_newline] in
    match stat env requirementsPath with
    | Some _ => (Return missing, [EStat requirementsPath])
    | None =>
        match commandOutput env install with
        | Throw _ => (Return missing, [EStat requirementsPath; ECommandOutput install])
        | Return o =>
            (Return (stdoutText o ++ stderrText o ++ [c_newline] ++ checkMark
                       ++ str " Python dependencies installed successfully"
                       ++ [c_newline]),
             [EStat requirementsPath; ECommandOutput install])
        end
    end
  else (Return [], []).

(** The state once [project.status = 'building'] has been executed. *)
Definition buildBegin (i : nat) (project : Project) (st : State) : State :=
  storeProject i (withStatus Building project) st.

(** [buildProject(projectId)], with the states the call passes through:
    the store as it stands after each assignment to [project.status], in
    the order of the assignments.  The requests of [buildSteps] are made
    between the first assignment and the second.  In the outer [catch] the
    variable [output] of the [try] block is out of scope, so the handler
    sets the status and then fails with a ReferenceError instead of the
    error it builds. *)
Definition buildProjectTrace (env : Env) (projectId : jsstring) (st : State)
    : list State * (result jsstring * State * list Effect) :=
  match findProject projectId st with
  | None => ([], (Throw notFound, st, []))
  | Some (i, project) =>
      let st1 := buildBegin i project st in
      match buildSteps env project with
      | (Return output, log) =>
          let st2 := storeProject i (withStatus Created project) st1 in
          ([st1; st2],
           (Return match output with
                   | [] => checkMark ++ str " Build completed (no dependencies to install)"
                   | _ => output
                   end,
            st2, log))
      | (Throw _, log) =>
          let st2 := storeProject i (withStatus Error project) st1 in
          ([st1; st2],
           (Throw (ErrorObject (str "output is not defined")), st2, log))
      end
  end.

(** What the call resolves or rejects with, the store it leaves and the
    requests it has made. *)
Definition buildProject (env : Env) (projectId : jsstring) (st : State)
    : result jsstring * State * list Effect :=
  (buildProjectTrace env projectId st).2.

(** The status a project has in a store. *)
Definition statusAt (i : nat) (st : State) : option Status :=
  project_status <$> projects st !! i.

(** [project.files.find(f => f.name.includes('index') || f.name.includes('main'))] *)
Definition findMainFile (fs : list ProjectFile) : option ProjectFile :=
  List.find (fun f => includes (str "index") (file_name f)
                      || includes (str "main") (file_name f)) fs.

(** [mainFile?.path || 'index.js'] *)
Definition mainPath (mainFile : option ProjectFile) : jsstring :=
  match mainFile with
  | Some f => match file_path f with
              | [] => str "index.js"
              | p => p
              end
  | None => str "index.js"
  end.

(** The command [runProject] picks, with the request to [stat] it makes on
    the way. *)
Definition runCommand (env : Env) (project : Project)
    : jsstring * list jsstring * list Effect :=
  let lang := project_language project in
  if jsstring_eqb lang (str "javascript") then
    let packageJsonPath := fullPathOf (project_path project) (str "package.json") in
    match stat env packageJsonPath with
    | None => (shell env, shellArgs env (str "npm start"), [EStat packageJsonPath])
    | Some _ =>
        let mainFile :=
          match findMainFile (project_files project) with
          | Some f => Some f
          | None => head (project_files project)
          end in
        (str "node", [mainPath mainFile], [EStat packageJsonPath])
    end
  else if jsstring_eqb lang (str "typescript") then
    (str "deno", [str "run"; str "--allow-net"; str "index.ts"], [])
  else if jsstring_eqb lang (str "python") then
    (str "python", [str "main.py"], [])
  else
    (str "node", [mainPath (findMainFile (project_files project))], []).

Definition setNextPort (n : N) (st : State) : State :=
  {| projects := projects st; runningProcesses := runningProcesses st; nextPort := n |}.

(** What [runProject] resolves with. *)
Record RunResult := { run_output : jsstring; run_port : N }.

(** [runProject(projectId)].  The project object found at the start is the
    one written to throughout, also after the nested [stopProject]. *)
Definition runProject (env : Env) (projectId : jsstring) (st : State)
    : result RunResult * State * list Effect :=
  match findProject projectId st with
  | None => (Throw notFound, st, [])
  | Some (i, project) =>
      let '(st1, log1) :=
        match runningProcesses st !! projectId with
        | Some _ => let '(_, st', log) := stopProject env projectId st in (st', log)
        | None => (st, [])
        end in
      let port := nextPort st1 in
      let running := withPort port (withStatus Running project) in
      let st2 := setNextPort (port + 1) (storeProject i running st1) in
      let '(command, arguments, log2) := runCommand env project in
      let options := {| cmd := command; args := arguments;
                        cwd := project_path project; env_PORT := Some port |} in
      match spawn env options with
      | Throw e =>
          (Throw e, storeProject i (withStatus Error running) st2,
           log1 ++ log2 ++ [ESpawn options])
      | Return process =>
          let output := checkMark ++ str " Project started on port " ++ digitsOf port
                          ++ [c_newline] ++ str "Command: " ++ command ++ str " "
                          ++ join (str " ") arguments in
          (Return {| run_output := output; run_port := port |},
           setProcesses (<[projectId := process]> (runningProcesses st2))
             (storeProject i (withLastOutput output running) st2),
           log1 ++ log2 ++ [ESpawn options])
      end
  end.

(** ** Requests

    What the routes do to the state.  [Chat] starts where the agent has
    replied and the reply has been parsed: [projectId ? projects.find(...) :
    undefined], then [createOrUpdateProject] when there are files. *)

Definition chatMaterialize (env : Env) (fs : list ProjectFile)
    (message : jsstring) (projectId : option jsstring) (st : State)
    : State * list Effect :=
  let currentProject :=
    match projectId with
    | Some (c :: pid) => findProject (c :: pid) st
    | _ => None
    end in
  match fs with
  | [] => (st, [])
  | _ => let '(_, st', log) := createOrUpdateProject env fs message currentProject st in
         (st', log)
  end.

Inductive Request :=
| Chat (fs : list ProjectFile) (message : jsstring) (projectId : option jsstring)
| Build (projectId : jsstring)
| Run (projectId : jsstring)
| Stop (projectId : jsstring)
| PutFile (projectId filePath content : jsstring)
| Delete (projectId : jsstring).

Definition handle (env : Env) (req : Request) (st : State) : State * list Effect :=
  match req with
  | Chat fs message projectId => chatMaterialize env fs message projectId st
  | Build projectId => let '(_, st', log) := buildProject env projectId st in (st', log)
  | Run projectId => let '(_, st', log) := runProject env projectId st in (st', log)
  | Stop projectId => let '(_, st', log) := stopProject env projectId st in (st', log)
  | PutFile projectId filePath content =>
      let '(_, st', log) := updateFileContent env projectId filePath content st in
      (st', log)
  | Delete projectId => deleteProject env projectId st
  end.

(** A sequence of requests, each with the outside world it meets. *)
Fixpoint serve (reqs : list (Env * Request)) (st : State) : State * list Effect :=
  match reqs with
  | [] => (st, [])
  | (env, req) :: reqs' =>
      let '(st1, log1) := handle env req st in
      let '(st2, log2) := serve reqs' st1 in
      (st2, log1 ++ log2)
  end.

(** The ports handed to child processes, in the order of the starts. *)
Definition portOf (e : Effect) : option N :=
  match e with
  | ESpawn o => env_PORT o
  | _ => None
  end.

Definition assignedPorts (log : list Effect) : list N := omap portOf log.

(** ** Vocabulary of the statements *)

(** The own keys of [langMap]. *)
Definition langKeys : list (list N) := map fst langMap.

(** The names under which a lower-cased key finds something inherited. *)
Definition inheritedKeys : list (list N) := [str "constructor"; str "__proto__"].

(** The tags [normalizeLanguage] is written to return. *)
Definition languageTags : list (list N) :=
  map str ["javascript"; "typescript"; "python"; "json"; "html"; "css";
           "markdown"; "text"]%string.

(** *** What the pattern matches, read off without backtracking

    [fenceAt] is the reading of the pattern a person makes: an opening
    fence, the longest run of word characters, a colon if one follows, the
    rest of the line, and everything up to the next fence.
    [filePattern_fenceAt] shows that the backtracking matcher agrees. *)

(** The longest run of word characters at the start, and what follows. *)
Fixpoint spanWord (s : jsstring) : jsstring * jsstring :=
  match s with
  | c :: s' =>
      if isWord c then let '(w, r) := spanWord s' in (c :: w, r) else ([], s)
  | [] => ([], [])
  end.

Definition skipColon (s : jsstring) : jsstring :=
  match s with
  | c :: s' => if c =? c_colon then s' else s
  | [] => []
  end.

(** The input up to the first newline and the input after it; nothing when
    the input ends or another line terminator comes first. *)
Fixpoint splitLine (s : jsstring) : option (jsstring * jsstring) :=
  match s with
  | [] => None
  | c :: s' =>
      if c =? c_newline then Some ([], s')
      else if isDot c then
        match splitLine s' with
        | Some (h, r) => Some (c :: h, r)
        | None => None
        end
      else None
  end.

(** The input up to the first fence and the input after that fence. *)
Fixpoint splitFence (s : jsstring) : option (jsstring * jsstring) :=
  match stripPrefix fence s with
  | Some r => Some ([], r)
  | None =>
      match s with
      | [] => None
      | c :: s' =>
          match splitFence s' with
          | Some (b, r) => Some (c :: b, r)
          | None => None
          end
      end
  end.

Definition lineAndBody (s : jsstring) : option (jsstring * jsstring * jsstring) :=
  match splitLine s with
  | Some (h, r) =>
      match splitFence r with
      | Some (b, rest) => Some (h, b, rest)
      | None => None
      end
  | None => None
  end.

Definition mkMatch (g1 : option jsstring) (x : jsstring * jsstring * jsstring)
    : RegExpMatch :=
  let '(h, b, rest) := x in
  {| group1 := g1; group2 := h; group3 := b; afterMatch := rest |}.

Definition fenceAt (s : jsstring) : option RegExpMatch :=
  match stripPrefix fence s with
  | None => None
  | Some s1 =>
      let '(w, s2) := spanWord s1 in
      mkMatch (match w with [] => None | _ => Some w end)
        <$> lineAndBody (skipColon s2)
  end.

(** *** Responses in the format the prompt asks for *)

(** A response is prose interleaved with fenced blocks: three backticks,
    a language tag, a colon or none, a path, a newline, a body and three
    backticks.  A block without colon and path is a plain fence. *)
Inductive Segment :=
| Prose (text : jsstring)
| Block (lang : jsstring) (colon : bool) (path body : jsstring).

Definition colonText (colon : bool) : jsstring :=
  if colon then [c_colon] else [].

Definition renderSegment (seg : Segment) : jsstring :=
  match seg with
  | Prose text => text
  | Block lang colon path body =>
      fence ++ lang ++ colonText colon ++ path ++ [c_newline] ++ body ++ fence
  end.

Definition render (segs : list Segment) : jsstring :=
  flat_map renderSegment segs.

(** No fence starts inside [t], not even one completed by a fence that
    follows [t]: [t] does not contain three backticks in a row and does not
    end with a backtick. *)
Fixpoint fenceFree (t : jsstring) : bool :=
  match t with
  | [] => true
  | _ :: t' =>
      match stripPrefix fence (t ++ fence) with
      | Some _ => false
      | None => fenceFree t'
      end
  end.

(** [s] begins with a word character or a colon. *)
Definition continuesTag (s : jsstring) : bool :=
  match s with
  | c :: _ => isWord c || (c =? c_colon)
  | [] => false
  end.

(** Prose holds no fence; a block has a language tag of word characters
    (possibly none), a path on one line, and a body that holds no fence.
    Where the colon is left out the path is empty or begins with something
    other than a word character or a colon, so that the header reads in one
    way only. *)
Definition wellFormed (seg : Segment) : bool :=
  match seg with
  | Prose text => fenceFree text
  | Block lang colon path body =>
      forallb isWord lang && forallb isDot path && fenceFree body
      && (colon || negb (continuesTag path))
  end.

(** The file a block stands for: none when its path or its body is empty
    after trimming. *)
Definition fileOfBlock (lang path body : jsstring) : option ProjectFile :=
  match trim path, trim body with
  | _ :: _, _ :: _ =>
      Some {| file_name := match lastSegment (trim path) with
                           | [] => trim path
                           | seg => seg
                           end;
              file_path := trim path;
              file_content := trim body;
              file_language := normalizeLanguage
                                 match lang with
                                 | [] => str "text"
                                 | _ => lang
                                 end |}
  | _, _ => None
  end.



(** [s] begins (ends) with a code unit that [trim] strips. *)
Definition startsWithSpace (s : jsstring) : bool :=
  match s with
  | c :: _ => isTrimmed c
  | [] => false
  end.

Definition endsWithSpace (s : jsstring) : bool := startsWithSpace (rev s).

(** Two project objects that differ at most in their [files]. *)
Definition sameExceptFiles (p p' : Project) : Prop :=
  project_id p' = project_id p /\ project_name p' = project_name p /\
  project_description p' = project_description p /\
  project_language p' = project_language p /\
  project_status p' = project_status p /\
  project_created p' = project_created p /\
  project_path p' = project_path p /\
  project_currentFile p' = project_currentFile p /\
  project_lastOutput p' = project_lastOutput p /\
  project_port p' = project_port p.

(** Two file objects that differ at most in their [content]. *)
Definition sameExceptContent (f f' : ProjectFile) : Prop :=
  file_name f' = file_name f /\ file_path f' = file_path f /\
  file_language f' = file_language f.

(** *** Sample data *)

(** An environment in which every request succeeds. *)
Definition quietEnv : Env :=
  {| isWindows := false;
     randomId := str "k3x9q0a1z";
     isoNow := str "2024-01-01T00:00:00.000Z";
     mkdir := fun _ => None;
     writeTextFile := fun _ _ => None;
     stat := fun _ => None;
     commandOutput := fun _ => Return {| stdoutText := str "ok"; stderrText := [];
                                         success := true |};
     spawn := fun _ => Return {| pid := 7 |};
     kill := fun _ => None |}.

Definition sampleFile (path content : String.string) : ProjectFile :=
  {| file_name := lastSegment (str path); file_path := str path;
     file_content := str content; file_language := VString (str "javascript") |}.

Definition sampleProject (id : String.string) (status : Status)
    (fs : list ProjectFile) : Project :=
  {| project_id := str id; project_name := str "counter-app";
     project_description := str "Project generated from: counter app";
     project_language := str "javascript"; project_status := status;
     project_created := str "2024-01-01T00:00:00.000Z";
     project_path := str "./projects/" ++ str id;
     project_files := fs; project_currentFile := None;
     project_lastOutput := None; project_port := None |}.

(** *** Where a relative path leads

    The lexical resolution the operating system applies to a relative path
    (symbolic links aside): empty segments and [.] are skipped, and [..]
    leaves the directory entered last, or climbs above the starting
    directory when none is left.  A resolved path is the number of levels
    climbed and the directories then entered, innermost first. *)

Definition isDotSegment (seg : jsstring) : bool :=
  match seg with
  | [c] => c =? 46
  | _ => false
  end.

Definition isDotDotSegment (seg : jsstring) : bool :=
  match seg with
  | [c; d] => (c =? 46) && (d =? 46)
  | _ => false
  end.

Definition resolveStep (at_ : nat * list jsstring) (seg : jsstring)
    : nat * list jsstring :=
  let '(up, entered) := at_ in
  match seg with
  | [] => at_
  | _ =>
      if isDotSegment seg then at_
      else if isDotDotSegment seg then
        match entered with
        | _ :: outer => (up, outer)
        | [] => (S up, [])
        end
      else (up, seg :: entered)
  end.

Definition resolve (path : jsstring) : nat * list jsstring :=
  fold_left resolveStep (splitOn c_slash path) (0%nat, []).

Fixpoint isPrefixOf (a b : list jsstring) : bool :=
  match a, b with
  | [], _ => true
  | x :: a', y :: b' => jsstring_eqb x y && isPrefixOf a' b'
  | _ :: _, [] => false
  end.

(** [target] lies in the directory [root] or below it. *)
Definition isInside (root target : jsstring) : bool :=
  let '(up0, entered0) := resolve root in
  let '(up, entered) := resolve target in
  Nat.eqb up up0 && isPrefixOf (rev entered0) (rev entered).

Definition projectsRoot : jsstring := str "./projects".

(** The ids [generateId] produces: digits in base 36, at most nine. *)
Definition isIdString (id : jsstring) : bool :=
  forallb (fun c => inRange 48 57 c || inRange 97 122 c) id.

(** The writes a log asks for. *)
Definition writeOf (e : Effect) : option (jsstring * jsstring) :=
  match e with
  | EWriteTextFile p content => Some (p, content)
  | _ => None
  end.

Definition writesOf (log : list Effect) : list (jsstring * jsstring) :=
  omap writeOf log.

(** The directory of a file could be made. *)
Definition directoryMade (env : Env) (root : jsstring) (f : ProjectFile) : bool :=
  match mkdir env (dirPathOf (root ++ [c_slash] ++ file_path f)) with
  | None => true
  | Some _ => false
  end.

(** * Further code *)

(** ** The explanation text and [processChatMessage] *)

(** [/```[\s\S]*?```/] tried at the start of [s]: the input after the match. *)
Definition blockPattern (s : jsstring) : option jsstring :=
  lit fence (lazyStar isAny [] (fun _ => lit fence (fun rest => Some rest))) s.

(** [response.replace(/```[\s\S]*?```/g, '')]: where the pattern matches,
    the match is dropped and the search goes on after it; elsewhere the code
    unit is kept.  A match consumes input, so fuel equal to the length of
    the input is never used up ([removeBlocks_fuel]). *)
Fixpoint removeBlocks (fuel : nat) (s : jsstring) : jsstring :=
  match fuel with
  | O => s
  | S fuel' =>
      match s with
      | [] => []
      | c :: s' =>
          match blockPattern s with
          | Some rest => removeBlocks fuel' rest
          | None => c :: removeBlocks fuel' s'
          end
      end
  end.

Definition extractTextResponse (response : jsstring) : jsstring :=
  trim (removeBlocks (length response) response).

(** What the agent's stream delivers. *)
Inductive AgentEvent :=
| TextEvent (content : jsstring)
| OtherEvent.

(** The loop [for await (const event of ...)]: the contents of the text
    events, in order. *)
Fixpoint accumulate (events : list AgentEvent) : jsstring :=
  match events with
  | [] => []
  | TextEvent content :: events' => content ++ accumulate events'
  | OtherEvent :: events' => accumulate events'
  end.

Record ChatResult := {
  chat_response : jsstring;
  chat_files : list ProjectFile;
  chat_shouldUpdate : bool
}.

(** [processChatMessage(prompt, currentProject)].  [agent] is [None] when
    [initialize] failed and [this.agent] is still null; otherwise it is what
    [runTask] delivers for the prompt built from the arguments: the events
    of a stream that completes, or the error the stream ends with, in which
    case the events before it are dropped, and the error is written to the
    console before it is thrown again.  The prompt itself is not
    modelled. *)
Definition processChatMessage (agent : option (result (list AgentEvent)))
    : result ChatResult * list Effect :=
  match agent with
  | None => (Throw (ErrorObject (str "Coding Agent not initialized")), [])
  | Some (Throw e) => (Throw e, [EConsoleError e])
  | Some (Return events) =>
      let rawResponse := accumulate events in
      let files := parseFilesFromResponse rawResponse in
      (Return {| chat_response := extractTextResponse rawResponse;
                 chat_files := files;
                 chat_shouldUpdate := match files with [] => false | _ => true end |},
       [])
  end.

(** The prose of a response, and the condition under which the pattern of
    [extractTextResponse] sees the blocks as they were written: no fence
    starts in the prose, nor between the fences of a block. *)
Definition proseOf (seg : Segment) : jsstring :=
  match seg with
  | Prose text => text
  | Block _ _ _ _ => []
  end.

Definition fenceFreeSegment (seg : Segment) : bool :=
  match seg with
  | Prose text => fenceFree text
  | Block lang colon path body =>
      fenceFree (lang ++ colonText colon ++ path ++ [c_newline] ++ body)
  end.

(** ** The environment file *)

(** [obj[key] = v] on an object created by a literal: [__proto__] is the
    inherited accessor, which ignores a string; every other key becomes an
    own property. *)
Definition setProperty (key v : jsstring) (obj : gmap (list N) (list N))
    : gmap (list N) (list N) :=
  if jsstring_eqb key (str "__proto__") then obj else <[key := v]> obj.

(** The callback of [forEach]: [const [key, value] = line.split('=')], and
    the assignment when both are non-empty. *)
Definition parseEnvLine (env : gmap (list N) (list N)) (line : jsstring)
    : gmap (list N) (list N) :=
  match splitOn 61 line with
  | (_ :: _) as key :: (_ :: _) as value :: _ => setProperty (trim key) (trim value) env
  | _ => env
  end.

Definition parseEnv (envContent : jsstring) : gmap (list N) (list N) :=
  fold_left parseEnvLine (splitOn c_newline envContent) ∅.

(** [loadEnv()]: [envFile] is what reading [.env] gives. *)
Definition loadEnv (envFile : result jsstring) : gmap (list N) (list N) :=
  match envFile with
  | Return envContent => parseEnv envContent
  | Throw _ => ∅
  end.

(** [env[name]] *)
Definition getEnvProperty (env : gmap (list N) (list N)) (name : jsstring) : value :=
  match env !! name with
  | Some v => VString v
  | None =>
      if existsb (jsstring_eqb name) objectPrototypeKeys then VBuiltin name
      else VUndefined
  end.

(** [getRequiredEnv(name)]; [denoEnv] is [Deno.env.get]. *)
Definition getRequiredEnv (denoEnv : jsstring -> option jsstring)
    (env : gmap (list N) (list N)) (name : jsstring) : result value :=
  let value := orElse match denoEnv name with
                      | Some v => VString v
                      | None => VUndefined
                      end (getEnvProperty env name) in
  if truthy value then Return value
  else Throw (ErrorObject (str "Environment variable " ++ name ++ str " is not set")).

(** A line of an environment file as one writes it: a key, a value and
    possibly more text after a second equals sign. *)
Record EnvLine := {
  env_key : jsstring;
  env_value : jsstring;
  env_rest : option jsstring
}.

Definition renderEnvLine (l : EnvLine) : jsstring :=
  env_key l ++ [61] ++ env_value l
    ++ match env_rest l with
       | Some rest => [61] ++ rest
       | None => []
       end.

Definition renderEnv (ls : list EnvLine) : jsstring :=
  join [c_newline] (map renderEnvLine ls).

Definition noUnit (x : char) (s : jsstring) : bool :=
  forallb (fun c => negb (c =? x)) s.

(** Key and value are not empty and hold no equals sign, nothing holds a
    newline, and the key is not [__proto__]. *)
Definition plainEnvLine (l : EnvLine) : bool :=
  match env_key l, env_value l with
  | _ :: _, _ :: _ =>
      noUnit 61 (env_key l) && noUnit c_newline (env_key l)
      && noUnit 61 (env_value l) && noUnit c_newline (env_value l)
      && match env_rest l with
         | Some rest => noUnit c_newline rest
         | None => true
         end
      && negb (jsstring_eqb (trim (env_key l)) (str "__proto__"))
  | _, _ => false
  end.

(** ** Project names *)

(** The characters a project name is made of. *)
Definition isNameString (s : jsstring) : bool := forallb isNameChar s.

(** ** The chat page: [escapeHtml] *)

(** [s.replace(/x/g, r)] for a pattern of one character. *)
Definition replaceAll (x : char) (r : jsstring) (s : jsstring) : jsstring :=
  flat_map (fun c => if c =? x then r else [c]) s.

(** [escapeHtml(unsafe)] for a string argument. *)
Definition escapeHtml (unsafe : jsstring) : jsstring :=
  match unsafe with
  | [] => []
  | _ =>
      replaceAll 10 (str "<br>")
        (replaceAll 39 (str "&#039;")
           (replaceAll 34 (str "&quot;")
              (replaceAll 62 (str "&gt;")
                 (replaceAll 60 (str "&lt;")
                    (replaceAll 38 (str "&amp;") unsafe)))))
  end.

(** What becomes of one code unit. *)
Definition escapeUnit (c : char) : jsstring :=
  if c =? 38 then str "&amp;"
  else if c =? 60 then str "&lt;"
  else if c =? 62 then str "&gt;"
  else if c =? 34 then str "&quot;"
  else if c =? 39 then str "&#039;"
  else if c =? 10 then str "<br>"
  else [c].

(** ** Reading a file back *)

(** [getFileContent(projectId, filePath)]; [readTextFile] is
    [Deno.readTextFile]. *)
Definition getFileContent (readTextFile : jsstring -> result jsstring)
    (projectId filePath : jsstring) (st : State) : result jsstring :=
  match findProject projectId st with
  | None => Throw notFound
  | Some (_, project) =>
      match readTextFile (fullPathOf (project_path project) filePath) with
      | Return content => Return content
      | Throw _ => Throw (ErrorObject (str "File not found: " ++ filePath))
      end
  end.

(** ** What holds of every state the server reaches *)

Definition supportedLanguages : list jsstring :=
  [str "typescript"; str "javascript"; str "python"].

(** A project as [createOrUpdateProject] makes them: rooted at the directory
    named after its id, in one of the three languages, with files. *)
Definition wellKept (p : Project) : Prop :=
  project_path p = str "./projects/" ++ project_id p
  /\ In (project_language p) supportedLanguages
  /\ project_files p <> [].

(** The ports of the listed projects are below the counter and differ from
    one another. *)
Definition portsFresh (st : State) : Prop :=
  Forall (fun port => port < nextPort st) (omap project_port (projects st))
  /\ NoDup (omap project_port (projects st)).

(** One object written in place of another that stands for the same
    project. *)
Definition sameProject (p p' : Project) : Prop :=
  project_id p' = project_id p /\ project_name p' = project_name p /\
  project_description p' = project_description p /\
  project_language p' = project_language p /\
  project_created p' = project_created p /\
  project_path p' = project_path p /\
  project_currentFile p' = project_currentFile p.

(** The text [runProject] resolves with. *)
Definition startSummary (port : N) (command : jsstring) (arguments : list jsstring)
    : jsstring :=
  checkMark ++ str " Project started on port " ++ digitsOf port
    ++ [c_newline] ++ str "Command: " ++ command ++ str " "
    ++ join (str " ") arguments.

(** The options [runProject] spawns the child with. *)
Definition runOptions (env : Env) (project : Project) (port : N) : CommandOptions :=
  {| cmd := (runCommand env project).1.1; args := (runCommand env project).1.2;
     cwd := project_path project; env_PORT := Some port |}.

(** The ids of the listed projects, in the order of the list. *)
Definition listing (st : State) : list jsstring := map project_id (projects st).

(** The last of the new files that has the given path. *)
Definition lastWithPath (path : jsstring) (news : list ProjectFile) : option ProjectFile :=
  List.find (fun f => jsstring_eqb (file_path f) path) (rev news).

(** The content most recently asked to be written at [target]. *)
Definition lastWriteTo (target : jsstring) (writes : list (jsstring * jsstring))
    : option jsstring :=
  snd <$> List.find (fun w => jsstring_eqb (fst w) target) (rev writes).


(** ** Conversations and the chat route *)

Inductive Role := UserRole | AssistantRole.

Record Message := {
  message_id : jsstring;
  message_role : Role;
  message_content : jsstring;
  message_timestamp : jsstring;
  message_files : option (list jsstring)
}.

Record Conversation := {
  conversation_id : jsstring;
  conversation_messages : list Message;
  conversation_created : jsstring
}.

(** The module-level variables [projects], [conversations],
    [currentConversationId] and [nextPort], with the process map of the
    service. *)
Record Server := {
  store : State;
  conversations : list Conversation;
  currentConversationId : option jsstring
}.

Definition setConversations (cs : list Conversation) (sv : Server) : Server :=
  {| store := store sv; conversations := cs;
     currentConversationId := currentConversationId sv |}.

Definition setStore (st : State) (sv : Server) : Server :=
  {| store := st; conversations := conversations sv;
     currentConversationId := currentConversationId sv |}.

(** [conversations.find(c => c.id === id)], as a position and the object.
    An id that is [undefined] equals no string. *)
Fixpoint findConversationFrom (i : nat) (id : jsstring) (cs : list Conversation)
    : option (nat * Conversation) :=
  match cs with
  | [] => None
  | c :: cs' =>
      if jsstring_eqb (conversation_id c) id then Some (i, c)
      else findConversationFrom (S i) id cs'
  end.

Definition findConversation (id : option jsstring) (cs : list Conversation)
    : option (nat * Conversation) :=
  match id with
  | Some id => findConversationFrom 0 id cs
  | None => None
  end.

(** [conversation.messages.push(m)] *)
Definition pushMessage (m : Message) (c : Conversation) : Conversation :=
  {| conversation_id := conversation_id c;
     conversation_messages := conversation_messages c ++ [m];
     conversation_created := conversation_created c |}.

(** What one chat request meets: the world of [createOrUpdateProject], the
    agent, and the values of [generateId()] and [new Date().toISOString()]
    at each place of the route where they are taken. *)
Record ChatOracle := {
  world : Env;
  agentRun : option (result (list AgentEvent));
  newConversationId : jsstring;
  newConversationCreated : jsstring;
  userMessageId : jsstring;
  userTimestamp : jsstring;
  assistantMessageId : jsstring;
  assistantTimestamp : jsstring
}.

(** The fields the route reads from the body; each is a string or absent. *)
Record ChatBody := {
  body_message : option jsstring;
  body_conversationId : option jsstring;
  body_projectId : option jsstring
}.

(** Status 200 with the reply, status 400, or status 500 with the message
    of what was caught. *)
Inductive ChatResponse :=
| ChatSuccess (message : Message) (project : option Project) (shouldUpdate : bool)
| ChatBadRequest
| ChatFailure (e : thrown).

Definition emptyConversation (o : ChatOracle) : Conversation :=
  {| conversation_id := newConversationId o;
     conversation_messages := [];
     conversation_created := newConversationCreated o |}.

Definition userMessage (o : ChatOracle) (message : jsstring) : Message :=
  {| message_id := userMessageId o;
     message_role := UserRole;
     message_content := message;
     message_timestamp := userTimestamp o;
     message_files := None |}.

Definition assistantMessage (o : ChatOracle) (r : ChatResult) : Message :=
  {| message_id := assistantMessageId o;
     message_role := AssistantRole;
     message_content := chat_response r;
     message_timestamp := assistantTimestamp o;
     message_files := Some (map file_path (chat_files r)) |}.

(** [projectId ? projects.find(p => p.id === projectId) : undefined] *)
Definition currentProjectOf (projectId : option jsstring) (st : State)
    : option (nat * Project) :=
  match projectId with
  | Some (c :: pid) => findProject (c :: pid) st
  | _ => None
  end.

(** The conversation of a chat request: the first one with the id of the
    body, or else a new one put in front of the list.  The position stands
    for the reference the route holds. *)
Definition threadOf (o : ChatOracle) (b : ChatBody) (sv : Server)
    : nat * list Conversation :=
  match findConversation (body_conversationId b) (conversations sv) with
  | Some (k, _) => (k, conversations sv)
  | None => (0%nat, emptyConversation o :: conversations sv)
  end.

(** [POST /api/chat].  [body] is what [ctx.request.body().value] and the
    destructuring give, or what they throw. *)
Definition postChat (o : ChatOracle) (body : result ChatBody) (sv : Server)
    : ChatResponse * Server * list Effect :=
  match body with
  | Throw e => (ChatFailure e, sv, [EConsoleError e])
  | Return b =>
      match body_message b with
      | None | Some [] => (ChatBadRequest, sv, [])
      | Some message =>
          let '(k, cs) := threadOf o b sv in
          let cs := alter (pushMessage (userMessage o message)) k cs in
          let currentProject := currentProjectOf (body_projectId b) (store sv) in
          match processChatMessage (agentRun o) with
          | (Throw e, log) =>
              (ChatFailure e, setConversations cs sv, log ++ [EConsoleError e])
          | (Return r, log) =>
              let '(updated, st, log') :=
                if chat_shouldUpdate r
                   && negb (length (chat_files r) =? 0)%nat
                then
                  match createOrUpdateProject (world o) (chat_files r) message
                          currentProject (store sv) with
                  | (Return p, st, log') => (Return (Some p), st, log')
                  | (Throw e, st, log') => (Throw e, st, log')
                  end
                else (Return (snd <$> currentProject), store sv, [])
              in
              match updated with
              | Throw e =>
                  (ChatFailure e, setStore st (setConversations cs sv),
                   log ++ log' ++ [EConsoleError e])
              | Return updatedProject =>
                  let reply := assistantMessage o r in
                  (ChatSuccess reply updatedProject (chat_shouldUpdate r),
                   setStore st
                     (setConversations (alter (pushMessage reply) k cs) sv),
                   log ++ log')
              end
          end
      end
  end.

(** [POST /api/conversations] *)
Definition postConversation (id created : jsstring) (sv : Server)
    : Conversation * Server :=
  let conversation :=
    {| conversation_id := id; conversation_messages := [];
       conversation_created := created |} in
  (conversation,
   {| store := store sv; conversations := conversation :: conversations sv;
      currentConversationId := Some id |}).

(** [GET /api/conversations/:id]: the conversation, or [None] for status
    404. *)
Definition getConversation (id : jsstring) (sv : Server) : option Conversation :=
  snd <$> findConversationFrom 0 id (conversations sv).

(** The request on the projects that a chat request amounts to, if any:
    there is one when the message is not empty and the agent has
    replied. *)
Definition chatRequest (o : ChatOracle) (body : result ChatBody) : option Request :=
  match body, agentRun o with
  | Return b, Some (Return events) =>
      match body_message b with
      | Some (c :: message) =>
          Some (Chat (parseFilesFromResponse (accumulate events)) (c :: message)
                  (body_projectId b))
      | _ => None
      end
  | _, _ => None
  end.

(** The messages a conversation has gained. *)
Definition gained (before after : Conversation) (added : list Message) : Prop :=
  conversation_id after = conversation_id before
  /\ conversation_created after = conversation_created before
  /\ conversation_messages after = conversation_messages before ++ added.

(** The reply a response carries. *)
Definition replyOf (resp : ChatResponse) : list Message :=
  match resp with
  | ChatSuccess m _ _ => [m]
  | _ => []
  end.

Definition isConsoleError (e : Effect) : bool :=
  match e with
  | EConsoleError _ => true
  | _ => false
  end.

(** ** File icons of the page *)

(** The object literal [icons] of [getFileIcon], in UTF-16 code units. *)
Definition icons : list (jsstring * jsstring) :=
  [(str "javascript", [55357; 56516]);    (* U+1F4C4 *)
   (str "typescript", [55357; 56516]);
   (str "python", [55357; 56333]);        (* U+1F40D *)
   (str "html", [55356; 57104]);          (* U+1F310 *)
   (str "css", [55356; 57256]);           (* U+1F3A8 *)
   (str "json", [9881; 65039]);           (* U+2699 U+FE0F *)
   (str "markdown", [55357; 56541])].     (* U+1F4DD *)

Definition defaultIcon : jsstring := [55357; 56516].

(** [getFileIcon(language)] for a language that is a string. *)
Definition getFileIcon (language : jsstring) : value :=
  orElse (getProperty icons language) (VString defaultIcon).
(** * Properties *)

(** ** Strings *)

Lemma jsstring_eqb_eq (a b : list N) : jsstring_eqb a b = true <-> a = b.
Proof. unfold jsstring_eqb. apply bool_decide_eq_true. Qed.

Lemma jsstring_eqb_neq (a b : list N) : jsstring_eqb a b = false <-> a <> b.
Proof. unfold jsstring_eqb. apply bool_decide_eq_false. Qed.

Lemma jsstring_eqb_refl (a : list N) : jsstring_eqb a a = true.
Proof. by apply jsstring_eqb_eq. Qed.

Ltac char_cases :=
  unfold isTrimmed, isDot, isNameChar, isWord in *;
  unfold isWhiteSpace, isLineTerminator, inRange,
    c_backtick, c_colon, c_newline, c_slash in *;
  repeat match goal with
         | |- context [N.eqb ?a ?b] => destruct (N.eqb_spec a b)
         | |- context [N.leb ?a ?b] => destruct (N.leb_spec a b)
         | H : context [N.eqb ?a ?b] |- _ => destruct (N.eqb_spec a b)
         | H : context [N.leb ?a ?b] |- _ => destruct (N.leb_spec a b)
         end;
  simpl in *; try congruence; try lia; try (exfalso; lia).

Lemma toLowerCase_no_capital (s : list N) :
  Forall (fun c => inRange 65 90 c = false) (toLowerCase s).
Proof.
  induction s as [|c s IH]; simpl; [constructor|].
  apply Forall_app; split; [|exact IH].
  unfold lowerUnit.
  destruct (inRange 65 90 c) eqn:Hc.
  - repeat constructor. char_cases.
  - destruct (c =? 304) eqn:H1; [repeat constructor|].
    destruct (c =? 8490) eqn:H2; repeat constructor; assumption.
Qed.

Lemma toLowerCase_neq_capital (s name : list N) :
  existsb (inRange 65 90) name = true -> toLowerCase s <> name.
Proof.
  intros Hex Heq. apply existsb_exists in Hex as (c & Hin & Hc).
  pose proof (toLowerCase_no_capital s) as Hall. rewrite Heq in Hall.
  rewrite Forall_forall in Hall. apply list_elem_of_In in Hin.
  rewrite (Hall c Hin) in Hc. discriminate.
Qed.

Lemma assoc_In key own v :
  assoc key own = Some v -> In (key, v) own.
Proof.
  induction own as [|[k w] own IH]; simpl; [discriminate|].
  destruct (jsstring_eqb k key) eqn:Hk.
  - apply jsstring_eqb_eq in Hk. intros [= ->]. left. by subst.
  - intros H. right. by apply IH.
Qed.

Lemma assoc_None key own :
  ~ In key (map fst own) -> assoc key own = None.
Proof.
  induction own as [|[k w] own IH]; simpl; [done|].
  intros Hnot. destruct (jsstring_eqb k key) eqn:Hk.
  - apply jsstring_eqb_eq in Hk. tauto.
  - apply IH. tauto.
Qed.

(** ** normalizeLanguage *)

Lemma normalizeLanguage_own (s v : list N) :
  In (toLowerCase s, v) langMap -> normalizeLanguage s = VString v.
Proof.
  intros Hin. unfold normalizeLanguage.
  remember (toLowerCase s) as k eqn:Hk. clear Hk.
  cbv [langMap map fst snd] in Hin. simpl in Hin.
  repeat (destruct Hin as [[= <- <-]|Hin]; [reflexivity|]).
  contradiction.
Qed.

Lemma normalizeLanguage_other (s : list N) :
  ~ In (toLowerCase s) langKeys ->
  ~ In (toLowerCase s) inheritedKeys ->
  normalizeLanguage s = VString (str "text").
Proof.
  intros Hown Hinh. unfold normalizeLanguage, getProperty.
  rewrite (assoc_None _ _ Hown).
  destruct (existsb _ objectPrototypeKeys) eqn:Hex; [|reflexivity].
  exfalso. apply existsb_exists in Hex as (name & Hin & Heq).
  apply jsstring_eqb_eq in Heq. subst name.
  cbv [objectPrototypeKeys map] in Hin. simpl in Hin.
  repeat (destruct Hin as [Hin|Hin];
          [first [ by (symmetry in Hin; revert Hin; apply toLowerCase_neq_capital)
                 | apply Hinh; rewrite <- Hin; simpl; tauto ] |]).
  contradiction.
Qed.

Lemma normalizeLanguage_inherited (s : list N) :
  In (toLowerCase s) inheritedKeys ->
  normalizeLanguage s = VBuiltin (toLowerCase s).
Proof.
  unfold normalizeLanguage. intros [<-|[<-|[]]]; reflexivity.
Qed.

Lemma normalizeLanguage_tag (s : list N) :
  ~ In (toLowerCase s) inheritedKeys ->
  exists t, normalizeLanguage s = VString t /\ In t languageTags.
Proof.
  intros Hinh.
  destruct (assoc (toLowerCase s) langMap) as [v|] eqn:Hv.
  - apply assoc_In in Hv. exists v. split; [by apply normalizeLanguage_own|].
    cbv [langMap map fst snd] in Hv. simpl in Hv.
    repeat (destruct Hv as [[= _ <-]|Hv]; [cbv [languageTags map]; simpl; tauto|]).
    contradiction.
  - exists (str "text"). split; [|cbv [languageTags map]; simpl; tauto].
    unfold normalizeLanguage, getProperty in *. rewrite Hv.
    destruct (existsb _ objectPrototypeKeys) eqn:Hex; [|reflexivity].
    exfalso. apply existsb_exists in Hex as (name & Hin & Heq).
    apply jsstring_eqb_eq in Heq. subst name.
    cbv [objectPrototypeKeys map] in Hin. simpl in Hin.
    repeat (destruct Hin as [Hin|Hin];
            [first [ by (symmetry in Hin; revert Hin; apply toLowerCase_neq_capital)
                   | apply Hinh; rewrite <- Hin; simpl; tauto ] |]).
    contradiction.
Qed.

Lemma normalizeLanguage_fixes_tags (t : list N) :
  In t languageTags -> t <> str "markdown" -> normalizeLanguage t = VString t.
Proof.
  cbv [languageTags map]. simpl. intros Hin Hmd.
  repeat (destruct Hin as [<-|Hin]; [first [reflexivity | by destruct Hmd]|]).
  contradiction.
Qed.

(** C4, as amended.  [normalizeLanguage] is a function on strings that
    looks its argument up in lower case: js and javascript give javascript,
    ts and typescript give typescript, py and python give python, json,
    html and css give themselves, and md gives markdown.  An argument whose
    lower-case form is none of these keys and is not a name inherited from
    Object.prototype gives text.  For every argument whose lower-case form
    is not an inherited name the result is one of the eight tags, and unless
    that form is md the result is a fixed point: normalising it again
    returns it unchanged. *)
Theorem normalizeLanguage_spec (s : list N) :
  let k := toLowerCase s in
  (k = str "js" \/ k = str "javascript" ->
     normalizeLanguage s = VString (str "javascript")) /\
  (k = str "ts" \/ k = str "typescript" ->
     normalizeLanguage s = VString (str "typescript")) /\
  (k = str "py" \/ k = str "python" ->
     normalizeLanguage s = VString (str "python")) /\
  (k = str "json" -> normalizeLanguage s = VString (str "json")) /\
  (k = str "html" -> normalizeLanguage s = VString (str "html")) /\
  (k = str "css" -> normalizeLanguage s = VString (str "css")) /\
  (k = str "md" -> normalizeLanguage s = VString (str "markdown")) /\
  (~ In k langKeys -> ~ In k inheritedKeys ->
     normalizeLanguage s = VString (str "text")) /\
  (~ In k inheritedKeys ->
     exists t, normalizeLanguage s = VString t /\ In t languageTags /\
               (k <> str "md" -> normalizeLanguage t = normalizeLanguage s)).
Proof.
  cbv zeta.
  repeat split.
  1-7: intros H; apply normalizeLanguage_own;
       cbv [langMap map fst snd]; simpl;
       repeat destruct H as [H|H]; rewrite H; tauto.
  - apply normalizeLanguage_other.
  - intros Hinh.
    destruct (normalizeLanguage_tag s Hinh) as (t & Ht & Htag).
    exists t. split; [exact Ht|]. split; [exact Htag|]. intros Hmd. rewrite Ht.
    apply normalizeLanguage_fixes_tags; [exact Htag|].
    intros ->. apply Hmd.
    destruct (assoc (toLowerCase s) langMap) as [v|] eqn:Hv.
    + apply assoc_In in Hv.
      rewrite (normalizeLanguage_own _ _ Hv) in Ht. injection Ht as ->.
      cbv [langMap map fst snd] in Hv. simpl in Hv.
      repeat (destruct Hv as [Hv|Hv]; [by inversion Hv|]).
      contradiction.
    + unfold normalizeLanguage, getProperty in Ht. rewrite Hv in Ht.
      destruct (existsb _ objectPrototypeKeys); discriminate.
Qed.

Lemma normalizeLanguage_spec_witness :
  normalizeLanguage (str "TS") = VString (str "typescript") /\
  normalizeLanguage (str "Rust") = VString (str "text") /\
  exists t, normalizeLanguage (str "py") = VString t /\ In t languageTags /\
            normalizeLanguage t = normalizeLanguage (str "py").
Proof.
  split; [|split].
  - apply (normalizeLanguage_spec (str "TS")). left. reflexivity.
  - apply (normalizeLanguage_spec (str "Rust")).
    + vm_compute. intuition discriminate.
    + vm_compute. intuition discriminate.
  - pose proof (normalizeLanguage_spec (str "py")) as Hspec. cbv zeta in Hspec.
    destruct Hspec as (_ & _ & _ & _ & _ & _ & _ & _ & Hspec).
    destruct Hspec as (t & Ht & Htag & Hfix).
    + vm_compute. intuition discriminate.
    + exists t. split; [exact Ht|]. split; [exact Htag|]. apply Hfix.
      vm_compute. discriminate.
Defined.

(** C4 fails as stated: md does not pass through unchanged, and normalising
    the result of md once more gives text. *)
Lemma normalizeLanguage_md_counterexample :
  normalizeLanguage (str "md") <> VString (str "md") /\
  exists t, normalizeLanguage (str "md") = VString t /\
            normalizeLanguage t <> normalizeLanguage (str "md").
Proof.
  split; [vm_compute; discriminate|].
  exists (str "markdown"). split; [reflexivity|]. vm_compute. discriminate.
Qed.

(** A lower-case key that names an inherited property is answered with
    the inherited object, which is not a string. *)
Lemma normalizeLanguage_constructor :
  normalizeLanguage (str "constructor") = VBuiltin (str "constructor") /\
  normalizeLanguage (str "__proto__") = VBuiltin (str "__proto__").
Proof. split; reflexivity. Qed.

(** ** The regular expression *)

Lemma lazyStar_body (g1 : option (list N)) (g2 : list N) (s acc : list N) :
  lazyStar isAny acc (fun g3 =>
     lit fence (fun rest =>
       Some {| group1 := g1; group2 := g2; group3 := g3; afterMatch := rest |})) s
  = match splitFence s with
    | Some (b, rest) =>
        Some {| group1 := g1; group2 := g2; group3 := rev acc ++ b;
                afterMatch := rest |}
    | None => None
    end.
Proof.
  revert acc. induction s as [|c s IH]; intros acc.
  - reflexivity.
  - cbn [lazyStar splitFence]. unfold lit at 1.
    destruct (stripPrefix fence (c :: s)) as [r|] eqn:Hp.
    + by rewrite app_nil_r.
    + cbn [isAny]. rewrite IH. destruct (splitFence s) as [[b rest]|]; [|done].
      cbn [rev]. by rewrite <- app_assoc.
Qed.

Lemma lazyStar_header (g1 : option (list N)) (s acc : list N) :
  lazyStar isDot acc (fun g2 =>
     lit [c_newline]
       (lazyStar isAny [] (fun g3 =>
          lit fence (fun rest =>
            Some {| group1 := g1; group2 := g2; group3 := g3;
                    afterMatch := rest |})))) s
  = match lineAndBody s with
    | Some (h, b, rest) =>
        Some {| group1 := g1; group2 := rev acc ++ h; group3 := b;
                afterMatch := rest |}
    | None => None
    end.
Proof.
  revert acc. induction s as [|c s IH]; intros acc.
  - reflexivity.
  - cbn [lazyStar]. unfold lit at 1.
    unfold lineAndBody. cbn [stripPrefix splitLine].
    destruct (c_newline =? c) eqn:Hnl.
    + apply N.eqb_eq in Hnl. subst c. cbn [N.eqb Pos.eqb c_newline].
      rewrite (lazyStar_body g1 (rev acc) s []).
      destruct (splitFence s) as [[b rest]|]; [|reflexivity].
      cbn [rev app]. by rewrite app_nil_r.
    + rewrite N.eqb_sym, Hnl.
      destruct (isDot c); [|reflexivity].
      rewrite IH. unfold lineAndBody.
      destruct (splitLine s) as [[h r]|]; [|reflexivity].
      destruct (splitFence r) as [[b rest]|]; [|reflexivity].
      cbn [rev]. by rewrite <- app_assoc.
Qed.

Lemma isWord_isDot (c : N) : isWord c = true -> isDot c = true.
Proof. intros H. char_cases. Qed.

Lemma isWord_not_colon (c : N) : isWord c = true -> (c =? c_colon) = false.
Proof. intros H. char_cases. Qed.

Lemma lineAndBody_cons (c : N) (s : list N) :
  isDot c = true ->
  lineAndBody (c :: s) = (fun '(h, b, r) => (c :: h, b, r)) <$> lineAndBody s.
Proof.
  intros Hc. unfold lineAndBody. cbn [splitLine]. rewrite Hc.
  replace (c =? c_newline) with false by (symmetry; char_cases).
  destruct (splitLine s) as [[h r]|]; [|reflexivity].
  destruct (splitFence r) as [[b rest]|]; reflexivity.
Qed.

Lemma lineAndBody_cons_None (c : N) (s : list N) :
  isDot c = true -> lineAndBody s = None -> lineAndBody (c :: s) = None.
Proof. intros Hc Hs. by rewrite lineAndBody_cons, Hs. Qed.

Lemma lineAndBody_app_None (w r : list N) :
  forallb isWord w = true -> lineAndBody r = None -> lineAndBody (w ++ r) = None.
Proof.
  induction w as [|c w IH]; cbn [forallb app]; [done|].
  intros [Hc Hw]%andb_prop Hr.
  apply lineAndBody_cons_None; [by apply isWord_isDot | by apply IH].
Qed.

Lemma lineAndBody_skipColon_None (s : list N) :
  lineAndBody (skipColon s) = None -> lineAndBody s = None.
Proof.
  destruct s as [|c s]; [done|]. cbn [skipColon].
  destruct (c =? c_colon) eqn:Hc; [|done].
  apply N.eqb_eq in Hc. subst c. by apply lineAndBody_cons_None.
Qed.

Lemma spanWord_app (s : list N) :
  s = (spanWord s).1 ++ (spanWord s).2 /\ forallb isWord (spanWord s).1 = true.
Proof.
  induction s as [|c s [IH1 IH2]]; [done|]. cbn [spanWord].
  destruct (isWord c) eqn:Hc; [|done].
  destruct (spanWord s) as [w r]. cbn in *. rewrite Hc, IH2. by rewrite <- IH1.
Qed.

Lemma afterLanguage_eq (g1 : option (list N)) (s : list N) :
  afterLanguage g1 s = mkMatch g1 <$> lineAndBody (skipColon s).
Proof.
  unfold afterLanguage, optLit. unfold lit at 1.
  assert (Hh : forall t, lazyStar isDot []
             (fun g2 => lit [c_newline]
                (lazyStar isAny [] (fun g3 =>
                   lit fence (fun rest =>
                     Some {| group1 := g1; group2 := g2; group3 := g3;
                             afterMatch := rest |})))) t
           = mkMatch g1 <$> lineAndBody t).
  { intros t. rewrite lazyStar_header.
    destruct (lineAndBody t) as [[[h b] rest]|]; reflexivity. }
  rewrite !Hh.
  destruct s as [|c s]; [reflexivity|]. cbn [stripPrefix skipColon].
  destruct (c =? c_colon) eqn:Hc.
  - apply N.eqb_eq in Hc. subst c. cbn [c_colon N.eqb Pos.eqb].
    rewrite Hh.
    destruct (lineAndBody s) as [x|] eqn:Hs; [reflexivity|].
    cbn [fmap option_fmap option_map].
    by rewrite (lineAndBody_cons_None c_colon s).
  - rewrite N.eqb_sym, Hc. reflexivity.
Qed.

Lemma afterLanguage_None_word (g g' : option (list N)) (w r : list N) :
  forallb isWord w = true ->
  afterLanguage g r = None -> afterLanguage g' (w ++ r) = None.
Proof.
  intros Hw. rewrite !afterLanguage_eq. intros Hr.
  assert (Hnone : lineAndBody (w ++ r) = None).
  { apply lineAndBody_app_None; [done|]. apply lineAndBody_skipColon_None.
    by destruct (lineAndBody (skipColon r)). }
  destruct w as [|c w]; cbn [app].
  - by destruct (lineAndBody (skipColon r)).
  - cbn [skipColon]. cbn [forallb] in Hw. apply andb_prop in Hw as [Hc _].
    rewrite (isWord_not_colon c Hc). cbn [app] in Hnone. by rewrite Hnone.
Qed.

Lemma greedyStar_word (s acc : list N) :
  greedyStar isWord acc (fun w => afterLanguage (Some w)) s
  = afterLanguage (Some (rev acc ++ (spanWord s).1)) (spanWord s).2.
Proof.
  revert acc. induction s as [|c s IH]; intros acc.
  - cbn [greedyStar spanWord fst snd]. by rewrite app_nil_r.
  - cbn [greedyStar spanWord]. destruct (isWord c) eqn:Hc.
    + rewrite IH. destruct (spanWord_app s) as [Hs Hw].
      destruct (spanWord s) as [w r]. cbn [fst snd] in *.
      cbn [rev]. rewrite <- app_assoc. cbn [app].
      destruct (afterLanguage (Some (rev acc ++ c :: w)) r) eqn:Hr; [done|].
      rewrite Hs.
      apply (afterLanguage_None_word (Some (rev acc ++ c :: w)) _ (c :: w) r);
        [|exact Hr].
      cbn [forallb]. by rewrite Hc, Hw.
    + cbn [fst snd]. by rewrite app_nil_r.
Qed.

(** The backtracking matcher finds what the direct reading finds. *)
Lemma filePattern_fenceAt (s : list N) : filePattern s = fenceAt s.
Proof.
  unfold filePattern, fenceAt, lit.
  destruct (stripPrefix fence s) as [s1|]; [|reflexivity].
  unfold optGroup, greedyPlus.
  destruct s1 as [|c s1].
  - cbn [spanWord]. apply afterLanguage_eq.
  - cbn [spanWord]. destruct (isWord c) eqn:Hc.
    + rewrite greedyStar_word. destruct (spanWord_app s1) as [Hs Hw].
      destruct (spanWord s1) as [w r]. cbn [fst snd rev app] in *.
      destruct (afterLanguage (Some (c :: w)) r) eqn:Hr.
      * by rewrite <- Hr, afterLanguage_eq.
      * assert (Hnone : afterLanguage None ((c :: w) ++ r) = None).
        { apply (afterLanguage_None_word (Some (c :: w))); [|exact Hr].
          cbn [forallb]. by rewrite Hc, Hw. }
        cbn [app] in Hnone. rewrite <- Hs in Hnone. rewrite Hnone.
        rewrite afterLanguage_eq in Hr.
        by destruct (lineAndBody (skipColon r)).
    + apply afterLanguage_eq.
Qed.

(** *** Every match consumes input, so the loop ends *)

Lemma stripPrefix_Some (p s r : list N) :
  stripPrefix p s = Some r -> s = p ++ r.
Proof.
  revert s. induction p as [|a p IH]; intros [|b s]; cbn; try congruence.
  destruct (N.eqb_spec a b); [|discriminate]. intros H. subst. f_equal. by apply IH.
Qed.

Lemma stripPrefix_app (p r : list N) : stripPrefix p (p ++ r) = Some r.
Proof. induction p as [|a p IH]; cbn; [done|]. by rewrite N.eqb_refl. Qed.


Lemma splitFence_Some (s b r : list N) :
  splitFence s = Some (b, r) -> s = b ++ fence ++ r.
Proof.
  revert b. induction s as [|c s IH]; intros b.
  - cbn. discriminate.
  - cbn [splitFence]. destruct (stripPrefix fence (c :: s)) as [r'|] eqn:Hp.
    + intros [= <- <-]. by apply stripPrefix_Some in Hp.
    + destruct (splitFence s) as [[b' r']|]; [|discriminate].
      intros [= <- <-]. cbn [app]. f_equal. by apply IH.
Qed.






(** On any input, [exec] returns the direct reading at the first position
    where that reading succeeds. *)
Lemma exec_first (s : list N) (m : RegExpMatch) :
  exec s = Some m <->
  exists skipped rest,
    s = skipped ++ rest /\ fenceAt rest = Some m
    /\ forall k, (k < length skipped)%nat -> fenceAt (drop k s) = None.
Proof.
  split.
  - induction s as [|c s IH]; cbn [exec]; rewrite filePattern_fenceAt.
    + intros H. exists [], []. split_and!; [done|by destruct (fenceAt [])|].
      cbn. lia.
    + destruct (fenceAt (c :: s)) as [m'|] eqn:Hm.
      * intros [= <-]. exists [], (c :: s). split_and!; [done|done|]. cbn. lia.
      * intros (skipped & rest & -> & Hrest & Hnone)%IH.
        exists (c :: skipped), rest. split_and!; [done|done|].
        intros [|k] Hk; [done|]. cbn [drop]. apply Hnone. cbn in Hk. lia.
  - intros (skipped & rest & -> & Hrest & Hnone).
    induction skipped as [|c skipped IH].
    + cbn [app]. destruct rest; cbn [exec]; by rewrite filePattern_fenceAt, Hrest.
    + cbn [app exec]. rewrite filePattern_fenceAt.
      pose proof (Hnone 0%nat) as H0. cbn [drop app length] in H0.
      rewrite H0 by lia. apply IH.
      intros k Hk. apply (Hnone (S k)). cbn. lia.
Qed.

(** *** Well-formed responses *)

Lemma fenceFree_no_fence (c : N) (t r : list N) :
  fenceFree (c :: t) = true -> stripPrefix fence ((c :: t) ++ r) = None.
Proof.
  cbn [fenceFree]. destruct (stripPrefix fence ((c :: t) ++ fence)) eqn:Hp;
    [discriminate|].
  intros _. revert Hp. unfold fence, c_backtick. cbn [app stripPrefix].
  destruct (96 =? c); [|done].
  destruct t as [|c2 t]; [cbn; discriminate|]. cbn [app stripPrefix].
  destruct (96 =? c2); [|done].
  destruct t as [|c3 t]; [cbn; discriminate|]. cbn [app stripPrefix].
  destruct (96 =? c3); [discriminate|done].
Qed.

Lemma fenceFree_tail (c : N) (t : list N) :
  fenceFree (c :: t) = true -> fenceFree t = true.
Proof.
  cbn [fenceFree]. by destruct (stripPrefix fence ((c :: t) ++ fence)).
Qed.


Lemma splitFence_body (b r : list N) :
  fenceFree b = true -> splitFence (b ++ fence ++ r) = Some (b, r).
Proof.
  induction b as [|c b IH]; intros Hfree.
  - cbn [app]. destruct r; cbn; by rewrite ?N.eqb_refl.
  - cbn [splitFence app].
    change (c :: b ++ fence ++ r) with ((c :: b) ++ fence ++ r).
    rewrite (fenceFree_no_fence c b _ Hfree).
    rewrite IH; [done|]. by apply fenceFree_tail in Hfree.
Qed.









Lemma spanWord_rest (s : list N) :
  negb (match (spanWord s).2 with
        | c :: _ => isWord c
        | [] => false
        end) = true.
Proof.
  induction s as [|c s IH]; [done|]. cbn [spanWord].
  destruct (isWord c) eqn:Hc; [|by cbn; rewrite Hc].
  by destruct (spanWord s) as [w r].
Qed.

(** Every header line is the header of a well-formed block: only a line
    terminator in the header or a fence in the body puts a block outside. *)
Lemma wellFormed_header (header body : list N) :
  forallb isDot header = true -> fenceFree body = true ->
  exists lang colon path,
    header = lang ++ colonText colon ++ path
    /\ wellFormed (Block lang colon path body) = true.
Proof.
  intros Hh Hb. destruct (spanWord_app header) as [Happ Hw].
  pose proof (spanWord_rest header) as Hrest.
  destruct (spanWord header) as [lang rest]. cbn [fst snd] in *.
  assert (Hr : forallb isDot rest = true).
  { rewrite Happ, forallb_app in Hh. by apply andb_prop in Hh as [_ Hh]. }
  destruct rest as [|c rest].
  - exists lang, false, []. split; [done|]. cbn. by rewrite Hw, Hb.
  - destruct (c =? c_colon) eqn:Hc.
    + apply N.eqb_eq in Hc. subst c. exists lang, true, rest. split; [done|].
      cbn [wellFormed]. cbn [forallb] in Hr. apply andb_prop in Hr as [_ Hr].
      by rewrite Hw, Hr, Hb.
    + exists lang, false, (c :: rest). split; [done|].
      cbn [wellFormed continuesTag orb]. apply negb_true_iff in Hrest.
      by rewrite Hw, Hr, Hb, Hrest, Hc.
Qed.

(** A plain fence, with a tag and no path, gives no file. *)
Lemma fileOfBlock_plain (lang body : list N) : fileOfBlock lang [] body = None.
Proof. reflexivity. Qed.




(** A header line that ends in CR LF cannot be matched: [.] stops at CR. *)
Lemma parseFilesFromResponse_crlf :
  parseFilesFromResponse
    (str "```js:a.js" ++ [13; 10] ++ str "let x = 1;" ++ [13; 10] ++ str "```") = [].
Proof. vm_compute. reflexivity. Qed.

(** A fence line without a colon still yields a file when something other
    than word characters follows the tag. *)
Lemma parseFilesFromResponse_no_colon :
  map file_path
    (parseFilesFromResponse
       (str "```python3.11" ++ [10] ++ str "print(1)" ++ [10] ++ str "```"))
  = [str ".11"].
Proof. vm_compute. reflexivity. Qed.

(** ** trim *)

Lemma trimStart_spec (s : list N) :
  exists pre, s = pre ++ trimStart s /\ forallb isTrimmed pre = true
              /\ startsWithSpace (trimStart s) = false.
Proof.
  induction s as [|c s (pre & Hs & Hpre & Hstart)].
  - by exists [].
  - cbn [trimStart]. destruct (isTrimmed c) eqn:Hc.
    + exists (c :: pre). cbn [app forallb]. rewrite Hc, Hpre. by rewrite <- Hs.
    + exists []. cbn [startsWithSpace]. by rewrite Hc.
Qed.

Lemma trimEnd_spec (s : list N) :
  exists post, s = trimEnd s ++ post /\ forallb isTrimmed post = true
               /\ endsWithSpace (trimEnd s) = false.
Proof.
  destruct (trimStart_spec (rev s)) as (pre & Hs & Hpre & Hstart).
  exists (rev pre). unfold trimEnd, endsWithSpace. rewrite rev_involutive.
  split; [|split; [|exact Hstart]].
  - rewrite <- rev_app_distr, <- Hs. by rewrite rev_involutive.
  - rewrite forallb_forall in *. intros c Hin. apply Hpre. by apply in_rev.
Qed.

Lemma trim_spec (s : list N) :
  exists pre post,
    s = pre ++ trim s ++ post
    /\ forallb isTrimmed pre = true /\ forallb isTrimmed post = true
    /\ startsWithSpace (trim s) = false /\ endsWithSpace (trim s) = false.
Proof.
  destruct (trimStart_spec s) as (pre & Hs & Hpre & Hstart).
  destruct (trimEnd_spec (trimStart s)) as (post & Ht & Hpost & Hend).
  exists pre, post. unfold trim. rewrite <- Ht.
  repeat split; try done.
  rewrite Ht in Hstart. by destruct (trimEnd (trimStart s)).
Qed.

(** C10.  The content of every file extracted is the interior of the block
    (group 3 of its match) without the code units [trim] strips at either
    end: it is framed in the interior by strippable units only, it neither
    begins nor ends with one and is not empty; so an interior that ends with
    a line terminator or other white space is not kept as it is. *)
Theorem parseFilesFromResponse_content_trimmed
    (response : list N) (f : ProjectFile) :
  In f (parseFilesFromResponse response) ->
  exists m pre post,
    In m (execAll response) /\ fileOfMatch m = Some f
    /\ file_content f = trim (group3 m)
    /\ group3 m = pre ++ file_content f ++ post
    /\ forallb isTrimmed pre = true /\ forallb isTrimmed post = true
    /\ startsWithSpace (file_content f) = false
    /\ endsWithSpace (file_content f) = false
    /\ file_content f <> []
    /\ (endsWithSpace (group3 m) = true -> file_content f <> group3 m).
Proof.
  intros Hin. apply list_elem_of_In in Hin.
  unfold parseFilesFromResponse in Hin. apply list_elem_of_omap in Hin as (m & Hm & Hf).
  assert (Hc : file_content f = trim (group3 m) /\ file_content f <> []).
  { unfold fileOfMatch in Hf. destruct (trim (group2 m)); [discriminate|].
    destruct (trim (group3 m)); [discriminate|]. by injection Hf as <-. }
  destruct Hc as [Hc Hne].
  destruct (trim_spec (group3 m)) as (pre & post & Hs & Hpre & Hpost & Hstart & Hend).
  exists m, pre, post. rewrite Hc in Hne |- *.
  split_and!; try done.
  - by apply list_elem_of_In.
  - intros Hsp Heq. rewrite Heq in Hend. congruence.
Qed.

Lemma parseFilesFromResponse_content_trimmed_witness :
  let response :=
    str "```js:a.js" ++ [10; 32] ++ str "let x = 1;" ++ [10] ++ str "```" in
  let f := {| file_name := str "a.js"; file_path := str "a.js";
              file_content := str "let x = 1;";
              file_language := VString (str "javascript") |} in
  In f (parseFilesFromResponse response) /\
  exists m pre post,
    In m (execAll response) /\ fileOfMatch m = Some f
    /\ file_content f = trim (group3 m)
    /\ group3 m = pre ++ file_content f ++ post
    /\ forallb isTrimmed pre = true /\ forallb isTrimmed post = true
    /\ startsWithSpace (file_content f) = false
    /\ endsWithSpace (file_content f) = false
    /\ file_content f <> []
    /\ (endsWithSpace (group3 m) = true -> file_content f <> group3 m).
Proof.
  cbv zeta.
  assert (Hin : In {| file_name := str "a.js"; file_path := str "a.js";
                      file_content := str "let x = 1;";
                      file_language := VString (str "javascript") |}
                  (parseFilesFromResponse
                     (str "```js:a.js" ++ [10; 32] ++ str "let x = 1;" ++ [10]
                        ++ str "```"))).
  { vm_compute. left. reflexivity. }
  split; [exact Hin|].
  exact (parseFilesFromResponse_content_trimmed _ _ Hin).
Defined.

(** ** The project list *)

Lemma findFrom_Some (k : nat) (projectId : list N) (ps : list Project)
    (i : nat) (p : Project) :
  findFrom k projectId ps = Some (i, p) ->
  exists j, i = (k + j)%nat /\ ps !! j = Some p /\ project_id p = projectId.
Proof.
  revert k. induction ps as [|q ps IH]; intros k; cbn [findFrom]; [discriminate|].
  destruct (jsstring_eqb (project_id q) projectId) eqn:Hq.
  - intros [= <- <-]. exists 0%nat. apply jsstring_eqb_eq in Hq.
    split; [lia|done].
  - intros (j & -> & Hj & Hid)%IH. exists (S j). split; [lia|done].
Qed.

Lemma findProject_Some (projectId : list N) (st : State) (i : nat) (p : Project) :
  findProject projectId st = Some (i, p) ->
  projects st !! i = Some p /\ project_id p = projectId.
Proof.
  intros (j & -> & Hj & Hid)%findFrom_Some. done.
Qed.

Lemma findFrom_None (k : nat) (projectId : list N) (ps : list Project) :
  findFrom k projectId ps = None <->
  Forall (fun p => project_id p <> projectId) ps.
Proof.
  revert k. induction ps as [|q ps IH]; intros k; cbn [findFrom].
  - split; [constructor|done].
  - destruct (jsstring_eqb (project_id q) projectId) eqn:Hq.
    + apply jsstring_eqb_eq in Hq. split; [discriminate|].
      intros H. inversion H; subst. congruence.
    + apply jsstring_eqb_neq in Hq. rewrite IH. split.
      * intros H. by constructor.
      * intros H. by inversion H.
Qed.

Lemma findFrom_insert (k j : nat) (projectId : list N) (ps : list Project)
    (p p' : Project) :
  findFrom k projectId ps = Some ((k + j)%nat, p) ->
  project_id p' = projectId ->
  findFrom k projectId (<[j := p']> ps) = Some ((k + j)%nat, p').
Proof.
  revert k j. induction ps as [|q ps IH]; intros k j; cbn [findFrom]; [discriminate|].
  destruct (jsstring_eqb (project_id q) projectId) eqn:Hq.
  - intros [= Hk <-] Hid. assert (j = 0%nat) as -> by lia.
    cbn. apply jsstring_eqb_eq in Hid. by rewrite Hid, Nat.add_0_r.
  - intros Hfind Hid. destruct (findFrom_Some _ _ _ _ _ Hfind) as (j' & Hj & _).
    destruct j as [|j]; [lia|]. cbn. rewrite Hq.
    replace (k + S j)%nat with (S k + j)%nat in * by lia. by apply IH.
Qed.

Lemma findProject_store (projectId : list N) (st : State) (i : nat)
    (p p' : Project) :
  findProject projectId st = Some (i, p) ->
  project_id p' = projectId ->
  findProject projectId (storeProject i p' st) = Some (i, p').
Proof.
  unfold findProject, storeProject. cbn [projects setProjects].
  intros Hfind Hid. by apply (findFrom_insert 0 i) with (p := p).
Qed.

Lemma findFrom_filter (k : nat) (projectId : list N) (ps : list Project) :
  findFrom k projectId
    (List.filter (fun project => negb (jsstring_eqb (project_id project) projectId)) ps)
  = None.
Proof.
  apply findFrom_None. apply Forall_forall. intros p Hin.
  apply list_elem_of_In, filter_In in Hin as [_ Hp].
  apply negb_true_iff, jsstring_eqb_neq in Hp. done.
Qed.

Lemma storeProject_lookup (st : State) (i : nat) (p p' : Project) :
  projects st !! i = Some p ->
  projects (storeProject i p' st) !! i = Some p'.
Proof.
  intros Hi. cbn. apply list_lookup_insert_eq. by eapply lookup_lt_Some.
Qed.

Lemma storeProject_twice (st : State) (i : nat) (p p' : Project) :
  storeProject i p' (storeProject i p st) = storeProject i p' st.
Proof.
  unfold storeProject, setProjects. cbn. by rewrite list_insert_insert_eq.
Qed.

Lemma storeProject_same (st : State) (i : nat) (p : Project) :
  projects st !! i = Some p -> storeProject i p st = st.
Proof.
  intros Hi. unfold storeProject, setProjects. rewrite (list_insert_id _ _ _ Hi).
  by destruct st.
Qed.

(** ** DELETE *)

(** The handler filters the project out before it calls [stopProject],
    which therefore never finds it: the rejection is logged, no signal is
    sent and [runningProcesses] is left as it was. *)
Lemma deleteProject_never_stops (env : Env) (projectId : list N) (st : State) :
  deleteProject env projectId st
  = (setProjects
       (List.filter (fun project => negb (jsstring_eqb (project_id project) projectId))
          (projects st)) st,
     [EConsoleError notFound]).
Proof.
  unfold deleteProject, stopProject, findProject. cbn [projects setProjects].
  by rewrite findFrom_filter.
Qed.

Lemma deleteProject_unlisted (env : Env) (projectId : list N) (st : State) :
  findProject projectId (deleteProject env projectId st).1 = None.
Proof.
  rewrite deleteProject_never_stops. unfold findProject. cbn.
  apply findFrom_filter.
Qed.

(** C3, at a failing input.  One project, p1, is running as process 7.
    After DELETE for p1 the project is gone from the list, but no signal was
    sent and process 7 is still bound to p1 in [runningProcesses]: the only
    thing the handler did besides filtering was to log Project not found. *)
Theorem deleteProject_leaves_process_running :
  let st := {| projects := [sampleProject "p1" Running [sampleFile "index.js" "1"]];
               runningProcesses := {[ str "p1" := {| pid := 7 |} ]};
               nextPort := 3002 |} in
  projects (deleteProject quietEnv (str "p1") st).1 = []
  /\ runningProcesses (deleteProject quietEnv (str "p1") st).1 !! str "p1"
     = Some {| pid := 7 |}
  /\ (deleteProject quietEnv (str "p1") st).2 = [EConsoleError notFound].
Proof.
  cbv zeta. rewrite deleteProject_never_stops. cbn [fst snd setProjects projects
    runningProcesses]. split_and!; [reflexivity| |reflexivity].
  apply lookup_singleton_eq.
Qed.

(** On the same state [stopProject] itself, called while the project is
    still listed, does signal the process and drop the binding. *)
Lemma stopProject_before_delete :
  let st := {| projects := [sampleProject "p1" Running [sampleFile "index.js" "1"]];
               runningProcesses := {[ str "p1" := {| pid := 7 |} ]};
               nextPort := 3002 |} in
  runningProcesses (stopProject quietEnv (str "p1") st).1.2 !! str "p1" = None
  /\ (stopProject quietEnv (str "p1") st).2 = [EKill {| pid := 7 |}].
Proof.
  cbv zeta. unfold stopProject, signalProcess.
  change (findProject (str "p1") _) with
    (Some (0%nat, sampleProject "p1" Running [sampleFile "index.js" "1"])).
  cbn [runningProcesses]. rewrite lookup_singleton_eq. cbn.
  split; [|reflexivity]. apply lookup_delete_eq.
Qed.

(** ** stopProject *)

Lemma signalProcess_frame (env : Env) (projectId : list N) (st : State) :
  projects (signalProcess env projectId st).1 = projects st
  /\ nextPort (signalProcess env projectId st).1 = nextPort st
  /\ assignedPorts (signalProcess env projectId st).2 = [].
Proof.
  unfold signalProcess. destruct (runningProcesses st !! projectId) as [process|];
    [destruct (kill env process)|]; done.
Qed.

(** After the block, either nothing is registered for the id, or the signal
    failed and the state is as before. *)
Lemma signalProcess_registration (env : Env) (projectId : list N) (st : State) :
  runningProcesses (signalProcess env projectId st).1 !! projectId = None
  \/ exists process e,
       runningProcesses st !! projectId = Some process
       /\ kill env process = Some e
       /\ (signalProcess env projectId st).1 = st.
Proof.
  unfold signalProcess. destruct (runningProcesses st !! projectId) as [process|] eqn:Hp.
  - destruct (kill env process) as [e|] eqn:Hk; cbn.
    + right. by exists process, e.
    + left. apply lookup_delete_eq.
  - left. done.
Qed.

Lemma signalProcess_unregistered (env : Env) (projectId : list N) (st : State) :
  runningProcesses st !! projectId = None ->
  signalProcess env projectId st = (st, []).
Proof. intros H. unfold signalProcess. by rewrite H. Qed.

Lemma stopProject_state (env : Env) (projectId : list N) (st : State)
    (i : nat) (p : Project) :
  findProject projectId st = Some (i, p) ->
  stopProject env projectId st
  = (Return (str "Project stopped"),
     storeProject i (withStatus Stopped p) (signalProcess env projectId st).1,
     (signalProcess env projectId st).2).
Proof.
  intros Hfind. unfold stopProject. rewrite Hfind.
  by destruct (signalProcess env projectId st).
Qed.

(** A second call, in an outside world [env'], leaves the state the first
    call produced, provided a signal that could not be delivered to the
    registered process cannot be delivered in [env'] either. *)
Lemma stopProject_again (env env' : Env) (projectId : list N) (st : State)
    (i : nat) (p : Project) :
  findProject projectId st = Some (i, p) ->
  (forall process e,
     runningProcesses st !! projectId = Some process ->
     kill env process = Some e -> kill env' process <> None) ->
  let st' := (stopProject env projectId st).1.2 in
  findProject projectId st' = Some (i, withStatus Stopped p)
  /\ exists log',
       stopProject env' projectId st' = (Return (str "Project stopped"), st', log').
Proof.
  intros Hfind Hkill. destruct (findProject_Some _ _ _ _ Hfind) as [Hi Hid].
  cbv zeta. rewrite (stopProject_state env _ _ _ _ Hfind). cbn [fst snd].
  destruct (signalProcess_frame env projectId st) as (Hps & _ & _).
  set (st1 := (signalProcess env projectId st).1) in *.
  set (st' := storeProject i (withStatus Stopped p) st1).
  assert (Hfind' : findProject projectId st' = Some (i, withStatus Stopped p)).
  { apply findProject_store with (p := p); [|done].
    unfold findProject. by rewrite Hps. }
  split; [exact Hfind'|].
  rewrite (stopProject_state env' _ _ _ _ Hfind').
  assert (Hsame : storeProject i (withStatus Stopped (withStatus Stopped p)) st' = st').
  { apply storeProject_same. apply storeProject_lookup with (p := p).
    by rewrite Hps. }
  assert (Hsignal : (signalProcess env' projectId st').1 = st').
  { destruct (signalProcess_registration env projectId st)
      as [Hnone|(process & e & Hsome & Hk & Hst)].
    - by rewrite signalProcess_unregistered.
    - unfold signalProcess.
      replace (runningProcesses st') with (runningProcesses st)
        by (subst st' st1; by rewrite Hst).
      rewrite Hsome. destruct (kill env' process) eqn:Hk'; [done|].
      by destruct (Hkill _ _ Hsome Hk). }
  eexists. rewrite Hsignal. by rewrite Hsame.
Qed.

(** With the wait taken to settle: [stopProject] resolves with Project
    stopped, the status is stopped afterwards, and a second call right after
    resolves as well and leaves the state the first call produced. *)
Lemma stopProject_twice (env : Env) (projectId : list N) (st : State)
    (i : nat) (p : Project) :
  findProject projectId st = Some (i, p) ->
  exists st' log,
    stopProject env projectId st = (Return (str "Project stopped"), st', log)
    /\ projects st' !! i = Some (withStatus Stopped p)
    /\ findProject projectId st' = Some (i, withStatus Stopped p)
    /\ (runningProcesses st' !! projectId = None
        \/ exists process e, runningProcesses st' !! projectId = Some process
                              /\ kill env process = Some e)
    /\ exists log',
         stopProject env projectId st' = (Return (str "Project stopped"), st', log').
Proof.
  intros Hfind. destruct (findProject_Some _ _ _ _ Hfind) as [Hi Hid].
  destruct (stopProject_again env env projectId st i p Hfind) as [Hfind' Hagain].
  { intros process e _ Hk. by rewrite Hk. }
  rewrite (stopProject_state env _ _ _ _ Hfind) in *. cbn [fst snd] in *.
  destruct (signalProcess_frame env projectId st) as (Hps & _ & _).
  assert (Hlook : projects (storeProject i (withStatus Stopped p)
                              (signalProcess env projectId st).1) !! i
                  = Some (withStatus Stopped p)).
  { apply storeProject_lookup with (p := p). by rewrite Hps. }
  do 2 eexists. split_and!; [reflexivity|exact Hlook|exact Hfind'| |exact Hagain].
  cbn [runningProcesses storeProject setProjects].
  destruct (signalProcess_registration env projectId st)
    as [Hnone|(process & e & Hsome & Hk & Hst)]; [by left|].
  right. exists process, e. by rewrite Hst.
Qed.

(** Where every wait settles, the call with the wait included is
    [stopProject]. *)
Lemma stopProjectAwaiting_settled (env : Env) (exits : ChildProcess -> bool)
    (projectId : list N) (st : State) :
  (forall process, runningProcesses st !! projectId = Some process ->
     kill env process = None -> exits process = true) ->
  stopProjectAwaiting env exits projectId st
  = Settled (stopProject env projectId st).1.1 (stopProject env projectId st).1.2
      (stopProject env projectId st).2.
Proof.
  intros Hexits. unfold stopProjectAwaiting, stopProject, signalProcess.
  destruct (findProject projectId st) as [[i p]|]; [|done].
  destruct (runningProcesses st !! projectId) as [process|] eqn:Hp; [|done].
  destruct (kill env process) as [e|] eqn:Hk; [done|].
  by rewrite (Hexits process eq_refl Hk).
Qed.

(** A registered child that takes the signal and never exits keeps the
    call at the await for ever: it does not resolve, and the status and the
    registration stay as they were. *)
Lemma stopProjectAwaiting_pending (env : Env) (exits : ChildProcess -> bool)
    (projectId : list N) (st : State) (i : nat) (p : Project)
    (process : ChildProcess) :
  findProject projectId st = Some (i, p) ->
  runningProcesses st !! projectId = Some process ->
  kill env process = None -> exits process = false ->
  stopProjectAwaiting env exits projectId st = Pending st [EKill process].
Proof.
  intros Hfind Hp Hk Hexits. unfold stopProjectAwaiting.
  by rewrite Hfind, Hp, Hk, Hexits.
Qed.

(** C6, as amended.  For a project that is in the list, and provided that
    a registered process which takes the signal then exits, [stopProject]
    resolves with Project stopped, whether or not a process is registered
    and whether or not the signal can be delivered, and the project's
    status is stopped afterwards; a second call right after resolves as
    well and leaves the state the first call produced. *)
Theorem stopProject_idempotent (env : Env) (exits : ChildProcess -> bool)
    (projectId : list N) (st : State) (i : nat) (p : Project) :
  findProject projectId st = Some (i, p) ->
  (forall process, runningProcesses st !! projectId = Some process ->
     kill env process = None -> exits process = true) ->
  exists st' log,
    stopProjectAwaiting env exits projectId st
    = Settled (Return (str "Project stopped")) st' log
    /\ projects st' !! i = Some (withStatus Stopped p)
    /\ statusAt i st' = Some Stopped
    /\ findProject projectId st' = Some (i, withStatus Stopped p)
    /\ exists log',
         stopProjectAwaiting env exits projectId st'
         = Settled (Return (str "Project stopped")) st' log'.
Proof.
  intros Hfind Hexits.
  destruct (stopProject_twice env projectId st i p Hfind)
    as (st' & log & Hstop & Hlook & Hfind' & Hreg & log' & Hagain).
  exists st', log. split_and!; [|exact Hlook| |exact Hfind'|].
  - rewrite (stopProjectAwaiting_settled _ _ _ _ Hexits). by rewrite Hstop.
  - unfold statusAt. by rewrite Hlook.
  - exists log'. rewrite stopProjectAwaiting_settled; [by rewrite Hagain|].
    intros process Hp Hk.
    destruct Hreg as [Hnone|(process' & e & Hsome & Hthrow)]; [congruence|].
    rewrite Hsome in Hp. injection Hp as <-. congruence.
Qed.

Lemma stopProject_idempotent_witness :
  let p := sampleProject "p1" Running [sampleFile "index.js" "1"] in
  let st := {| projects := [p];
               runningProcesses := {[ str "p1" := {| pid := 3 |} ]};
               nextPort := 3002 |} in
  exists st' log,
    stopProjectAwaiting quietEnv (fun _ => true) (str "p1") st
    = Settled (Return (str "Project stopped")) st' log
    /\ log = [EKill {| pid := 3 |}]
    /\ runningProcesses st' !! str "p1" = None
    /\ statusAt 0 st' = Some Stopped
    /\ exists log',
         stopProjectAwaiting quietEnv (fun _ => true) (str "p1") st'
         = Settled (Return (str "Project stopped")) st' log'.
Proof.
  cbv zeta.
  destruct (stopProject_idempotent quietEnv (fun _ => true) (str "p1")
              {| projects := [sampleProject "p1" Running [sampleFile "index.js" "1"]];
                 runningProcesses := {[ str "p1" := {| pid := 3 |} ]};
                 nextPort := 3002 |} 0%nat _ eq_refl (fun _ _ _ => eq_refl))
    as (st' & log & Hstop & _ & Hstatus & _ & Hagain).
  exists st', log. split; [exact Hstop|].
  assert (Heq : Settled (Return (str "Project stopped")) st' log
                = Settled (Return (str "Project stopped"))
                    {| projects := [withStatus Stopped
                                      (sampleProject "p1" Running
                                         [sampleFile "index.js" "1"])];
                       runningProcesses := delete (str "p1")
                                             {[ str "p1" := {| pid := 3 |} ]};
                       nextPort := 3002 |}
                    [EKill {| pid := 3 |}])
    by (rewrite <- Hstop; reflexivity).
  injection Heq as -> ->.
  split; [reflexivity|]. split; [apply lookup_delete_eq|].
  split; [exact Hstatus|exact Hagain].
Defined.

(** C6 fails as stated: a registered child that takes the signal and does
    not exit keeps [stopProject] from ever resolving, and the project is
    still running, not stopped. *)
Lemma stopProject_pending_counterexample :
  let p := sampleProject "p1" Running [sampleFile "index.js" "1"] in
  let st := {| projects := [p];
               runningProcesses := {[ str "p1" := {| pid := 3 |} ]};
               nextPort := 3002 |} in
  findProject (str "p1") st = Some (0%nat, p)
  /\ stopProjectAwaiting quietEnv (fun _ => false) (str "p1") st
     = Pending st [EKill {| pid := 3 |}]
  /\ statusAt 0 st = Some Running
  /\ ~ exists r st' log,
        stopProjectAwaiting quietEnv (fun _ => false) (str "p1") st
        = Settled r st' log.
Proof.
  cbv zeta.
  assert (Hpending : stopProjectAwaiting quietEnv (fun _ => false) (str "p1")
            {| projects := [sampleProject "p1" Running [sampleFile "index.js" "1"]];
               runningProcesses := {[ str "p1" := {| pid := 3 |} ]};
               nextPort := 3002 |}
          = Pending
              {| projects := [sampleProject "p1" Running [sampleFile "index.js" "1"]];
                 runningProcesses := {[ str "p1" := {| pid := 3 |} ]};
                 nextPort := 3002 |} [EKill {| pid := 3 |}]).
  { by apply (stopProjectAwaiting_pending _ _ _ _ 0%nat
                (sampleProject "p1" Running [sampleFile "index.js" "1"])). }
  split_and!; [reflexivity|exact Hpending|reflexivity|].
  intros (r & st' & log & Hsettled). rewrite Hpending in Hsettled. discriminate.
Qed.

(** A project that is not in the list makes [stopProject] reject. *)
Lemma stopProject_unknown (env : Env) (projectId : list N) (st : State) :
  findProject projectId st = None ->
  stopProject env projectId st = (Throw notFound, st, []).
Proof. intros H. unfold stopProject. by rewrite H. Qed.

(** ** buildProject *)

(** C7.  For an id that is not in the list [buildProject] rejects with
    Project not found, assigns no status and changes nothing.  For a project
    in the list the call passes through two states: in the first the
    project's status is building and nothing else has changed; in the
    second, the one it leaves, the status is created when the call
    resolves and error when it rejects, and again nothing else has
    changed. *)
Theorem buildProject_status (env : Env) (projectId : list N) (st : State) :
  (findProject projectId st = None ->
     buildProjectTrace env projectId st = ([], (Throw notFound, st, [])))
  /\ (forall i p, findProject projectId st = Some (i, p) ->
        exists building r st' log,
          buildProjectTrace env projectId st = ([building; st'], (r, st', log))
          /\ buildProject env projectId st = (r, st', log)
          /\ building = storeProject i (withStatus Building p) st
          /\ statusAt i building = Some Building
          /\ st' = storeProject i (withStatus match r with
                                              | Return _ => Created
                                              | Throw _ => Error
                                              end p) st
          /\ statusAt i st' = Some match r with
                                   | Return _ => Created
                                   | Throw _ => Error
                                   end).
Proof.
  split.
  - intros H. unfold buildProjectTrace. by rewrite H.
  - intros i p Hfind. destruct (findProject_Some _ _ _ _ Hfind) as [Hi Hid].
    assert (Hat : forall s, statusAt i (storeProject i (withStatus s p) st) = Some s).
    { intros s. unfold statusAt. by rewrite (storeProject_lookup _ _ p). }
    unfold buildProject, buildProjectTrace, buildBegin. rewrite Hfind.
    destruct (buildSteps env p) as [[output|e] log]; rewrite storeProject_twice.
    + eexists _, (Return _), _, log. by split_and!.
    + eexists _, (Throw _), _, log. by split_and!.
Qed.

Lemma buildProject_status_witness :
  let p := sampleProject "p1" Running [sampleFile "index.js" "1"] in
  let st := {| projects := [p];
               runningProcesses := {[ str "p1" := {| pid := 3 |} ]};
               nextPort := 3002 |} in
  buildProjectTrace quietEnv (str "zz") st = ([], (Throw notFound, st, []))
  /\ exists building r st' log,
       buildProjectTrace quietEnv (str "p1") st = ([building; st'], (r, st', log))
       /\ statusAt 0 st = Some Running
       /\ statusAt 0 building = Some Building
       /\ statusAt 0 st' = Some Created.
Proof.
  cbv zeta.
  pose proof (buildProject_status quietEnv (str "zz")
                {| projects := [sampleProject "p1" Running [sampleFile "index.js" "1"]];
                   runningProcesses := {[ str "p1" := {| pid := 3 |} ]};
                   nextPort := 3002 |}) as [Hzz _].
  pose proof (buildProject_status quietEnv (str "p1")
                {| projects := [sampleProject "p1" Running [sampleFile "index.js" "1"]];
                   runningProcesses := {[ str "p1" := {| pid := 3 |} ]};
                   nextPort := 3002 |}) as [_ Hp1].
  split; [exact (Hzz eq_refl)|].
  destruct (Hp1 0%nat _ eq_refl)
    as (building & r & st' & log & Htrace & Hbuild & Hb & Hsb & Hst & Hs).
  exists building, r, st', log. split; [exact Htrace|].
  split; [reflexivity|]. split; [exact Hsb|].
  rewrite Hs. assert (Hr : r = (buildProject quietEnv (str "p1")
     {| projects := [sampleProject "p1" Running [sampleFile "index.js" "1"]];
        runningProcesses := {[ str "p1" := {| pid := 3 |} ]};
        nextPort := 3002 |}).1.1) by (by rewrite Hbuild).
  rewrite Hr. reflexivity.
Defined.

(** Both outcomes occur: with a package.json and a working installer the
    build resolves; when [stat] rejects with undefined, reading the message
    in the inner handler fails and the build rejects. *)
Lemma buildProject_both_outcomes :
  let st := {| projects := [sampleProject "p1" Created []];
               runningProcesses := ∅; nextPort := 3001 |} in
  let broken := {| isWindows := false; randomId := []; isoNow := [];
                   mkdir := fun _ => None; writeTextFile := fun _ _ => None;
                   stat := fun _ => Some Nullish;
                   commandOutput := commandOutput quietEnv;
                   spawn := spawn quietEnv; kill := kill quietEnv |} in
  (exists output st' log,
     buildProject quietEnv (str "p1") st = (Return output, st', log)
     /\ project_status <$> projects st' !! 0%nat = Some Created)
  /\ (exists e st' log,
        buildProject broken (str "p1") st = (Throw e, st', log)
        /\ project_status <$> projects st' !! 0%nat = Some Error).
Proof.
  cbv zeta. split; do 3 eexists; split; reflexivity.
Qed.

(** An installer that fails does not make the build fail. *)
Lemma buildProject_failed_install (env : Env) (p : Project) (o : CommandOutput) :
  project_language p = str "javascript" ->
  stat env (fullPathOf (project_path p) (str "package.json")) = None ->
  commandOutput env {| cmd := shell env; args := shellArgs env (str "npm install");
                       cwd := project_path p; env_PORT := None |} = Return o ->
  success o = false ->
  exists output, (buildSteps env p).1 = Return output.
Proof.
  intros Hlang Hstat Hout Hfail. unfold buildSteps. rewrite Hlang.
  cbn [jsstring_eqb orb]. rewrite jsstring_eqb_refl. cbn [orb].
  rewrite Hstat, Hout. eexists. reflexivity.
Qed.

(** ** updateFileContent *)

Lemma findIndexFrom_Some (k : nat) (path : list N) (fs : list ProjectFile) (i : nat) :
  findIndexFrom k path fs = Some i ->
  exists j f, i = (k + j)%nat /\ fs !! j = Some f /\ file_path f = path
              /\ forall j' f', (j' < j)%nat -> fs !! j' = Some f' -> file_path f' <> path.
Proof.
  revert k. induction fs as [|g fs IH]; intros k; cbn [findIndexFrom]; [discriminate|].
  destruct (jsstring_eqb (file_path g) path) eqn:Hg.
  - intros [= <-]. exists 0%nat, g. apply jsstring_eqb_eq in Hg.
    split_and!; [lia|done|done|]. intros j' f' Hlt. lia.
  - intros (j & f & -> & Hj & Hf & Hfirst)%IH. exists (S j), f.
    split_and!; [lia|done|done|].
    intros [|j'] f' Hlt; cbn.
    + intros [= <-]. by apply jsstring_eqb_neq.
    + apply Hfirst. lia.
Qed.

Lemma findIndexFrom_None (k : nat) (path : list N) (fs : list ProjectFile) :
  findIndexFrom k path fs = None <-> ~ In path (map file_path fs).
Proof.
  revert k. induction fs as [|g fs IH]; intros k; cbn [findIndexFrom map In].
  - tauto.
  - destruct (jsstring_eqb (file_path g) path) eqn:Hg.
    + apply jsstring_eqb_eq in Hg. split; [discriminate|tauto].
    + apply jsstring_eqb_neq in Hg. rewrite IH. tauto.
Qed.

Lemma findFileIndex_Some (path : list N) (fs : list ProjectFile) (i : nat) :
  findFileIndex path fs = Some i ->
  exists f, fs !! i = Some f /\ file_path f = path
            /\ forall j' f', (j' < i)%nat -> fs !! j' = Some f' -> file_path f' <> path.
Proof.
  intros (j & f & -> & H)%findIndexFrom_Some. by exists f.
Qed.

Lemma withFiles_same (p : Project) : withFiles (project_files p) p = p.
Proof. by destruct p. Qed.

(** C9.  [updateFileContent] rejects with Project not found, and changes
    nothing, when no project has the id.  Otherwise its one request is to
    write the content to the project path, a slash and the given path.  When
    that write succeeds it resolves, and in memory nothing changes but the
    content of the first tracked file with that path: the list keeps its
    length and every other entry, the entry keeps its name, path and
    language, the project keeps every other field, and the other projects,
    the processes and the port counter are untouched.  When no tracked file
    has the path, the state is exactly what it was.  When the write fails,
    the failure is passed on and the state is what it was. *)
Theorem updateFileContent_frame (env : Env) (projectId filePath content : list N)
    (st : State) :
  (findProject projectId st = None ->
     updateFileContent env projectId filePath content st = (Throw notFound, st, []))
  /\ (forall i p, findProject projectId st = Some (i, p) ->
        let target := project_path p ++ [c_slash] ++ filePath in
        exists r st',
          updateFileContent env projectId filePath content st
          = (r, st', [EWriteTextFile target content])
          /\ (forall e, writeTextFile env target content = Some e ->
                r = Throw e /\ st' = st)
          /\ (writeTextFile env target content = None ->
                r = Return tt
                /\ runningProcesses st' = runningProcesses st
                /\ nextPort st' = nextPort st
                /\ length (projects st') = length (projects st)
                /\ (forall j, j <> i -> projects st' !! j = projects st !! j)
                /\ exists p',
                     projects st' !! i = Some p' /\ sameExceptFiles p p'
                     /\ length (project_files p') = length (project_files p)
                     /\ match findFileIndex filePath (project_files p) with
                        | None => project_files p' = project_files p /\ st' = st
                        | Some k =>
                            (forall j, j <> k ->
                               project_files p' !! j = project_files p !! j)
                            /\ exists f f',
                                 project_files p !! k = Some f
                                 /\ project_files p' !! k = Some f'
                                 /\ file_path f = filePath
                                 /\ file_content f' = content
                                 /\ sameExceptContent f f'
                        end)).
Proof.
  split.
  - intros H. unfold updateFileContent. by rewrite H.
  - intros i p Hfind target. destruct (findProject_Some _ _ _ _ Hfind) as [Hi Hid].
    unfold updateFileContent. rewrite Hfind. fold (fullPathOf (project_path p) filePath).
    change (fullPathOf (project_path p) filePath) with target.
    destruct (writeTextFile env target content) as [e|] eqn:Hw.
    + exists (Throw e), st. split; [done|]. split; [|done].
      by intros e' [= <-].
    + eexists (Return tt), _. split; [reflexivity|]. split; [done|]. intros _.
      split_and!; try done.
      * cbn. by rewrite length_insert.
      * intros j Hj. cbn. by apply list_lookup_insert_ne.
      * eexists. split; [by apply storeProject_lookup with (p := p)|].
        split; [by repeat split|].
        destruct (findFileIndex filePath (project_files p)) as [k|] eqn:Hk.
        -- cbn [project_files withFiles]. split; [by rewrite length_alter|].
           apply findFileIndex_Some in Hk as (f & Hf & Hpath & _).
           split; [intros j Hj; by apply list_lookup_alter_ne|].
           exists f, (withContent content f).
           split_and!; try done.
           rewrite list_lookup_alter_eq, Hf. done.
        -- cbn [project_files withFiles]. split; [done|]. split; [done|].
           rewrite withFiles_same. by apply storeProject_same.
Qed.

Lemma updateFileContent_frame_witness :
  let p := sampleProject "p1" Created [sampleFile "index.js" "1"; sampleFile "b.js" "2"] in
  let st := {| projects := [p]; runningProcesses := ∅; nextPort := 3001 |} in
  exists st',
    updateFileContent quietEnv (str "p1") (str "b.js") (str "new") st
    = (Return tt, st', [EWriteTextFile (str "./projects/p1/b.js") (str "new")])
    /\ projects st'
       = [sampleProject "p1" Created [sampleFile "index.js" "1"; sampleFile "b.js" "new"]].
Proof.
  cbv zeta.
  destruct (proj2 (updateFileContent_frame quietEnv (str "p1") (str "b.js") (str "new")
                     {| projects := [sampleProject "p1" Created
                                       [sampleFile "index.js" "1"; sampleFile "b.js" "2"]];
                        runningProcesses := ∅; nextPort := 3001 |})
              0%nat _ eq_refl)
    as (r & st' & Hrun & _ & Hok).
  destruct (Hok eq_refl) as (-> & _).
  exists st'. split; [exact Hrun|].
  injection Hrun as <-. reflexivity.
Defined.

(** A path that is not tracked is written to disk and not added in memory. *)
Lemma updateFileContent_untracked :
  let p := sampleProject "p1" Created [sampleFile "index.js" "1"] in
  let st := {| projects := [p]; runningProcesses := ∅; nextPort := 3001 |} in
  updateFileContent quietEnv (str "p1") (str "new.js") (str "x") st
  = (Return tt, st, [EWriteTextFile (str "./projects/p1/new.js") (str "x")]).
Proof. reflexivity. Qed.

(** ** createOrUpdateProject *)

Lemma upsertFile_existing (fs : list ProjectFile) (f : ProjectFile) (i : nat) :
  findFileIndex (file_path f) fs = Some i ->
  upsertFile fs f = <[i := f]> fs
  /\ map file_path (upsertFile fs f) = map file_path fs
  /\ (forall j, j <> i -> upsertFile fs f !! j = fs !! j).
Proof.
  intros Hi. unfold upsertFile. rewrite Hi.
  apply findFileIndex_Some in Hi as (g & Hg & Hpath & _).
  split_and!; [done| |intros j Hj; by apply list_lookup_insert_ne].
  change (map file_path) with (fmap (M := list) file_path).
  rewrite list_fmap_insert, <- Hpath. apply list_insert_id.
  by rewrite list_lookup_fmap, Hg.
Qed.

Lemma upsertFile_new (fs : list ProjectFile) (f : ProjectFile) :
  ~ In (file_path f) (map file_path fs) -> upsertFile fs f = fs ++ [f].
Proof.
  intros Hnew. unfold upsertFile, findFileIndex.
  by rewrite (proj2 (findIndexFrom_None 0 _ _) Hnew).
Qed.

Lemma upsertFile_NoDup (fs : list ProjectFile) (f : ProjectFile) :
  NoDup (map file_path fs) -> NoDup (map file_path (upsertFile fs f)).
Proof.
  intros Hnd. destruct (findFileIndex (file_path f) fs) as [i|] eqn:Hi.
  - destruct (upsertFile_existing _ _ _ Hi) as (_ & -> & _). exact Hnd.
  - apply findIndexFrom_None in Hi. rewrite (upsertFile_new _ _ Hi).
    rewrite map_app. cbn [map]. apply NoDup_app. split_and!; [done| |].
    + intros x Hx [<-|[]]%list_elem_of_In. by apply Hi, list_elem_of_In.
    + apply NoDup_singleton.
Qed.

(** The update branch keeps a list without repeated paths free of them. *)
Lemma upsertFiles_NoDup (fs news : list ProjectFile) :
  NoDup (map file_path fs) -> NoDup (map file_path (upsertFiles fs news)).
Proof.
  unfold upsertFiles. revert fs. induction news as [|f news IH]; intros fs Hnd; [done|].
  cbn [fold_left]. apply IH. by apply upsertFile_NoDup.
Qed.

(** C5, at a failing input.  A response with two blocks for a.js is parsed
    into two files, and the project created from them lists a.js twice: the
    creation branch stores the parsed list as it is, where the update branch
    would have replaced the first entry by the second. *)
Theorem createOrUpdateProject_repeated_path :
  let response := str "```js:a.js" ++ [10] ++ str "one" ++ [10] ++ str "```"
                    ++ str "```js:a.js" ++ [10] ++ str "two" ++ [10] ++ str "```" in
  let fs := parseFilesFromResponse response in
  exists p st' log,
    createOrUpdateProject quietEnv fs (str "counter app") None initialState
    = (Return p, st', log)
    /\ projects st' = [p]
    /\ map file_path (project_files p) = [str "a.js"; str "a.js"]
    /\ map file_content (project_files p) = [str "one"; str "two"]
    /\ ~ NoDup (map file_path (project_files p)).
Proof.
  cbv zeta. do 3 eexists. split; [vm_compute; reflexivity|].
  split_and!; try reflexivity.
  cbn. intros H. apply NoDup_cons_1_1 in H. apply H. apply list_elem_of_here.
Qed.

(** What the update branch does with the same two files. *)
Lemma upsertFiles_repeated_path :
  map file_content
    (upsertFiles [] [sampleFile "a.js" "one"; sampleFile "a.js" "two"])
  = [str "two"].
Proof. reflexivity. Qed.

(** ** Ports *)

Section OneRequest.

(** The outside world one request meets. *)
Variable env : Env.

Lemma assignedPorts_app (l k : list Effect) :
  assignedPorts (l ++ k) = assignedPorts l ++ assignedPorts k.
Proof. apply omap_app. Qed.

Lemma writeFileToDisk_ports (root : list N) (f : ProjectFile) :
  assignedPorts (writeFileToDisk env root f) = [].
Proof.
  unfold writeFileToDisk. destruct (mkdir env _); [done|].
  by destruct (writeTextFile env _ _).
Qed.

Lemma writeFiles_ports (root : list N) (fs : list ProjectFile) :
  assignedPorts (flat_map (writeFileToDisk env root) fs) = [].
Proof.
  induction fs as [|f fs IH]; [done|]. cbn [flat_map].
  by rewrite assignedPorts_app, writeFileToDisk_ports, IH.
Qed.

Lemma createOrUpdateProject_ports (fs : list ProjectFile)
    (prompt : list N) (existing : option (nat * Project)) (st : State) :
  nextPort (createOrUpdateProject env fs prompt existing st).1.2 = nextPort st
  /\ assignedPorts (createOrUpdateProject env fs prompt existing st).2 = [].
Proof.
  unfold createOrUpdateProject. destruct existing as [[i p]|].
  - cbn. split; [done|]. apply writeFiles_ports.
  - destruct (mkdir env _); cbn; [done|]. split; [done|].
    apply (writeFiles_ports (str "./projects/" ++ randomId env)).
Qed.

Lemma stopProject_ports (projectId : list N) (st : State) :
  nextPort (stopProject env projectId st).1.2 = nextPort st
  /\ assignedPorts (stopProject env projectId st).2 = []
  /\ length (projects (stopProject env projectId st).1.2) = length (projects st).
Proof.
  destruct (findProject projectId st) as [[i p]|] eqn:Hfind.
  - rewrite (stopProject_state env _ _ _ _ Hfind). cbn [fst snd].
    destruct (signalProcess_frame env projectId st) as (Hps & Hn & Hl).
    split_and!; [done|done|]. cbn. by rewrite length_insert, Hps.
  - unfold stopProject. by rewrite Hfind.
Qed.

Lemma buildProject_ports (projectId : list N) (st : State) :
  nextPort (buildProject env projectId st).1.2 = nextPort st
  /\ assignedPorts (buildProject env projectId st).2 = [].
Proof.
  unfold buildProject, buildProjectTrace. destruct (findProject projectId st) as [[i p]|]; [|done].
  assert (Hlog : assignedPorts (buildSteps env p).2 = []).
  { unfold buildSteps.
    repeat match goal with
           | |- context [if ?b then _ else _] => destruct b
           | |- context [match stat env ?x with _ => _ end] => destruct (stat env x)
           | |- context [match commandOutput env ?x with _ => _ end] =>
               destruct (commandOutput env x)
           | |- context [match messageOf ?e with _ => _ end] => destruct (messageOf e)
           end; reflexivity. }
  destruct (buildSteps env p) as [[output|e] log]; cbn in *; done.
Qed.

Lemma updateFileContent_ports (projectId filePath content : list N)
    (st : State) :
  nextPort (updateFileContent env projectId filePath content st).1.2 = nextPort st
  /\ assignedPorts (updateFileContent env projectId filePath content st).2 = [].
Proof.
  unfold updateFileContent. destruct (findProject projectId st) as [[i p]|]; [|done].
  by destruct (writeTextFile env _ _).
Qed.

Lemma runCommand_ports (p : Project) :
  assignedPorts (runCommand env p).2 = [].
Proof.
  unfold runCommand.
  repeat match goal with
         | |- context [if ?b then _ else _] => destruct b
         | |- context [match stat env ?x with _ => _ end] => destruct (stat env x)
         end; reflexivity.
Qed.

(** One start: a project that is in the list gets the current value of the
    counter, whether or not the process can be spawned, and the counter
    moves on by one; an unknown id gets no port and moves nothing. *)
Lemma runProject_port (projectId : list N) (st : State) :
  match findProject projectId st with
  | None => runProject env projectId st = (Throw notFound, st, [])
  | Some (i, p) =>
      exists r st' log,
        runProject env projectId st = (r, st', log)
        /\ assignedPorts log = [nextPort st]
        /\ nextPort st' = nextPort st + 1
        /\ project_port <$> projects st' !! i = Some (Some (nextPort st))
        /\ match r with
           | Return res => run_port res = nextPort st
           | Throw _ => project_status <$> projects st' !! i = Some Error
           end
  end.
Proof.
  destruct (findProject projectId st) as [[i p]|] eqn:Hfind;
    [|unfold runProject; by rewrite Hfind].
  destruct (findProject_Some _ _ _ _ Hfind) as [Hi Hid].
  unfold runProject. rewrite Hfind.
  set (stopped := match runningProcesses st !! projectId with
                  | Some _ => _
                  | None => _
                  end).
  assert (Hstop : nextPort stopped.1 = nextPort st /\ assignedPorts stopped.2 = []
                  /\ length (projects stopped.1) = length (projects st)).
  { subst stopped. destruct (runningProcesses st !! projectId); [|done].
    pose proof (stopProject_ports projectId st) as (Hn & Hl & Hlen).
    by destruct (stopProject env projectId st) as [[r st1] log1]. }
  destruct stopped as [st1 log1]. cbn [fst snd] in Hstop.
  destruct Hstop as (Hn & Hl & Hlen).
  pose proof (runCommand_ports p) as Hcmd.
  destruct (runCommand env p) as [[command arguments] log2]. cbn [snd] in Hcmd.
  assert (Hlt : (i < length (projects st1))%nat).
  { rewrite Hlen. by eapply lookup_lt_Some. }
  destruct (spawn env _) as [process|e]; do 3 eexists; (split; [reflexivity|]);
    rewrite !assignedPorts_app, Hl, Hcmd; cbn; rewrite Hn;
    (split; [done|]); (split; [done|]).
  - rewrite list_insert_insert_eq, list_lookup_insert_eq by done. done.
  - rewrite list_insert_insert_eq, list_lookup_insert_eq by done. done.
Qed.

End OneRequest.

Lemma handle_ports (env : Env) (req : Request) (st : State) :
  (assignedPorts (handle env req st).2 = []
   /\ nextPort (handle env req st).1 = nextPort st)
  \/ (assignedPorts (handle env req st).2 = [nextPort st]
      /\ nextPort (handle env req st).1 = nextPort st + 1).
Proof.
  destruct req as [fs message pid|pid|pid|pid|pid filePath content|pid];
    cbn [handle].
  - left. unfold chatMaterialize. destruct fs as [|f fs]; [done|].
    match goal with
    | |- context [createOrUpdateProject ?e ?l ?m ?c ?s] =>
        pose proof (createOrUpdateProject_ports e l m c s) as [Hn Hl];
        destruct (createOrUpdateProject e l m c s) as [[r st'] log]
    end. done.
  - left. pose proof (buildProject_ports env pid st) as [Hn Hl].
    by destruct (buildProject env pid st) as [[r st'] log].
  - pose proof (runProject_port env pid st) as Hrun.
    destruct (findProject pid st) as [[i p]|].
    + right. destruct Hrun as (r & st' & log & -> & Hl & Hn & _). done.
    + left. by rewrite Hrun.
  - left. pose proof (stopProject_ports env pid st) as (Hn & Hl & _).
    by destruct (stopProject env pid st) as [[r st'] log].
  - left. pose proof (updateFileContent_ports env pid filePath content st) as [Hn Hl].
    by destruct (updateFileContent env pid filePath content st) as [[r st'] log].
  - left. by rewrite deleteProject_never_stops.
Qed.

Lemma serve_ports (reqs : list (Env * Request)) (st : State) :
  StronglySorted N.lt (assignedPorts (serve reqs st).2)
  /\ Forall (fun port => nextPort st <= port < nextPort (serve reqs st).1)
       (assignedPorts (serve reqs st).2)
  /\ nextPort st <= nextPort (serve reqs st).1.
Proof.
  revert st. induction reqs as [|[env req] reqs IH]; intros st.
  - cbn. split_and!; [constructor|constructor|lia].
  - cbn [serve]. pose proof (handle_ports env req st) as Hstep.
    destruct (handle env req st) as [st1 log1]. cbn [fst snd] in Hstep.
    specialize (IH st1). destruct (serve reqs st1) as [st2 log2].
    cbn [fst snd] in *. destruct IH as (Hsorted & Hall & Hle).
    rewrite assignedPorts_app.
    destruct Hstep as [[-> Hn]|[-> Hn]]; rewrite Hn in *; cbn [app].
    + done.
    + split_and!; [|constructor|lia].
      * constructor; [done|]. eapply Forall_impl; [exact Hall|].
        cbn. intros port Hport. lia.
      * lia.
      * eapply Forall_impl; [exact Hall|]. cbn. intros port Hport. lia.
Qed.

Lemma StronglySorted_lt_NoDup (l : list N) : StronglySorted N.lt l -> NoDup l.
Proof.
  induction 1 as [|x l Hs IH Hall]; constructor; [|done].
  intros Hin. rewrite Forall_forall in Hall. specialize (Hall x Hin). lia.
Qed.

(** C8.  Over any sequence of requests, from any state, the ports handed
    out are strictly increasing in the order of the starts, so none occurs
    twice, and none is below the counter the sequence started from.  A start
    that follows the sequence, for a project then in the list, takes a port
    above all of them whether or not the process can be spawned; this holds
    whatever was deleted or created in between. *)
Theorem ports_strictly_increasing (reqs : list (Env * Request)) (st : State) :
  let ports := assignedPorts (serve reqs st).2 in
  let st' := (serve reqs st).1 in
  StronglySorted N.lt ports
  /\ NoDup ports
  /\ Forall (fun port => nextPort st <= port) ports
  /\ forall env projectId i p,
       findProject projectId st' = Some (i, p) ->
       exists r st'' log port,
         runProject env projectId st' = (r, st'', log)
         /\ assignedPorts log = [port]
         /\ project_port <$> projects st'' !! i = Some (Some port)
         /\ Forall (fun earlier => earlier < port) ports.
Proof.
  cbv zeta. destruct (serve_ports reqs st) as (Hsorted & Hall & Hle).
  split_and!; [done|by apply StronglySorted_lt_NoDup| |].
  - eapply Forall_impl; [exact Hall|]. cbn. intros port Hport. lia.
  - intros env projectId i p Hfind.
    pose proof (runProject_port env projectId (serve reqs st).1) as Hrun.
    rewrite Hfind in Hrun. destruct Hrun as (r & st'' & log & Hrun & Hl & Hn & Hp & _).
    exists r, st'', log, (nextPort (serve reqs st).1).
    split_and!; try done.
    eapply Forall_impl; [exact Hall|]. cbn. intros port Hport. lia.
Qed.

(** A project is created and started, then deleted; a new project is
    created and started: the two starts get 3001 and 3002. *)
Lemma ports_after_delete :
  let freshId (id : String.string) :=
    {| isWindows := false; randomId := str id; isoNow := [];
       mkdir := fun _ => None; writeTextFile := fun _ _ => None;
       stat := fun _ => None; commandOutput := commandOutput quietEnv;
       spawn := spawn quietEnv; kill := kill quietEnv |} in
  let fs := [sampleFile "index.js" "1"] in
  assignedPorts
    (serve [(freshId "first"%string, Chat fs (str "counter app") None);
            (quietEnv, Run (str "first"));
            (quietEnv, Delete (str "first"));
            (freshId "second"%string, Chat fs (str "todo list") None);
            (quietEnv, Run (str "second"))] initialState).2
  = [3001; 3002].
Proof. vm_compute. reflexivity. Qed.

Lemma ports_strictly_increasing_witness :
  let reqs := [(quietEnv, Chat [sampleFile "index.js" "1"] (str "counter app") None);
               (quietEnv, Run (randomId quietEnv))] in
  exists r st'' log port,
    runProject quietEnv (randomId quietEnv) (serve reqs initialState).1 = (r, st'', log)
    /\ assignedPorts log = [port]
    /\ project_port <$> projects st'' !! 0%nat = Some (Some port)
    /\ Forall (fun earlier => earlier < port) (assignedPorts (serve reqs initialState).2).
Proof.
  cbv zeta.
  refine (proj2 (proj2 (proj2 (ports_strictly_increasing _ initialState)))
            quietEnv (randomId quietEnv) 0%nat _ _).
  vm_compute. reflexivity.
Defined.

(** ** Write targets *)

Lemma writesOf_writeFileToDisk (env : Env) (root : list N) (f : ProjectFile) :
  writesOf (writeFileToDisk env root f)
  = if directoryMade env root f
    then [(root ++ [c_slash] ++ file_path f, file_content f)]
    else [].
Proof.
  unfold writeFileToDisk, directoryMade, fullPathOf.
  destruct (mkdir env _); [done|]. by destruct (writeTextFile env _ _).
Qed.

Lemma writesOf_writeFiles (env : Env) (root : list N) (fs : list ProjectFile) :
  writesOf (flat_map (writeFileToDisk env root) fs)
  = map (fun f => (root ++ [c_slash] ++ file_path f, file_content f))
      (List.filter (directoryMade env root) fs).
Proof.
  induction fs as [|f fs IH]; [done|]. cbn [flat_map List.filter].
  unfold writesOf in *. rewrite omap_app. fold (writesOf (writeFileToDisk env root f)).
  rewrite writesOf_writeFileToDisk, IH.
  by destruct (directoryMade env root f).
Qed.

Lemma splitOn_segment (sep : N) (a b : list N) :
  forallb (fun c => negb (c =? sep)) a = true ->
  splitOn sep (a ++ sep :: b) = a :: splitOn sep b.
Proof.
  induction a as [|c a IH]; cbn [forallb app splitOn].
  - by rewrite N.eqb_refl.
  - intros [Hc Ha]%andb_prop. apply negb_true_iff in Hc. by rewrite Hc, (IH Ha).
Qed.

Lemma isIdString_no_slash (id : list N) :
  isIdString id = true -> forallb (fun c => negb (c =? c_slash)) id = true.
Proof.
  unfold isIdString. rewrite !forallb_forall. intros H c Hc.
  specialize (H c Hc). char_cases.
Qed.

Lemma resolve_escape (id : list N) :
  isIdString id = true ->
  isInside projectsRoot (fullPathOf (str "./projects/" ++ id) (str "../../x")) = false.
Proof.
  intros Hid. unfold isInside, resolve, fullPathOf.
  change (resolve projectsRoot) with (0%nat, [str "projects"]).
  replace (splitOn c_slash ((str "./projects/" ++ id) ++ [c_slash] ++ str "../../x"))
    with ([str "."; str "projects"; id; str ".."; str ".."; str "x"]).
  2:{ change ((str "./projects/" ++ id) ++ [c_slash] ++ str "../../x")
        with (str "." ++ c_slash :: (str "projects" ++ c_slash
                :: (id ++ c_slash :: str "../../x"))).
      rewrite (splitOn_segment c_slash (str ".")) by reflexivity.
      rewrite (splitOn_segment c_slash (str "projects")) by reflexivity.
      rewrite (splitOn_segment c_slash id) by (by apply isIdString_no_slash).
      reflexivity. }
  destruct id as [|c id]; [reflexivity|].
  change (fold_left resolveStep
            [str "."; str "projects"; c :: id; str ".."; str ".."; str "x"]
            (0%nat, []))
    with (fold_left resolveStep [str ".."; str ".."; str "x"]
            (resolveStep (0%nat, [str "projects"]) (c :: id))).
  assert (Hseg : isDotSegment (c :: id) = false /\ isDotDotSegment (c :: id) = false).
  { cbn [isIdString forallb] in Hid. apply andb_prop in Hid as [Hc _].
    assert ((c =? 46) = false) as Hdot by char_cases.
    cbn [isDotSegment isDotDotSegment]. destruct id as [|d [|e id]]; rewrite ?Hdot; done. }
  destruct Hseg as [H1 H2].
  assert (Hstep : resolveStep (0%nat, [str "projects"]) (c :: id)
                  = (0%nat, [c :: id; str "projects"])).
  { unfold resolveStep. by rewrite H1, H2. }
  rewrite Hstep. reflexivity.
Qed.

(** C2.  Nothing checks where a file path leads.  Both branches of
    [createOrUpdateProject] ask to write each file whose directory could be
    made at the project path, a slash and the path of the file, exactly as
    these strings are; [updateFileContent] asks to write at the project
    path, a slash and the path it is given.  So a path that begins with
    dot-dot-slash can lead out of the projects directory: for every id that
    [generateId] can produce, the target of ../../x in the project with that
    id lies outside ./projects. *)
Theorem write_targets_unchecked :
  (forall env fs prompt i p st,
     writesOf (createOrUpdateProject env fs prompt (Some (i, p)) st).2
     = map (fun f => (project_path p ++ [c_slash] ++ file_path f, file_content f))
         (List.filter (directoryMade env (project_path p)) fs))
  /\ (forall env fs prompt st,
        mkdir env (str "./projects/" ++ randomId env) = None ->
        writesOf (createOrUpdateProject env fs prompt None st).2
        = map (fun f => ((str "./projects/" ++ randomId env) ++ [c_slash] ++ file_path f,
                         file_content f))
            (List.filter (directoryMade env (str "./projects/" ++ randomId env)) fs))
  /\ (forall env projectId filePath content st i p,
        findProject projectId st = Some (i, p) ->
        writesOf (updateFileContent env projectId filePath content st).2
        = [(project_path p ++ [c_slash] ++ filePath, content)])
  /\ exists relative,
       stripPrefix (str "../") relative <> None
       /\ forall id, isIdString id = true ->
            isInside projectsRoot ((str "./projects/" ++ id) ++ [c_slash] ++ relative)
            = false.
Proof.
  split_and!.
  - intros env fs prompt i p st. cbn [createOrUpdateProject snd].
    apply writesOf_writeFiles.
  - intros env fs prompt st Hmk. unfold createOrUpdateProject. rewrite Hmk.
    cbn [snd]. apply (writesOf_writeFiles env (str "./projects/" ++ randomId env)).
  - intros env projectId filePath content st i p Hfind.
    unfold updateFileContent. rewrite Hfind.
    by destruct (writeTextFile env _ _).
  - exists (str "../../x"). split; [discriminate|].
    intros id Hid. by apply resolve_escape.
Qed.

Lemma write_targets_unchecked_witness :
  let fs := [sampleFile "../../x" "escaped"] in
  writesOf (createOrUpdateProject quietEnv fs (str "counter app") None initialState).2
  = [(str "./projects/k3x9q0a1z/../../x", str "escaped")]
  /\ writesOf (updateFileContent quietEnv (str "p1") (str "../../x") (str "escaped")
                 {| projects := [sampleProject "p1" Created []];
                    runningProcesses := ∅; nextPort := 3001 |}).2
     = [(str "./projects/p1/../../x", str "escaped")]
  /\ exists relative,
       stripPrefix (str "../") relative <> None
       /\ isInside projectsRoot
            ((str "./projects/" ++ randomId quietEnv) ++ [c_slash] ++ relative)
          = false.
Proof.
  cbv zeta.
  destruct write_targets_unchecked as (_ & Hcreate & Hupdate & relative & Hup & Hout).
  split_and!.
  - rewrite Hcreate; reflexivity.
  - rewrite (Hupdate quietEnv (str "p1") (str "../../x") (str "escaped") _ 0%nat
               (sampleProject "p1" Created [])); reflexivity.
  - exists relative. split; [exact Hup|]. apply Hout. reflexivity.
Defined.

(** * Further properties *)

(** ** The explanation text *)

Lemma lazyStar_skip (s acc : list N) :
  lazyStar isAny acc (fun _ => lit fence (fun rest => Some rest)) s
  = snd <$> splitFence s.
Proof.
  revert acc. induction s as [|c s IH]; intros acc.
  - reflexivity.
  - cbn [lazyStar splitFence]. unfold lit at 1.
    destruct (stripPrefix fence (c :: s)) as [r|] eqn:Hp; [done|].
    cbn [isAny]. rewrite IH. by destruct (splitFence s) as [[b rest]|].
Qed.

Lemma blockPattern_eq (s : list N) :
  blockPattern s = match stripPrefix fence s with
                   | Some s1 => snd <$> splitFence s1
                   | None => None
                   end.
Proof.
  unfold blockPattern, lit. destruct (stripPrefix fence s); [|done].
  apply lazyStar_skip.
Qed.

Lemma blockPattern_length (s rest : list N) :
  blockPattern s = Some rest -> (length rest < length s)%nat.
Proof.
  rewrite blockPattern_eq. destruct (stripPrefix fence s) as [s1|] eqn:Hp; [|done].
  destruct (splitFence s1) as [[b r]|] eqn:Hf; [|done]. intros [= <-].
  apply stripPrefix_Some in Hp. apply splitFence_Some in Hf. subst.
  unfold fence. repeat (rewrite ?length_app; cbn [length snd]). lia.
Qed.

Lemma removeBlocks_fuel (fuel fuel' : nat) (s : list N) :
  (length s <= fuel)%nat -> (length s <= fuel')%nat ->
  removeBlocks fuel s = removeBlocks fuel' s.
Proof.
  revert fuel' s. induction fuel as [|fuel IH]; intros fuel' s H1 H2.
  - destruct s; [|cbn in H1; lia]. by destruct fuel'.
  - destruct s as [|c s]; [by destruct fuel'|].
    destruct fuel' as [|fuel']; [cbn in H2; lia|]. cbn [removeBlocks].
    destruct (blockPattern (c :: s)) as [rest|] eqn:Hb.
    + apply blockPattern_length in Hb. cbn in *. apply IH; lia.
    + f_equal. cbn in *. apply IH; lia.
Qed.

Lemma removeBlocks_step (c : N) (s : list N) :
  removeBlocks (length (c :: s)) (c :: s)
  = match blockPattern (c :: s) with
    | Some rest => removeBlocks (length rest) rest
    | None => c :: removeBlocks (length s) s
    end.
Proof.
  cbn [length removeBlocks]. destruct (blockPattern (c :: s)) as [rest|] eqn:Hb; [|done].
  apply blockPattern_length in Hb. cbn in Hb. apply removeBlocks_fuel; lia.
Qed.

Lemma removeBlocks_prose (t r : list N) :
  fenceFree t = true ->
  removeBlocks (length (t ++ r)) (t ++ r) = t ++ removeBlocks (length r) r.
Proof.
  induction t as [|c t IH]; [done|]. intros Hfree.
  change ((c :: t) ++ r) with (c :: (t ++ r)). rewrite removeBlocks_step.
  rewrite blockPattern_eq. change (c :: t ++ r) with ((c :: t) ++ r).
  rewrite (fenceFree_no_fence c t r Hfree). cbn [app]. f_equal.
  apply IH. by apply fenceFree_tail in Hfree.
Qed.

Lemma removeBlocks_block (inner r : list N) :
  fenceFree inner = true ->
  removeBlocks (length (fence ++ inner ++ fence ++ r)) (fence ++ inner ++ fence ++ r)
  = removeBlocks (length r) r.
Proof.
  intros Hfree.
  change (fence ++ inner ++ fence ++ r)
    with (c_backtick :: ([c_backtick; c_backtick] ++ inner ++ fence ++ r)).
  rewrite removeBlocks_step. rewrite blockPattern_eq.
  change (c_backtick :: [c_backtick; c_backtick] ++ inner ++ fence ++ r)
    with (fence ++ inner ++ fence ++ r).
  rewrite stripPrefix_app, (splitFence_body _ _ Hfree). reflexivity.
Qed.

(** X1.  The text shown for a response made of prose and blocks, where no fence
    starts in the prose or between the fences of a block, is the prose
    without the blocks, trimmed: a block is taken out whether or not it gave
    rise to a file. *)
Theorem extractTextResponse_render (segs : list Segment) :
  forallb fenceFreeSegment segs = true ->
  extractTextResponse (render segs) = trim (flat_map proseOf segs).
Proof.
  intros Hfree. unfold extractTextResponse. f_equal.
  induction segs as [|seg segs IH]; [done|].
  cbn [forallb] in Hfree. apply andb_prop in Hfree as [Hseg Hsegs].
  unfold render. cbn [flat_map]. fold (render segs).
  destruct seg as [text|lang colon path body];
    cbn [renderSegment proseOf fenceFreeSegment] in *.
  - rewrite (removeBlocks_prose _ _ Hseg). f_equal. by apply IH.
  - replace ((fence ++ lang ++ colonText colon ++ path ++ [c_newline] ++ body ++ fence)
               ++ render segs)
      with (fence ++ (lang ++ colonText colon ++ path ++ [c_newline] ++ body)
              ++ fence ++ render segs)
      by (by rewrite <- !app_assoc).
    rewrite (removeBlocks_block _ _ Hseg). cbn [app]. by apply IH.
Qed.

Lemma extractTextResponse_render_witness :
  extractTextResponse
    (render [Prose (str " Here is the server. ");
             Block (str "js") true (str "index.js") (str "let x = 1;");
             Prose (str "Run it with node.");
             Block (str "sh") false [] (str "node index.js");
             Prose [10]])
  = str "Here is the server. Run it with node.".
Proof.
  rewrite extractTextResponse_render; reflexivity.
Defined.

(** ** What every extracted file looks like *)

Lemma stripPrefix_app_Some (p s x t : list N) :
  stripPrefix p s = Some x -> stripPrefix p (s ++ t) = Some (x ++ t).
Proof.
  intros ->%stripPrefix_Some. rewrite <- app_assoc. apply stripPrefix_app.
Qed.

Lemma includes_true (p s : list N) :
  includes p s = true <-> exists u v, s = u ++ p ++ v.
Proof.
  split.
  - induction s as [|c s IH]; cbn [includes].
    + destruct (stripPrefix p []) as [x|] eqn:Hp; [|done]. intros _.
      apply stripPrefix_Some in Hp. by exists [], x.
    + destruct (stripPrefix p (c :: s)) as [x|] eqn:Hp.
      * intros _. apply stripPrefix_Some in Hp. by exists [], x.
      * intros (u & v & ->)%IH. by exists (c :: u), v.
  - intros (u & v & ->). induction u as [|c u IH].
    + cbn [app]. destruct (p ++ v) eqn:Hpv; cbn [includes];
        rewrite <- ?Hpv, stripPrefix_app; done.
    + cbn [app includes]. by destruct (stripPrefix p (c :: u ++ p ++ v)).
Qed.

Lemma includes_middle (p a b c : list N) :
  includes p (a ++ b ++ c) = false -> includes p b = false.
Proof.
  intros Hn. destruct (includes p b) eqn:Hb; [|done].
  apply includes_true in Hb as (u & v & ->).
  assert (includes p (a ++ (u ++ p ++ v) ++ c) = true) as Ht; [|congruence].
  apply includes_true. exists (a ++ u), (v ++ c). by rewrite <- !app_assoc.
Qed.

Lemma splitFence_no_fence (s b r : list N) :
  splitFence s = Some (b, r) -> includes fence b = false.
Proof.
  revert b. induction s as [|c s IH]; intros b.
  - cbn. discriminate.
  - cbn [splitFence]. destruct (stripPrefix fence (c :: s)) as [x|] eqn:Hp.
    + intros [= <- <-]. reflexivity.
    + destruct (splitFence s) as [[b' r']|] eqn:Hs; [|discriminate].
      intros [= <- <-]. cbn [includes].
      destruct (stripPrefix fence (c :: b')) as [y|] eqn:Hy.
      * apply splitFence_Some in Hs. subst s.
        apply (stripPrefix_app_Some _ _ _ (fence ++ r')) in Hy.
        cbn [app] in Hy. congruence.
      * by apply (IH b').
Qed.

Lemma splitLine_dots (s h r : list N) :
  splitLine s = Some (h, r) -> forallb isDot h = true.
Proof.
  revert h. induction s as [|c s IH]; intros h; cbn [splitLine]; [discriminate|].
  destruct (c =? c_newline); [by intros [= <- <-]|].
  destruct (isDot c) eqn:Hc; [|discriminate].
  destruct (splitLine s) as [[h' r']|]; [|discriminate].
  intros [= <- <-]. cbn [forallb]. rewrite Hc. by apply IH.
Qed.

Lemma spanWord_nonempty (s : list N) :
  forallb isWord (spanWord s).1 = true.
Proof. apply spanWord_app. Qed.

(** What a match of the pattern holds, wherever it was found. *)
Lemma exec_groups (s : list N) (m : RegExpMatch) :
  exec s = Some m ->
  forallb isDot (group2 m) = true
  /\ includes fence (group3 m) = false
  /\ match group1 m with
     | Some w => w <> [] /\ forallb isWord w = true
     | None => True
     end.
Proof.
  intros (skipped & rest & _ & Hm & _)%exec_first.
  unfold fenceAt in Hm. destruct (stripPrefix fence rest) as [s1|]; [|discriminate].
  pose proof (spanWord_nonempty s1) as Hw. destruct (spanWord s1) as [w s2].
  unfold lineAndBody in Hm.
  destruct (splitLine (skipColon s2)) as [[h r]|] eqn:Hl; [|discriminate].
  destruct (splitFence r) as [[b rest']|] eqn:Hf; [|discriminate].
  injection Hm as <-. cbn [mkMatch group1 group2 group3 fst] in *.
  split_and!.
  - by apply splitLine_dots in Hl.
  - by apply splitFence_no_fence in Hf.
  - by destruct w.
Qed.

Lemma trim_forallb (P : N -> bool) (s : list N) :
  forallb P s = true -> forallb P (trim s) = true.
Proof.
  destruct (trim_spec s) as (pre & post & Hs & _). intros H. rewrite Hs in H.
  rewrite !forallb_app in H. by destruct (forallb P pre), (forallb P (trim s)).
Qed.

Lemma splitOn_no_sep (sep : N) (s : list N) :
  Forall (fun seg => forallb (fun c => negb (c =? sep)) seg = true) (splitOn sep s).
Proof.
  induction s as [|c s IH]; cbn [splitOn]; [by repeat constructor|].
  destruct (c =? sep) eqn:Hc; [by constructor|].
  destruct (splitOn sep s) as [|seg segs]; [by repeat constructor; cbn; rewrite Hc|].
  inversion IH; subst. constructor; [|done]. cbn [forallb]. by rewrite Hc.
Qed.

Lemma lastSegment_no_slash (s : list N) :
  forallb (fun c => negb (c =? c_slash)) (lastSegment s) = true.
Proof.
  unfold lastSegment. pose proof (splitOn_no_sep c_slash s) as Hall.
  induction (splitOn c_slash s) as [|seg segs IH]; [done|].
  inversion Hall; subst. destruct segs; [done|]. by apply IH.
Qed.

(** X2.  Whatever the response, every file extracted has a path that is not
    empty, sits on one line and neither begins nor ends with white space; a
    content that is not empty and holds no three backticks in a row; a name
    that is not empty and is either free of slashes or the whole path; and a
    language that is [normalizeLanguage] of a non-empty run of word
    characters. *)
Theorem parseFilesFromResponse_shape (response : list N) (f : ProjectFile) :
  In f (parseFilesFromResponse response) ->
  file_path f <> []
  /\ forallb isDot (file_path f) = true
  /\ startsWithSpace (file_path f) = false
  /\ endsWithSpace (file_path f) = false
  /\ file_content f <> []
  /\ includes fence (file_content f) = false
  /\ file_name f <> []
  /\ (file_name f = file_path f
      \/ forallb (fun c => negb (c =? c_slash)) (file_name f) = true)
  /\ exists w, w <> [] /\ forallb isWord w = true
               /\ file_language f = normalizeLanguage w.
Proof.
  intros Hin. apply list_elem_of_In in Hin.
  unfold parseFilesFromResponse in Hin. apply list_elem_of_omap in Hin as (m & Hm & Hf).
  assert (Hex : exists s, exec s = Some m).
  { unfold execAll in Hm. revert Hm. generalize (S (length response)).
    intros fuel. revert response. induction fuel as [|fuel IH]; intros s; cbn [matchLoop].
    - by intros ?%elem_of_nil.
    - destruct (exec s) as [m'|] eqn:He; [|by intros ?%elem_of_nil].
      intros [->|Hin]%elem_of_cons; [by exists s|]. by apply (IH (afterMatch m')). }
  destruct Hex as (s & Hs). apply exec_groups in Hs as (Hdots & Hfence & Hword).
  destruct (trim_spec (group2 m)) as (pre2 & post2 & Hs2 & _ & _ & Hstart2 & Hend2).
  destruct (trim_spec (group3 m)) as (pre3 & post3 & Hs3 & _).
  unfold fileOfMatch in Hf.
  destruct (trim (group2 m)) as [|c2 path] eqn:Hpath; [discriminate|].
  destruct (trim (group3 m)) as [|c3 content] eqn:Hcontent; [discriminate|].
  injection Hf as <-. cbn [file_path file_content file_name file_language].
  split_and!; try done.
  - rewrite <- Hpath. by apply trim_forallb.
  - rewrite Hs3 in Hfence. by apply includes_middle in Hfence.
  - by destruct (lastSegment (c2 :: path)).
  - pose proof (lastSegment_no_slash (c2 :: path)) as Hlast.
    destruct (lastSegment (c2 :: path)); [by left|by right].
  - destruct (group1 m) as [w|].
    + destruct Hword as [Hne Hw]. by exists w.
    + by exists (str "text").
Qed.

Lemma parseFilesFromResponse_shape_witness :
  let response := str "```md:docs/README.md" ++ [10] ++ str "# Title" ++ [10]
                    ++ str "```js" ++ [10] ++ str "code" ++ [10] ++ str "```" in
  let f := {| file_name := str "README.md"; file_path := str "docs/README.md";
              file_content := str "# Title";
              file_language := VString (str "markdown") |} in
  In f (parseFilesFromResponse response)
  /\ includes fence (file_content f) = false
  /\ forallb isDot (file_path f) = true.
Proof.
  cbv zeta.
  assert (Hin : In {| file_name := str "README.md"; file_path := str "docs/README.md";
                      file_content := str "# Title";
                      file_language := VString (str "markdown") |}
                  (parseFilesFromResponse
                     (str "```md:docs/README.md" ++ [10] ++ str "# Title" ++ [10]
                        ++ str "```js" ++ [10] ++ str "code" ++ [10] ++ str "```"))).
  { vm_compute. left. reflexivity. }
  split; [exact Hin|].
  destruct (parseFilesFromResponse_shape _ _ Hin) as (_ & Hd & _ & _ & _ & Hf & _).
  by split.
Defined.

(** ** The environment file *)

Lemma splitOn_whole (sep : N) (s : list N) :
  noUnit sep s = true -> splitOn sep s = [s].
Proof.
  unfold noUnit. induction s as [|c s IH]; cbn [forallb splitOn]; [done|].
  intros [Hc Hs]%andb_prop. apply negb_true_iff in Hc. by rewrite Hc, (IH Hs).
Qed.

Lemma splitOn_join (sep : N) (l : list N) (ls : list (list N)) :
  forallb (noUnit sep) (l :: ls) = true ->
  splitOn sep (join [sep] (l :: ls)) = l :: ls.
Proof.
  revert l. induction ls as [|l' ls IH]; intros l; cbn [forallb join].
  - intros [Hl _]%andb_prop. by apply splitOn_whole.
  - intros [Hl Hls]%andb_prop. cbn [app].
    rewrite (splitOn_segment sep l) by exact Hl. f_equal. by apply IH.
Qed.

Lemma renderEnvLine_no_newline (l : EnvLine) :
  plainEnvLine l = true -> noUnit c_newline (renderEnvLine l) = true.
Proof.
  unfold plainEnvLine, renderEnvLine, noUnit.
  destruct (env_key l) as [|k key]; [done|]. destruct (env_value l) as [|v value]; [done|].
  intros H. apply andb_prop in H as [H _]. apply andb_prop in H as [H Hrest].
  apply andb_prop in H as [H Hvn]. apply andb_prop in H as [H _].
  apply andb_prop in H as [_ Hkn].
  rewrite !forallb_app, Hkn, Hvn. cbn [forallb andb].
  destruct (env_rest l) as [rest|]; [|done]. rewrite forallb_app, Hrest. done.
Qed.

Lemma parseEnvLine_render (env : gmap (list N) (list N)) (l : EnvLine) :
  plainEnvLine l = true ->
  parseEnvLine env (renderEnvLine l)
  = <[trim (env_key l) := trim (env_value l)]> env.
Proof.
  unfold plainEnvLine, renderEnvLine, parseEnvLine.
  destruct (env_key l) as [|k key] eqn:Hk; [done|].
  destruct (env_value l) as [|v value] eqn:Hv; [done|].
  intros H. apply andb_prop in H as [H Hproto]. apply negb_true_iff in Hproto.
  apply andb_prop in H as [H _]. apply andb_prop in H as [H _].
  apply andb_prop in H as [H Hve]. apply andb_prop in H as [Hke _].
  assert (Hsplit : exists more,
            splitOn 61 ((k :: key) ++ [61] ++ (v :: value)
                          ++ match env_rest l with
                             | Some rest => [61] ++ rest
                             | None => []
                             end)
            = (k :: key) :: (v :: value) :: more).
  { cbn [app]. change (k :: key ++ 61 :: v :: ?x) with ((k :: key) ++ 61 :: v :: x).
    rewrite (splitOn_segment 61 (k :: key)) by exact Hke.
    destruct (env_rest l) as [rest|].
    - exists (splitOn 61 rest). cbn [app].
      change (v :: value ++ 61 :: rest) with ((v :: value) ++ 61 :: rest).
      by rewrite (splitOn_segment 61 (v :: value)) by exact Hve.
    - exists []. rewrite app_nil_r. f_equal. by apply splitOn_whole. }
  destruct Hsplit as (more & ->). unfold setProperty. by rewrite Hproto.
Qed.

(** X3.  Reading an environment file back.  When every line is a key, an equals
    sign and a value (key and value not empty and without equals sign), with
    or without further text after a second equals sign, each line defines
    its trimmed key as its trimmed value and later lines override earlier
    ones: what follows a second equals sign is dropped.  A name that the
    process environment does not define, or defines as empty, is then
    answered from the file when the file gives it a non-empty value. *)
Theorem parseEnv_render (ls : list EnvLine) :
  forallb plainEnvLine ls = true ->
  parseEnv (renderEnv ls)
  = fold_left (fun env l => <[trim (env_key l) := trim (env_value l)]> env) ls ∅
  /\ forall denoEnv name v,
       (denoEnv name = None \/ denoEnv name = Some []) ->
       parseEnv (renderEnv ls) !! name = Some v -> v <> [] ->
       getRequiredEnv denoEnv (loadEnv (Return (renderEnv ls))) name
       = Return (VString v).
Proof.
  intros Hplain. split.
  - unfold parseEnv, renderEnv. destruct ls as [|l ls]; [reflexivity|].
    cbn [map]. rewrite (splitOn_join c_newline).
    2:{ rewrite forallb_forall in *. intros line Hin.
        change (renderEnvLine l :: map renderEnvLine ls)
          with (map renderEnvLine (l :: ls)) in Hin.
        apply in_map_iff in Hin as (l' & <- & Hl').
        by apply renderEnvLine_no_newline, Hplain. }
    change (renderEnvLine l :: map renderEnvLine ls) with (map renderEnvLine (l :: ls)).
    revert Hplain. generalize (l :: ls). generalize (∅ : gmap (list N) (list N)).
    clear. intros env lines. revert env.
    induction lines as [|l lines IH]; intros env Hplain; [done|].
    cbn [forallb] in Hplain. apply andb_prop in Hplain as [Hl Hlines].
    cbn [map fold_left]. rewrite (parseEnvLine_render _ _ Hl). by apply IH.
  - intros denoEnv name v Hdeno Hv Hne. unfold getRequiredEnv, getEnvProperty, loadEnv.
    rewrite Hv. destruct v; [done|]. by destruct Hdeno as [-> | ->].
Qed.

Lemma parseEnv_render_witness :
  let ls := [ {| env_key := str "PORT"; env_value := str "8000"; env_rest := None |};
              {| env_key := str "ANTHROPIC_API_KEY "; env_value := str " sk-abc";
                 env_rest := Some (str "=") |};
              {| env_key := str "PORT"; env_value := str "9000"; env_rest := None |} ] in
  renderEnv ls = str "PORT=8000" ++ [10] ++ str "ANTHROPIC_API_KEY = sk-abc=="
                   ++ [10] ++ str "PORT=9000"
  /\ parseEnv (renderEnv ls) !! str "PORT" = Some (str "9000")
  /\ getRequiredEnv (fun _ => None) (loadEnv (Return (renderEnv ls)))
       (str "ANTHROPIC_API_KEY")
     = Return (VString (str "sk-abc")).
Proof.
  cbv zeta. split; [reflexivity|].
  match goal with
  | |- context [renderEnv ?ls] =>
      destruct (parseEnv_render ls eq_refl) as [Heq Hget]
  end.
  split.
  - rewrite Heq. cbn [fold_left]. vm_compute. reflexivity.
  - apply Hget; [by left| |discriminate]. rewrite Heq. vm_compute. reflexivity.
Defined.

(** ** Project names *)

Lemma isNameChar_cases (c : N) :
  isNameChar c = true ->
  (c =? 32) = false /\ lowerUnit c = [c].
Proof.
  unfold isNameChar, lowerUnit, inRange. intros H.
  assert (Hc : (97 <= c <= 122) \/ (48 <= c <= 57) \/ c = 45).
  { apply orb_prop in H as [H|H]; [apply orb_prop in H as [H|H]|].
    - left. apply andb_prop in H as [H1 H2]. apply N.leb_le in H1, H2. lia.
    - right. left. apply andb_prop in H as [H1 H2]. apply N.leb_le in H1, H2. lia.
    - right. right. by apply N.eqb_eq in H. }
  split; [apply N.eqb_neq; lia|].
  replace ((65 <=? c) && (c <=? 90)) with false
    by (symmetry; apply andb_false_iff;
        destruct (N.leb_spec c 90); [left; apply N.leb_gt; lia|by right]).
  replace (c =? 304) with false by (symmetry; apply N.eqb_neq; lia).
  by replace (c =? 8490) with false by (symmetry; apply N.eqb_neq; lia).
Qed.

Lemma generateProjectName_name (name : list N) :
  name <> [] -> isNameString name = true -> generateProjectName name = name.
Proof.
  intros Hne Hname. unfold isNameString in Hname.
  assert (Hsplit : splitOn 32 name = [name]).
  { apply splitOn_whole. unfold noUnit. apply forallb_forall. intros c Hc.
    apply (proj1 (forallb_forall _ _) Hname), isNameChar_cases in Hc as [Hc _].
    by rewrite Hc. }
  assert (Hlow : toLowerCase name = name).
  { clear Hne Hsplit. unfold toLowerCase.
    induction name as [|c name IH]; [done|]. cbn [forallb flat_map] in *.
    apply andb_prop in Hname as [Hc Hname].
    apply isNameChar_cases in Hc as [_ ->]. cbn [app]. by rewrite (IH Hname). }
  assert (Hfilter : List.filter isNameChar name = name).
  { clear Hne Hsplit Hlow. induction name as [|c name IH]; [done|].
    cbn [forallb List.filter] in *. apply andb_prop in Hname as [-> Hname].
    by rewrite (IH Hname). }
  unfold generateProjectName. rewrite Hsplit. cbn [firstn join].
  rewrite Hlow, Hfilter. by destruct name.
Qed.

(** X4.  The name of a project is never empty and is made of lower-case letters,
    digits and hyphens only, whatever the prompt; and a prompt that is
    itself such a name is its own project name, so that naming a project
    after its name changes nothing. *)
Theorem generateProjectName_shape (prompt : list N) :
  generateProjectName prompt <> []
  /\ isNameString (generateProjectName prompt) = true
  /\ generateProjectName (generateProjectName prompt) = generateProjectName prompt.
Proof.
  assert (H : generateProjectName prompt <> []
              /\ isNameString (generateProjectName prompt) = true).
  { unfold generateProjectName, isNameString.
    destruct (List.filter isNameChar _) as [|c name] eqn:Hf.
    - split; [discriminate|reflexivity].
    - split; [discriminate|]. rewrite <- Hf. apply forallb_forall. intros x Hx.
      by apply filter_In in Hx as [_ Hx]. }
  destruct H as [Hne Hname]. split_and!; [done..|].
  by apply generateProjectName_name.
Qed.

(** ** escapeHtml *)

Lemma escapeUnit_passes (c : N) :
  replaceAll 10 (str "<br>")
    (replaceAll 39 (str "&#039;")
       (replaceAll 34 (str "&quot;")
          (replaceAll 62 (str "&gt;")
             (replaceAll 60 (str "&lt;")
                (replaceAll 38 (str "&amp;") [c])))))
  = escapeUnit c.
Proof.
  unfold escapeUnit.
  destruct (N.eqb_spec c 38) as [->|H38]; [reflexivity|].
  destruct (N.eqb_spec c 60) as [->|H60]; [reflexivity|].
  destruct (N.eqb_spec c 62) as [->|H62]; [reflexivity|].
  destruct (N.eqb_spec c 34) as [->|H34]; [reflexivity|].
  destruct (N.eqb_spec c 39) as [->|H39]; [reflexivity|].
  destruct (N.eqb_spec c 10) as [->|H10]; [reflexivity|].
  unfold replaceAll. cbn [flat_map app].
  repeat match goal with
         | |- context [c =? ?x] =>
             replace (c =? x) with false by (symmetry; by apply N.eqb_neq);
             cbn [flat_map app]
         end.
  reflexivity.
Qed.

Lemma replaceAll_app (x : N) (r a b : list N) :
  replaceAll x r (a ++ b) = replaceAll x r a ++ replaceAll x r b.
Proof. apply flat_map_app. Qed.

Lemma escapeHtml_flat_map (s : list N) :
  escapeHtml s = flat_map escapeUnit s.
Proof.
  destruct s as [|c0 s0]; [reflexivity|]. unfold escapeHtml.
  generalize (c0 :: s0). clear. intros s.
  induction s as [|c s IH]; [reflexivity|].
  change (c :: s) with ([c] ++ s).
  rewrite !replaceAll_app, IH, escapeUnit_passes. reflexivity.
Qed.

(** X5.  The six replacements of [escapeHtml], made one after the other over the
    whole text, amount to one substitution per code unit: no replacement
    touches what an earlier one produced, and the text only grows. *)
Theorem escapeHtml_units (s : list N) :
  escapeHtml s = flat_map escapeUnit s
  /\ (length s <= length (escapeHtml s))%nat.
Proof.
  split; [apply escapeHtml_flat_map|]. rewrite escapeHtml_flat_map.
  induction s as [|c s IH]; [done|]. cbn [flat_map]. rewrite length_app.
  assert (1 <= length (escapeUnit c))%nat; [|cbn [length]; lia].
  unfold escapeUnit.
  repeat match goal with |- context [if ?b then _ else _] => destruct b end;
    cbn; lia.
Qed.

Lemma escapeUnit_prefix (c d : N) (r1 r2 : list N) :
  escapeUnit c ++ r1 = escapeUnit d ++ r2 -> c = d /\ r1 = r2.
Proof.
  unfold escapeUnit.
  destruct (N.eqb_spec c 38), (N.eqb_spec c 60), (N.eqb_spec c 62),
    (N.eqb_spec c 34), (N.eqb_spec c 39), (N.eqb_spec c 10);
  destruct (N.eqb_spec d 38), (N.eqb_spec d 60), (N.eqb_spec d 62),
    (N.eqb_spec d 34), (N.eqb_spec d 39), (N.eqb_spec d 10);
  subst; cbn [str app N_of_ascii N_of_digits]; intros H; simplify_eq; done.
Qed.

(** X6.  Escaping loses nothing: two texts with the same escaped form are the
    same text. *)
Theorem escapeHtml_injective (s t : list N) :
  escapeHtml s = escapeHtml t -> s = t.
Proof.
  rewrite !escapeHtml_flat_map. revert t.
  induction s as [|c s IH]; intros [|d t]; cbn [flat_map]; [done|..].
  - intros H. exfalso. unfold escapeUnit in H.
    repeat match type of H with context [if ?b then _ else _] => destruct b end;
      discriminate.
  - intros H. exfalso. unfold escapeUnit in H.
    repeat match type of H with context [if ?b then _ else _] => destruct b end;
      discriminate.
  - intros [-> Hst]%escapeUnit_prefix. f_equal. by apply IH.
Qed.

(** X7.  In the escaped text there is no double quote, no single quote and no
    newline; a less-than or greater-than sign occurs only where the
    original had a newline, so a text without newlines is escaped into one
    without either sign. *)
Theorem escapeHtml_safe (s : list N) :
  noUnit 34 (escapeHtml s) = true
  /\ noUnit 39 (escapeHtml s) = true
  /\ noUnit 10 (escapeHtml s) = true
  /\ (noUnit 10 s = true ->
      noUnit 60 (escapeHtml s) = true /\ noUnit 62 (escapeHtml s) = true).
Proof.
  rewrite escapeHtml_flat_map. unfold noUnit.
  induction s as [|c s (IH1 & IH2 & IH3 & IH4)]; [done|].
  cbn [flat_map forallb]. rewrite !forallb_app, IH1, IH2, IH3, !andb_true_r.
  assert (Hunit : forall x, x = 34 \/ x = 39 \/ x = 10 ->
            forallb (fun c0 => negb (c0 =? x)) (escapeUnit c) = true).
  { intros x Hx. unfold escapeUnit.
    destruct (N.eqb_spec c 38), (N.eqb_spec c 60), (N.eqb_spec c 62),
      (N.eqb_spec c 34), (N.eqb_spec c 39), (N.eqb_spec c 10);
      destruct Hx as [-> | [-> | ->]]; try reflexivity;
      cbn [forallb]; rewrite andb_true_r; apply negb_true_iff; by apply N.eqb_neq. }
  split_and!; [apply Hunit; tauto..|].
  intros [Hc Hs]%andb_prop. destruct (IH4 Hs) as [IH5 IH6].
  rewrite ?forallb_app, IH5, IH6, !andb_true_r.
  apply negb_true_iff, N.eqb_neq in Hc. unfold escapeUnit.
  destruct (N.eqb_spec c 38), (N.eqb_spec c 60), (N.eqb_spec c 62),
    (N.eqb_spec c 34), (N.eqb_spec c 39), (N.eqb_spec c 10);
    try done; cbn [forallb]; rewrite !andb_true_r;
    split; apply negb_true_iff; by apply N.eqb_neq.
Qed.

Lemma escapeHtml_safe_witness :
  escapeHtml (str "<b>it's</b>") = str "&lt;b&gt;it&#039;s&lt;/b&gt;"
  /\ noUnit 60 (escapeHtml (str "<b>it's</b>"))  = true
  /\ noUnit 62 (escapeHtml (str "<b>it's</b>"))  = true.
Proof.
  split; [reflexivity|].
  apply (escapeHtml_safe (str "<b>it's</b>")). reflexivity.
Defined.

Lemma escapeHtml_injective_witness :
  str "a < b" = str "a < b".
Proof.
  apply escapeHtml_injective. reflexivity.
Defined.

(** ** What each request does to the list of projects *)

Lemma sameProject_withStatus (s : Status) (p : Project) : sameProject p (withStatus s p).
Proof. by repeat split. Qed.

Lemma upsertFile_nonempty (fs : list ProjectFile) (f : ProjectFile) :
  upsertFile fs f <> [].
Proof.
  unfold upsertFile. destruct (findFileIndex (file_path f) fs) as [i|] eqn:Hi.
  - apply findFileIndex_Some in Hi as (g & Hg & _). intros Hnil.
    apply (f_equal length) in Hnil. rewrite length_insert in Hnil.
    apply lookup_lt_Some in Hg. cbn in Hnil. lia.
  - by destruct fs.
Qed.

Lemma upsertFiles_nonempty (fs news : list ProjectFile) :
  fs <> [] \/ news <> [] -> upsertFiles fs news <> [].
Proof.
  unfold upsertFiles. revert fs. induction news as [|f news IH]; intros fs H.
  - cbn. by destruct H.
  - cbn [fold_left]. apply IH. left. apply upsertFile_nonempty.
Qed.

Lemma detectPrimaryLanguage_supported (fs : list ProjectFile) :
  In (detectPrimaryLanguage fs) supportedLanguages.
Proof.
  unfold detectPrimaryLanguage, supportedLanguages.
  repeat match goal with |- context [if ?b then _ else _] => destruct b end;
    cbn; tauto.
Qed.

Lemma stopProject_projects (env : Env) (projectId : list N) (st : State)
    (i : nat) (p : Project) :
  findProject projectId st = Some (i, p) ->
  (stopProject env projectId st).1.2
  = {| projects := <[i := withStatus Stopped p]> (projects st);
       runningProcesses := runningProcesses (signalProcess env projectId st).1;
       nextPort := nextPort st |}.
Proof.
  intros Hfind. rewrite (stopProject_state env _ _ _ _ Hfind). cbn [fst snd].
  destruct (signalProcess_frame env projectId st) as (Hps & Hn & _).
  unfold storeProject, setProjects. by rewrite Hps, Hn.
Qed.

(** The state [runProject] leaves for a project that is in the list. *)
Lemma runProject_state (env : Env) (projectId : list N) (st : State)
    (i : nat) (p : Project) :
  findProject projectId st = Some (i, p) ->
  (runProject env projectId st).1
  = match spawn env (runOptions env p (nextPort st)) with
    | Throw e =>
        (Throw e,
         {| projects := <[i := withStatus Error
                                 (withPort (nextPort st) (withStatus Running p))]>
                          (projects st);
            runningProcesses := runningProcesses (signalProcess env projectId st).1;
            nextPort := nextPort st + 1 |})
    | Return process =>
        let output := startSummary (nextPort st) (runCommand env p).1.1
                        (runCommand env p).1.2 in
        (Return {| run_output := output; run_port := nextPort st |},
         {| projects := <[i := withLastOutput output
                                 (withPort (nextPort st) (withStatus Running p))]>
                          (projects st);
            runningProcesses :=
              <[projectId := process]>
                (runningProcesses (signalProcess env projectId st).1);
            nextPort := nextPort st + 1 |})
    end.
Proof.
  intros Hfind. unfold runProject, runOptions. rewrite Hfind.
  set (stopped := match runningProcesses st !! projectId with
                  | Some _ => _
                  | None => _
                  end).
  assert (Hstop : exists q,
            stopped.1 = {| projects := <[i := q]> (projects st);
                           runningProcesses :=
                             runningProcesses (signalProcess env projectId st).1;
                           nextPort := nextPort st |}).
  { subst stopped. destruct (runningProcesses st !! projectId) as [process|] eqn:Hp.
    - exists (withStatus Stopped p).
      pose proof (stopProject_projects env _ _ _ _ Hfind) as Hs.
      by destruct (stopProject env projectId st) as [[r st1] log1].
    - exists p. cbn [fst]. rewrite (signalProcess_unregistered _ _ _ Hp). cbn [fst].
      destruct (findProject_Some _ _ _ _ Hfind) as [Hi _].
      rewrite (list_insert_id _ _ _ Hi). by destruct st. }
  destruct stopped as [st1 log1]. destruct Hstop as (q & Hst1). cbn [fst] in Hst1.
  subst st1. cbn [nextPort].
  destruct (runCommand env p) as [[command arguments] log2]. cbn [fst snd].
  destruct (spawn env _) as [process|e]; cbn [fst];
    unfold storeProject, setProjects, setNextPort, setProcesses; cbn;
    rewrite !list_insert_insert_eq; reflexivity.
Qed.

Lemma updateFileContent_projects (env : Env) (projectId filePath content : list N)
    (st : State) :
  (updateFileContent env projectId filePath content st).1.2 = st
  \/ exists i p files',
       projects st !! i = Some p
       /\ (updateFileContent env projectId filePath content st).1.2
          = storeProject i (withFiles files' p) st
       /\ length files' = length (project_files p).
Proof.
  unfold updateFileContent. destruct (findProject projectId st) as [[i p]|] eqn:Hfind;
    [|by left].
  destruct (writeTextFile env _ _); [by left|]. right.
  destruct (findProject_Some _ _ _ _ Hfind) as [Hi _].
  eexists i, p, _. split; [done|]. split; [reflexivity|].
  destruct (findFileIndex filePath (project_files p)); [|done].
  by rewrite length_alter.
Qed.

(** The four things a request can do to the list: leave it, write one
    object in place (same project; the port kept, or taken from the
    counter), put a new project in front, or filter an id out. *)
Lemma handle_cases (env : Env) (req : Request) (st : State) :
  (projects (handle env req st).1 = projects st
   /\ nextPort (handle env req st).1 = nextPort st)
  \/ (exists i p p',
        projects st !! i = Some p
        /\ projects (handle env req st).1 = <[i := p']> (projects st)
        /\ sameProject p p'
        /\ (project_files p <> [] -> project_files p' <> [])
        /\ ((project_port p' = project_port p
             /\ nextPort (handle env req st).1 = nextPort st)
            \/ (project_port p' = Some (nextPort st)
                /\ nextPort (handle env req st).1 = nextPort st + 1)))
  \/ (exists fs message pid pnew,
        req = Chat fs message pid
        /\ projects (handle env req st).1 = pnew :: projects st
        /\ nextPort (handle env req st).1 = nextPort st
        /\ project_id pnew = randomId env
        /\ project_path pnew = str "./projects/" ++ randomId env
        /\ project_language pnew = detectPrimaryLanguage fs
        /\ project_files pnew = fs /\ fs <> []
        /\ project_port pnew = None /\ project_status pnew = Created)
  \/ (exists projectId,
        req = Delete projectId
        /\ projects (handle env req st).1
           = List.filter (fun project => negb (jsstring_eqb (project_id project) projectId))
               (projects st)
        /\ nextPort (handle env req st).1 = nextPort st).
Proof.
  destruct req as [fs message pid|pid|pid|pid|pid filePath content|pid];
    cbn [handle].
  - unfold chatMaterialize. destruct fs as [|f fs]; [by left|].
    set (current := match pid with Some (c :: pid0) => _ | _ => None end).
    assert (Hcur : current = None
                    \/ exists i p, current = Some (i, p) /\ projects st !! i = Some p).
    { subst current. destruct pid as [[|c pid0]|]; [by left| |by left].
      destruct (findProject (c :: pid0) st) as [[i p]|] eqn:Hfind; [|by left].
      right. exists i, p. split; [done|]. exact (proj1 (findProject_Some _ _ _ _ Hfind)). }
    destruct Hcur as [->|(i & p & -> & Hi)].
    + unfold createOrUpdateProject. destruct (mkdir env _); [by left|].
      right. right. left. cbn [fst snd].
      eexists (f :: fs), message, pid, _. split_and!; try reflexivity. done.
    + right. left. cbn [createOrUpdateProject fst snd].
      exists i, p, (withFiles (upsertFiles (project_files p) (f :: fs)) p).
      split_and!; [done|done|by repeat split| |by left].
      intros _. apply upsertFiles_nonempty. by right.
  - unfold buildProject, buildProjectTrace. destruct (findProject pid st) as [[i p]|] eqn:Hfind; [|by left].
    right. left. destruct (findProject_Some _ _ _ _ Hfind) as [Hi _].
    destruct (buildSteps env p) as [[output|e] log]; cbn [fst snd];
      eexists i, p, _;
      (split_and!; [done|cbn; by rewrite list_insert_insert_eq
                   |apply sameProject_withStatus|done|by left]).
  - destruct (findProject pid st) as [[i p]|] eqn:Hfind.
    + right. left. destruct (findProject_Some _ _ _ _ Hfind) as [Hi _].
      pose proof (runProject_state env _ _ _ _ Hfind) as Hrun.
      destruct (runProject env pid st) as [[r st'] log]. cbn [fst snd] in *.
      destruct (spawn env _) as [process|e]; injection Hrun as _ ->;
        eexists i, p, _;
        (split_and!; [done|reflexivity|by repeat split|done|by right]).
    + left. unfold runProject. by rewrite Hfind.
  - destruct (findProject pid st) as [[i p]|] eqn:Hfind.
    + right. left. destruct (findProject_Some _ _ _ _ Hfind) as [Hi _].
      pose proof (stopProject_projects env _ _ _ _ Hfind) as Hstop.
      destruct (stopProject env pid st) as [[r st'] log]. cbn [fst snd] in *. subst st'.
      eexists i, p, _.
      split_and!; [done|reflexivity|apply sameProject_withStatus|done|by left].
    + left. unfold stopProject. by rewrite Hfind.
  - destruct (updateFileContent_projects env pid filePath content st)
      as [Hsame|(i & p & files' & Hi & Hst & Hlen)];
      destruct (updateFileContent env pid filePath content st) as [[r st'] log];
      cbn [fst snd] in *; subst st'; [by left|].
    right. left. exists i, p, (withFiles files' p).
    split_and!; [done|done|by repeat split| |by left].
    cbn. intros Hne Hnil. rewrite Hnil in Hlen. by destruct (project_files p).
  - right. right. right. exists pid. by rewrite deleteProject_never_stops.
Qed.

(** ** What holds of every state the server reaches *)

Lemma handle_wellKept (env : Env) (req : Request) (st : State) :
  Forall wellKept (projects st) -> Forall wellKept (projects (handle env req st).1).
Proof.
  intros Hall.
  destruct (handle_cases env req st)
    as [[-> _]|[(i & p & p' & Hi & -> & Hsame & Hfiles & _)
               |[(fs & message & pid & pnew & _ & -> & _ & Hid & Hpath & Hlang
                  & Hfs & Hne & _)
                |(projectId & _ & -> & _)]]].
  - done.
  - apply Forall_insert; [done|].
    destruct (Forall_lookup_1 _ _ _ _ Hall Hi) as (Hpath & Hlang & Hne).
    destruct Hsame as (Hid' & _ & _ & Hlang' & _ & Hpath' & _).
    unfold wellKept. rewrite Hpath', Hlang', Hid'. split_and!; [done|done|by apply Hfiles].
  - constructor; [|done]. unfold wellKept. rewrite Hpath, Hid, Hlang, Hfs.
    split_and!; [done|apply detectPrimaryLanguage_supported|done].
  - apply Forall_forall. intros p Hp. apply list_elem_of_In, filter_In in Hp as [Hp _].
    rewrite Forall_forall in Hall. by apply Hall, list_elem_of_In.
Qed.

(** X8.  Whatever requests are served, every listed project stays rooted at
    ./projects/ followed by its id, in one of the languages typescript,
    javascript and python, and with at least one file. *)
Theorem serve_wellKept (reqs : list (Env * Request)) (st : State) :
  Forall wellKept (projects st) ->
  Forall wellKept (projects (serve reqs st).1).
Proof.
  revert st. induction reqs as [|[env req] reqs IH]; intros st Hall; [done|].
  cbn [serve]. pose proof (handle_wellKept env req st Hall) as Hstep.
  destruct (handle env req st) as [st1 log1]. cbn [fst] in Hstep.
  specialize (IH st1 Hstep). by destruct (serve reqs st1) as [st2 log2].
Qed.

Lemma serve_wellKept_witness :
  Forall wellKept
    (projects
       (serve [(quietEnv, Chat [sampleFile "style.css" "body {}"] (str "a page") None);
               (quietEnv, Run (randomId quietEnv));
               (quietEnv, PutFile (randomId quietEnv) (str "style.css") [])]
          initialState).1).
Proof.
  apply serve_wellKept. constructor.
Defined.

Lemma omap_insert_split {A B : Type} (f : A -> option B) (l : list A)
    (i : nat) (x x' : A) :
  l !! i = Some x ->
  exists a b,
    omap f l = a ++ option_list (f x) ++ b
    /\ omap f (<[i := x']> l) = a ++ option_list (f x') ++ b.
Proof.
  revert i. induction l as [|y l IH]; intros [|i] Hi; try done.
  - injection Hi as ->. exists [], (omap f l). cbn.
    by destruct (f x), (f x').
  - destruct (IH i Hi) as (a & b & Ha & Hb).
    change (<[S i := x']> (y :: l)) with (y :: <[i := x']> l). cbn [omap list_omap].
    fold (omap f l). fold (omap f (<[i := x']> l)). rewrite Ha, Hb.
    destruct (f y) as [z|]; [by exists (z :: a), b|by exists a, b].
Qed.

Lemma omap_filter_sublist {A B : Type} (f : A -> option B) (P : A -> bool)
    (l : list A) :
  omap f (List.filter P l) `sublist_of` omap f l.
Proof.
  induction l as [|x l IH]; [constructor|]. cbn [List.filter omap list_omap].
  fold (omap f l). destruct (P x).
  - cbn [omap list_omap]. fold (omap f (List.filter P l)).
    destruct (f x); [by constructor|done].
  - destruct (f x); [by constructor|done].
Qed.

Lemma handle_portsFresh (env : Env) (req : Request) (st : State) :
  portsFresh st -> portsFresh (handle env req st).1.
Proof.
  unfold portsFresh. intros [Hlt Hnd].
  destruct (handle_cases env req st)
    as [[-> ->]|[(i & p & p' & Hi & -> & _ & _ & Hport)
               |[(fs & message & pid & pnew & _ & -> & -> & _ & _ & _ & _ & _ & Hnone & _)
                |(projectId & _ & -> & ->)]]].
  - done.
  - destruct (omap_insert_split project_port _ i p p' Hi) as (a & b & Ha & Hb).
    rewrite Hb. rewrite Ha in Hlt, Hnd.
    destruct Hport as [[-> ->]|[-> ->]]; [done|].
    apply Forall_app in Hlt as [Hlta Hltb]. apply Forall_app in Hltb as [_ Hltb].
    apply NoDup_app in Hnd as (Hnda & Hab & Hndb).
    apply NoDup_app in Hndb as (_ & _ & Hndb).
    cbn [option_list app]. split.
    + apply Forall_app. split; [|constructor; [lia|]];
        (eapply Forall_impl; [eassumption|]); cbn; intros; lia.
    + apply NoDup_app. split_and!; [done| |].
      * intros x Hx [->|Hxb]%elem_of_cons.
        -- rewrite Forall_forall in Hlta. specialize (Hlta _ Hx). lia.
        -- apply (Hab x Hx). apply elem_of_app. by right.
      * constructor; [|done]. intros Hin.
        rewrite Forall_forall in Hltb. specialize (Hltb _ Hin). lia.
  - cbn [omap list_omap]. by rewrite Hnone.
  - pose proof (omap_filter_sublist project_port
                  (fun project => negb (jsstring_eqb (project_id project) projectId))
                  (projects st)) as Hsub.
    split; [|by eapply sublist_NoDup].
    apply Forall_forall. intros x Hx. rewrite Forall_forall in Hlt.
    apply Hlt. by eapply elem_of_sublist.
Qed.

(** X9.  Whatever requests are served, the ports of the listed projects stay
    below the counter and no two listed projects have the same port. *)
Theorem serve_portsFresh (reqs : list (Env * Request)) (st : State) :
  portsFresh st -> portsFresh (serve reqs st).1.
Proof.
  revert st. induction reqs as [|[env req] reqs IH]; intros st Hinv; [done|].
  cbn [serve]. pose proof (handle_portsFresh env req st Hinv) as Hstep.
  destruct (handle env req st) as [st1 log1]. cbn [fst] in Hstep.
  specialize (IH st1 Hstep). by destruct (serve reqs st1) as [st2 log2].
Qed.

Lemma serve_portsFresh_witness :
  portsFresh
    (serve [(quietEnv, Chat [sampleFile "index.js" "1"] (str "counter app") None);
            (quietEnv, Run (randomId quietEnv));
            (quietEnv, Chat [sampleFile "main.py" "1"] (str "todo list") None);
            (quietEnv, Run (randomId quietEnv))]
       initialState).1.
Proof.
  apply serve_portsFresh. split; constructor.
Defined.

(** X10.  Only a chat adds a project, and it adds it in front; only DELETE removes
    projects, all those with the id; no request changes the order of the
    others. *)
Theorem handle_listing (env : Env) (req : Request) (st : State) :
  match req with
  | Chat _ _ _ =>
      listing (handle env req st).1 = listing st
      \/ listing (handle env req st).1 = randomId env :: listing st
  | Delete projectId =>
      listing (handle env req st).1
      = List.filter (fun id => negb (jsstring_eqb id projectId)) (listing st)
  | _ => listing (handle env req st).1 = listing st
  end.
Proof.
  assert (Hins : forall i p p', projects st !! i = Some p -> sameProject p p' ->
            map project_id (<[i := p']> (projects st)) = map project_id (projects st)).
  { intros i p p' Hi (Hid & _).
    change (map project_id) with (fmap (M := list) project_id).
    rewrite list_fmap_insert, Hid. apply list_insert_id.
    by rewrite list_lookup_fmap, Hi. }
  assert (Hdel : forall projectId,
            listing (handle env (Delete projectId) st).1
            = List.filter (fun id => negb (jsstring_eqb id projectId)) (listing st)).
  { clear Hins. intros projectId. unfold listing. cbn [handle].
    rewrite deleteProject_never_stops. cbn [fst projects setProjects].
    induction (projects st) as [|q ps IH]; [done|]. cbn [List.filter map].
    destruct (negb _); cbn [map]; by rewrite IH. }
  destruct req as [fs message pid|pid|pid|pid|pid filePath content|pid];
    [|..|exact (Hdel pid)];
    unfold listing;
    (match goal with
     | |- context [handle env ?r st] =>
         destruct (handle_cases env r st)
           as [[-> _]|[(i & p & p' & Hi & -> & Hsame & _)
                      |[(fs' & message' & pid' & pnew & Hreq & -> & _ & Hid & _)
                       |(projectId & Hreq & _)]]]
     end;
     [try done; by left
     |rewrite (Hins _ _ _ Hi Hsame); try done; by left
     |try discriminate Hreq; right; cbn [map]; by rewrite Hid
     |discriminate Hreq]).
Qed.

(** ** Updating the files of a project *)

Lemma findIndexFrom_intro (base : nat) (path : list N) (fs : list ProjectFile)
    (k : nat) (g : ProjectFile) :
  fs !! k = Some g -> file_path g = path ->
  (forall j g', (j < k)%nat -> fs !! j = Some g' -> file_path g' <> path) ->
  findIndexFrom base path fs = Some (base + k)%nat.
Proof.
  revert k base. induction fs as [|h fs IH]; intros k base Hk Hpath Hfirst; [done|].
  cbn [findIndexFrom]. destruct k as [|k].
  - injection Hk as ->. apply jsstring_eqb_eq in Hpath. rewrite Hpath.
    f_equal. lia.
  - assert (Hh : file_path h <> path) by (apply (Hfirst 0%nat); [lia|done]).
    apply jsstring_eqb_neq in Hh. rewrite Hh.
    rewrite (IH k (S base)); [f_equal; lia|done|done|].
    intros j g' Hj. apply (Hfirst (S j)). lia.
Qed.

Lemma findFileIndex_intro (path : list N) (fs : list ProjectFile) (k : nat)
    (g : ProjectFile) :
  fs !! k = Some g -> file_path g = path ->
  (forall j g', (j < k)%nat -> fs !! j = Some g' -> file_path g' <> path) ->
  findFileIndex path fs = Some k.
Proof. intros. unfold findFileIndex. by rewrite (findIndexFrom_intro 0 path fs k g). Qed.

Lemma upsertFile_other (fs : list ProjectFile) (f g : ProjectFile) (k : nat) :
  fs !! k = Some g -> file_path g <> file_path f ->
  upsertFile fs f !! k = Some g.
Proof.
  intros Hk Hne. unfold upsertFile.
  destruct (findFileIndex (file_path f) fs) as [i|] eqn:Hi.
  - apply findFileIndex_Some in Hi as (h & Hh & Hpath & _).
    rewrite list_lookup_insert_ne; [done|]. intros ->. congruence.
  - by apply lookup_app_l_Some.
Qed.

Lemma upsertFile_first (fs : list ProjectFile) (f : ProjectFile) :
  exists k, findFileIndex (file_path f) (upsertFile fs f) = Some k
            /\ upsertFile fs f !! k = Some f.
Proof.
  unfold upsertFile. destruct (findFileIndex (file_path f) fs) as [i|] eqn:Hi.
  - apply findFileIndex_Some in Hi as (h & Hh & Hpath & Hfirst).
    assert (Hlt : (i < length fs)%nat) by (by eapply lookup_lt_Some).
    exists i. split; [|by apply list_lookup_insert_eq].
    apply findFileIndex_intro with (g := f);
      [by apply list_lookup_insert_eq|done|].
    intros j g' Hj Hg'. rewrite list_lookup_insert_ne in Hg' by lia.
    by apply (Hfirst j).
  - apply findIndexFrom_None in Hi. exists (length fs).
    split; [|by rewrite lookup_app_r, Nat.sub_diag].
    apply findFileIndex_intro with (g := f);
      [by rewrite lookup_app_r, Nat.sub_diag|done|].
    intros j g' Hj Hg'. rewrite lookup_app_l in Hg' by done.
    intros Hp. apply Hi. rewrite <- Hp. apply in_map.
    apply list_elem_of_In. by eapply list_elem_of_lookup_2.
Qed.

Lemma upsertFile_first_other (fs : list ProjectFile) (f g : ProjectFile)
    (path : list N) (k : nat) :
  file_path f <> path ->
  findFileIndex path fs = Some k -> fs !! k = Some g ->
  findFileIndex path (upsertFile fs f) = Some k /\ upsertFile fs f !! k = Some g.
Proof.
  intros Hne Hk Hg. apply findFileIndex_Some in Hk as (g0 & Hg0 & Hpath & Hfirst).
  assert (g0 = g) as -> by congruence.
  assert (Hkeep : upsertFile fs f !! k = Some g).
  { apply upsertFile_other; [done|]. congruence. }
  split; [|done]. apply findFileIndex_intro with (g := g); [done|done|].
  intros j g' Hj Hg'.
  destruct (fs !! j) as [h|] eqn:Hh.
  - destruct (decide (file_path h = file_path f)) as [Heq|Hneq].
    + unfold upsertFile in Hg'.
      destruct (findFileIndex (file_path f) fs) as [i|] eqn:Hi.
      * destruct (decide (i = j)) as [->|Hij].
        -- rewrite list_lookup_insert_eq in Hg' by (by eapply lookup_lt_Some).
           by injection Hg' as <-.
        -- rewrite list_lookup_insert_ne in Hg' by done.
           assert (g' = h) as -> by congruence. by apply (Hfirst j).
      * rewrite (lookup_app_l_Some _ _ _ _ Hh) in Hg'.
        injection Hg' as <-. by apply (Hfirst j).
    + rewrite (upsertFile_other _ _ _ _ Hh Hneq) in Hg'.
      injection Hg' as <-. by apply (Hfirst j).
  - apply lookup_ge_None in Hh. apply lookup_lt_Some in Hg0. lia.
Qed.

Lemma upsertFiles_snoc (fs news : list ProjectFile) (f : ProjectFile) :
  upsertFiles fs (news ++ [f]) = upsertFile (upsertFiles fs news) f.
Proof. unfold upsertFiles. by rewrite fold_left_app. Qed.

Lemma lastWithPath_snoc (path : list N) (news : list ProjectFile) (f : ProjectFile) :
  lastWithPath path (news ++ [f])
  = if jsstring_eqb (file_path f) path then Some f else lastWithPath path news.
Proof. unfold lastWithPath. by rewrite rev_app_distr. Qed.

Lemma upsertFiles_last (fs news : list ProjectFile) (path : list N) (g : ProjectFile) :
  lastWithPath path news = Some g ->
  exists k, findFileIndex path (upsertFiles fs news) = Some k
            /\ upsertFiles fs news !! k = Some g.
Proof.
  induction news as [|f news IH] using rev_ind; [done|].
  rewrite lastWithPath_snoc, upsertFiles_snoc.
  destruct (jsstring_eqb (file_path f) path) eqn:Hf.
  - intros [= <-]. apply jsstring_eqb_eq in Hf. subst path. apply upsertFile_first.
  - intros Hg. apply jsstring_eqb_neq in Hf.
    destruct (IH Hg) as (k & Hk & Hlook). exists k.
    by apply upsertFile_first_other.
Qed.

Lemma upsertFiles_untouched (fs news : list ProjectFile) (k : nat) (g : ProjectFile) :
  fs !! k = Some g -> ~ In (file_path g) (map file_path news) ->
  upsertFiles fs news !! k = Some g.
Proof.
  unfold upsertFiles. revert fs. induction news as [|f news IH]; intros fs Hk Hnot; [done|].
  cbn [fold_left]. apply IH.
  - apply upsertFile_other; [done|]. intros Heq. apply Hnot. left. done.
  - intros Hin. apply Hnot. by right.
Qed.

Lemma upsertFiles_paths (fs news : list ProjectFile) :
  exists added, map file_path (upsertFiles fs news) = map file_path fs ++ added.
Proof.
  unfold upsertFiles. revert fs. induction news as [|f news IH]; intros fs.
  - exists []. by rewrite app_nil_r.
  - cbn [fold_left]. destruct (IH (upsertFile fs f)) as (added & ->).
    destruct (findFileIndex (file_path f) fs) as [i|] eqn:Hi.
    + destruct (upsertFile_existing _ _ _ Hi) as (_ & -> & _). by exists added.
    + apply findIndexFrom_None in Hi. rewrite (upsertFile_new _ _ Hi), map_app.
      exists (map file_path [f] ++ added). by rewrite app_assoc.
Qed.

(** X11.  Updating a project never removes or moves a tracked file: the paths
    tracked before are the first paths tracked after, in the same order,
    and an entry whose path is not among the new files is left as it is. *)
Theorem upsertFiles_keeps (fs news : list ProjectFile) :
  (exists added, map file_path (upsertFiles fs news) = map file_path fs ++ added)
  /\ forall k g, fs !! k = Some g -> ~ In (file_path g) (map file_path news) ->
       upsertFiles fs news !! k = Some g.
Proof.
  split; [apply upsertFiles_paths|apply upsertFiles_untouched].
Qed.

Lemma upsertFiles_keeps_witness :
  upsertFiles [sampleFile "a.js" "1"; sampleFile "b.js" "2"]
    [sampleFile "c.js" "3"; sampleFile "a.js" "4"] !! 1%nat
  = Some (sampleFile "b.js" "2").
Proof.
  apply (upsertFiles_keeps [sampleFile "a.js" "1"; sampleFile "b.js" "2"]);
    [reflexivity|].
  vm_compute. intuition discriminate.
Defined.

(** X12.  Last write wins: after an update, the first entry tracked under the
    path of a new file is the last of the new files with that path. *)
Theorem upsertFiles_last_wins (fs news : list ProjectFile) (path : list N)
    (g : ProjectFile) :
  lastWithPath path news = Some g ->
  exists k, findFileIndex path (upsertFiles fs news) = Some k
            /\ upsertFiles fs news !! k = Some g.
Proof. apply upsertFiles_last. Qed.

Lemma upsertFiles_last_wins_witness :
  exists k,
    findFileIndex (str "a.js")
      (upsertFiles [sampleFile "a.js" "old"]
         [sampleFile "a.js" "one"; sampleFile "b.js" "x"; sampleFile "a.js" "two"])
    = Some k
    /\ upsertFiles [sampleFile "a.js" "old"]
         [sampleFile "a.js" "one"; sampleFile "b.js" "x"; sampleFile "a.js" "two"] !! k
       = Some (sampleFile "a.js" "two").
Proof.
  apply upsertFiles_last_wins. reflexivity.
Defined.

Lemma directoryMade_path (env : Env) (root : list N) (f g : ProjectFile) :
  file_path f = file_path g -> directoryMade env root f = directoryMade env root g.
Proof. unfold directoryMade. by intros ->. Qed.

Lemma lastWriteTo_writes (env : Env) (root path : list N)
    (news : list ProjectFile) (g : ProjectFile) :
  lastWithPath path news = Some g ->
  directoryMade env root g = true ->
  lastWriteTo (root ++ [c_slash] ++ path)
    (map (fun f => (root ++ [c_slash] ++ file_path f, file_content f))
       (List.filter (directoryMade env root) news))
  = Some (file_content g).
Proof.
  unfold lastWriteTo.
  induction news as [|f news IH] using rev_ind; [done|].
  rewrite lastWithPath_snoc, List.filter_app, map_app, rev_app_distr.
  cbn [List.filter]. destruct (jsstring_eqb (file_path f) path) eqn:Hf.
  - intros [= <-] Hmade. rewrite Hmade. cbn [map rev app List.find fst].
    apply jsstring_eqb_eq in Hf. rewrite Hf, jsstring_eqb_refl. done.
  - intros Hg Hmade. apply jsstring_eqb_neq in Hf.
    destruct (directoryMade env root f); cbn [map rev app]; [|by apply IH].
    cbn [List.find fst].
    assert (Hne : jsstring_eqb (root ++ [c_slash] ++ file_path f)
                    (root ++ [c_slash] ++ path) = false).
    { apply jsstring_eqb_neq. intros Heq.
      apply app_inv_head in Heq. by apply app_inv_head in Heq. }
    cbn [app] in Hne |- *. rewrite Hne. by apply IH.
Qed.

(** X13.  Memory and disk agree after an update: for the path of a new file whose
    directory could be made, the content of the entry tracked under that
    path and the content last asked to be written at the project path, a
    slash and that path are both the content of the last new file with that
    path. *)
Theorem createOrUpdateProject_mirror (env : Env) (news : list ProjectFile)
    (prompt : list N) (i : nat) (p : Project) (st : State) (path : list N)
    (g : ProjectFile) :
  lastWithPath path news = Some g ->
  directoryMade env (project_path p) g = true ->
  exists updated k,
    (createOrUpdateProject env news prompt (Some (i, p)) st).1.1 = Return updated
    /\ findFileIndex path (project_files updated) = Some k
    /\ project_files updated !! k = Some g
    /\ lastWriteTo (project_path p ++ [c_slash] ++ path)
         (writesOf (createOrUpdateProject env news prompt (Some (i, p)) st).2)
       = Some (file_content g).
Proof.
  intros Hlast Hmade. cbn [createOrUpdateProject fst snd].
  destruct (upsertFiles_last (project_files p) news path g Hlast) as (k & Hk & Hlook).
  eexists _, k. split; [reflexivity|]. cbn [project_files withFiles].
  split_and!; [done|done|].
  rewrite writesOf_writeFiles. by apply lastWriteTo_writes.
Qed.

Lemma createOrUpdateProject_mirror_witness :
  let p := sampleProject "p1" Created [sampleFile "index.js" "old"] in
  let news := [sampleFile "index.js" "first"; sampleFile "index.js" "second"] in
  exists updated k,
    (createOrUpdateProject quietEnv news (str "change it") (Some (0%nat, p))
       initialState).1.1 = Return updated
    /\ findFileIndex (str "index.js") (project_files updated) = Some k
    /\ project_files updated !! k = Some (sampleFile "index.js" "second")
    /\ lastWriteTo (project_path p ++ [c_slash] ++ str "index.js")
         (writesOf (createOrUpdateProject quietEnv news (str "change it")
                      (Some (0%nat, p)) initialState).2)
       = Some (file_content (sampleFile "index.js" "second")).
Proof.
  cbv zeta. apply createOrUpdateProject_mirror; reflexivity.
Defined.

(** ** After DELETE *)

(** X14.  Once an id has been deleted, every operation on it rejects with Project
    not found and leaves the state alone, reading a file included, and a
    second DELETE changes nothing; the projects with other ids are all still
    listed. *)
Theorem deleteProject_then (env env' : Env) (readTextFile : list N -> result (list N))
    (projectId filePath content : list N) (st : State) :
  let st' := (deleteProject env projectId st).1 in
  buildProject env' projectId st' = (Throw notFound, st', [])
  /\ runProject env' projectId st' = (Throw notFound, st', [])
  /\ stopProject env' projectId st' = (Throw notFound, st', [])
  /\ updateFileContent env' projectId filePath content st' = (Throw notFound, st', [])
  /\ getFileContent readTextFile projectId filePath st' = Throw notFound
  /\ (deleteProject env' projectId st').1 = st'
  /\ forall p, In p (projects st') <-> In p (projects st) /\ project_id p <> projectId.
Proof.
  cbv zeta. pose proof (deleteProject_unlisted env projectId st) as Hnone.
  set (st' := (deleteProject env projectId st).1) in *.
  unfold buildProject, buildProjectTrace, runProject, stopProject, updateFileContent, getFileContent.
  rewrite Hnone. split_and!; try reflexivity.
  - rewrite deleteProject_never_stops. cbn [fst]. subst st'.
    rewrite deleteProject_never_stops. cbn [fst projects setProjects].
    unfold setProjects. cbn. f_equal.
    induction (projects st) as [|q ps IH]; [done|]. cbn [List.filter].
    destruct (negb (jsstring_eqb (project_id q) projectId)) eqn:Hq; [|done].
    cbn [List.filter]. by rewrite Hq, IH.
  - intros p. subst st'. rewrite deleteProject_never_stops.
    cbn [fst projects setProjects]. rewrite filter_In.
    by rewrite negb_true_iff, jsstring_eqb_neq.
Qed.

(** ** The supervisor, request by request *)

Lemma signalProcess_others (env : Env) (projectId other : list N) (st : State) :
  other <> projectId ->
  runningProcesses (signalProcess env projectId st).1 !! other
  = runningProcesses st !! other.
Proof.
  intros Hne. unfold signalProcess.
  destruct (runningProcesses st !! projectId) as [process|]; [|done].
  destruct (kill env process); [done|]. cbn. by apply lookup_delete_ne.
Qed.

Lemma signalProcess_log (env : Env) (projectId : list N) (st : State)
    (process : ChildProcess) :
  In (EKill process) (signalProcess env projectId st).2 ->
  runningProcesses st !! projectId = Some process.
Proof.
  unfold signalProcess.
  destruct (runningProcesses st !! projectId) as [registered|]; [|done].
  destruct (kill env registered); cbn; intros [[= ->]|H]; try done.
  by destruct H.
Qed.

Lemma runProject_log (env : Env) (projectId : list N) (st : State)
    (i : nat) (p : Project) :
  findProject projectId st = Some (i, p) ->
  (runProject env projectId st).2
  = (signalProcess env projectId st).2 ++ (runCommand env p).2
      ++ [ESpawn (runOptions env p (nextPort st))].
Proof.
  intros Hfind. unfold runProject, runOptions. rewrite Hfind.
  set (stopped := match runningProcesses st !! projectId with
                  | Some _ => _
                  | None => _
                  end).
  assert (Hstop : nextPort stopped.1 = nextPort st
                  /\ stopped.2 = (signalProcess env projectId st).2).
  { subst stopped. destruct (runningProcesses st !! projectId) as [process|] eqn:Hp.
    - pose proof (stopProject_state env _ _ _ _ Hfind) as Hs.
      destruct (signalProcess_frame env projectId st) as (_ & Hn & _).
      destruct (stopProject env projectId st) as [[r st1] log1].
      injection Hs as _ -> ->. done.
    - by rewrite (signalProcess_unregistered _ _ _ Hp). }
  destruct stopped as [st1 log1]. cbn [fst snd] in Hstop. destruct Hstop as [-> ->].
  destruct (runCommand env p) as [[command arguments] log2]. cbn [fst snd].
  by destruct (spawn env _).
Qed.

(** X15.  A start of a listed project.  The process registered for the id, if
    any, is signalled before the one spawn; the project gets the current
    counter as its port.  When the spawn succeeds the start resolves with
    that port, the project is running and the new process is the one
    registered for the id; when it fails the error is passed on and the
    project is in error, with the registration as the signal left it.  No
    other project and no other registration is touched. *)
Theorem runProject_effect (env : Env) (projectId : list N) (st : State)
    (i : nat) (p : Project) :
  findProject projectId st = Some (i, p) ->
  exists r st',
    runProject env projectId st
    = (r, st', (signalProcess env projectId st).2 ++ (runCommand env p).2
                 ++ [ESpawn (runOptions env p (nextPort st))])
    /\ (forall other, other <> projectId ->
          runningProcesses st' !! other = runningProcesses st !! other)
    /\ (forall j, j <> i -> projects st' !! j = projects st !! j)
    /\ match spawn env (runOptions env p (nextPort st)) with
       | Return process =>
           let output := startSummary (nextPort st) (runCommand env p).1.1
                           (runCommand env p).1.2 in
           r = Return {| run_output := output; run_port := nextPort st |}
           /\ runningProcesses st' !! projectId = Some process
           /\ projects st' !! i
              = Some (withLastOutput output
                        (withPort (nextPort st) (withStatus Running p)))
       | Throw e =>
           r = Throw e
           /\ runningProcesses st' !! projectId
              = runningProcesses (signalProcess env projectId st).1 !! projectId
           /\ projects st' !! i
              = Some (withStatus Error (withPort (nextPort st) (withStatus Running p)))
       end.
Proof.
  intros Hfind. destruct (findProject_Some _ _ _ _ Hfind) as [Hi _].
  assert (Hlt : (i < length (projects st))%nat) by (by eapply lookup_lt_Some).
  pose proof (runProject_state env _ _ _ _ Hfind) as Hstate.
  pose proof (runProject_log env _ _ _ _ Hfind) as Hlog.
  destruct (runProject env projectId st) as [[r st'] log]. cbn [fst snd] in *.
  exists r, st'. rewrite Hlog. split; [done|].
  destruct (spawn env _) as [process|e]; injection Hstate as -> ->;
    cbn [runningProcesses projects].
  - split_and!.
    + intros other Hne. rewrite lookup_insert_ne by done.
      by apply signalProcess_others.
    + intros j Hj. by apply list_lookup_insert_ne.
    + done.
    + apply lookup_insert_eq.
    + by apply list_lookup_insert_eq.
  - split_and!.
    + intros other Hne. by apply signalProcess_others.
    + intros j Hj. by apply list_lookup_insert_ne.
    + done.
    + done.
    + by apply list_lookup_insert_eq.
Qed.

Lemma runProject_effect_witness :
  let p := sampleProject "p1" Stopped [sampleFile "server.js" "1"; sampleFile "main.js" "2"] in
  let st := {| projects := [p]; runningProcesses := {[ str "p1" := {| pid := 3 |} ]};
               nextPort := 3005 |} in
  exists r st',
    runProject quietEnv (str "p1") st
    = (r, st', [EKill {| pid := 3 |}; EStat (str "./projects/p1/package.json");
                ESpawn {| cmd := str "sh"; args := [str "-c"; str "npm start"];
                          cwd := str "./projects/p1"; env_PORT := Some 3005 |}])
    /\ runningProcesses st' !! str "p1" = Some {| pid := 7 |}.
Proof.
  cbv zeta.
  destruct (runProject_effect quietEnv (str "p1")
              {| projects := [sampleProject "p1" Stopped
                                [sampleFile "server.js" "1"; sampleFile "main.js" "2"]];
                 runningProcesses := {[ str "p1" := {| pid := 3 |} ]};
                 nextPort := 3005 |} 0%nat _ eq_refl)
    as (r & st' & Hrun & _ & _ & Hspawn).
  cbn in Hspawn. destruct Hspawn as (_ & Hreg & _).
  exists r, st'. split; [|exact Hreg].
  rewrite Hrun. reflexivity.
Defined.

(** X16.  Stopping a listed project touches nothing but that project's status and
    the registration of its own id: the other projects, the other
    registrations and the counter stay, and the only process ever
    signalled is the one registered for the id. *)
Theorem stopProject_frame (env : Env) (projectId : list N) (st : State)
    (i : nat) (p : Project) :
  findProject projectId st = Some (i, p) ->
  exists st' log,
    stopProject env projectId st = (Return (str "Project stopped"), st', log)
    /\ nextPort st' = nextPort st
    /\ (forall j, j <> i -> projects st' !! j = projects st !! j)
    /\ projects st' !! i = Some (withStatus Stopped p)
    /\ (forall other, other <> projectId ->
          runningProcesses st' !! other = runningProcesses st !! other)
    /\ (forall process, In (EKill process) log ->
          runningProcesses st !! projectId = Some process)
    /\ (runningProcesses st' !! projectId = None
        \/ exists process e, runningProcesses st !! projectId = Some process
             /\ kill env process = Some e
             /\ runningProcesses st' !! projectId = Some process).
Proof.
  intros Hfind. destruct (findProject_Some _ _ _ _ Hfind) as [Hi _].
  assert (Hlt : (i < length (projects st))%nat) by (by eapply lookup_lt_Some).
  pose proof (stopProject_state env _ _ _ _ Hfind) as Hstate.
  pose proof (stopProject_projects env _ _ _ _ Hfind) as Hps.
  rewrite Hstate in Hps. cbn [fst snd] in Hps.
  do 2 eexists. split; [exact Hstate|]. rewrite Hps. cbn [projects runningProcesses nextPort].
  split_and!; [done| |by apply list_lookup_insert_eq| | |].
  - intros j Hj. by apply list_lookup_insert_ne.
  - intros other Hne. by apply signalProcess_others.
  - apply signalProcess_log.
  - destruct (signalProcess_registration env projectId st)
      as [Hnone|(process & e & Hsome & Hk & Hst)]; [by left|].
    right. exists process, e. by rewrite Hst.
Qed.

Lemma stopProject_frame_witness :
  let p := sampleProject "p1" Running [sampleFile "index.js" "1"] in
  let st := {| projects := [p];
               runningProcesses := {[ str "p1" := {| pid := 3 |};
                                      str "p2" := {| pid := 4 |} ]};
               nextPort := 3005 |} in
  exists st' log,
    stopProject quietEnv (str "p1") st = (Return (str "Project stopped"), st', log)
    /\ runningProcesses st' !! str "p2" = Some {| pid := 4 |}.
Proof.
  cbv zeta.
  destruct (stopProject_frame quietEnv (str "p1")
              {| projects := [sampleProject "p1" Running [sampleFile "index.js" "1"]];
                 runningProcesses := {[ str "p1" := {| pid := 3 |};
                                        str "p2" := {| pid := 4 |} ]};
                 nextPort := 3005 |} 0%nat _ eq_refl)
    as (st' & log & Hstop & _ & _ & _ & Hothers & _).
  exists st', log. split; [exact Hstop|].
  rewrite (Hothers (str "p2")); [|discriminate]. cbn [runningProcesses].
  vm_compute. reflexivity.
Defined.




(** ** The chat route *)

Lemma postChat_equation (o : ChatOracle) (b : ChatBody) (sv : Server)
    (c : N) (message : list N) :
  body_message b = Some (c :: message) ->
  exists resp st log,
    postChat o (Return b) sv
    = (resp,
       setStore st
         (setConversations
            (foldl (fun cs m => alter (pushMessage m) (threadOf o b sv).1 cs)
               (threadOf o b sv).2 (userMessage o (c :: message) :: replyOf resp))
            sv),
       log)
    /\ match agentRun o with
       | Some (Return events) =>
           let files := parseFilesFromResponse (accumulate events) in
           let r := {| chat_response := extractTextResponse (accumulate events);
                       chat_files := files;
                       chat_shouldUpdate := negb (bool_decide (files = [])) |} in
           let made := chatMaterialize (world o) files (c :: message)
                         (body_projectId b) (store sv) in
           st = made.1
           /\ match files with
              | [] => resp = ChatSuccess (assistantMessage o r)
                               (snd <$> currentProjectOf (body_projectId b) (store sv))
                               false
                      /\ log = []
              | _ =>
                  match (createOrUpdateProject (world o) files (c :: message)
                           (currentProjectOf (body_projectId b) (store sv))
                           (store sv)).1.1 with
                  | Return p => resp = ChatSuccess (assistantMessage o r) (Some p) true
                                /\ log = made.2
                  | Throw e => resp = ChatFailure e
                               /\ log = made.2 ++ [EConsoleError e]
                  end
              end
       | Some (Throw e) =>
           resp = ChatFailure e /\ st = store sv
           /\ log = [EConsoleError e; EConsoleError e]
       | None =>
           resp = ChatFailure (ErrorObject (str "Coding Agent not initialized"))
           /\ st = store sv
           /\ log = [EConsoleError (ErrorObject (str "Coding Agent not initialized"))]
       end.
Proof.
  intros Hm. unfold postChat. rewrite Hm.
  destruct (threadOf o b sv) as [k cs]. cbn [fst snd].
  destruct (agentRun o) as [[events|e]|]; cbn [processChatMessage].
  - unfold chatMaterialize. fold (currentProjectOf (body_projectId b) (store sv)).
    destruct (parseFilesFromResponse (accumulate events)) as [|f fs] eqn:Hfiles.
    + cbn. eexists (ChatSuccess _ _ _), _, _. split; [reflexivity|]. done.
    + cbn [chat_shouldUpdate chat_files length Nat.eqb negb andb].
      destruct (createOrUpdateProject _ _ _ _ _) as [[[p|e] st] log];
        cbn [fst snd].
      * eexists (ChatSuccess _ _ _), _, _. split; [reflexivity|]. done.
      * eexists (ChatFailure _), _, _. split; [reflexivity|]. done.
  - eexists (ChatFailure _), _, _. split; [reflexivity|]. done.
  - eexists (ChatFailure _), _, _. split; [reflexivity|]. done.
Qed.

Lemma foldl_alter_lookup (k : nat) (ms : list Message) (cs : list Conversation)
    (j : nat) (before : Conversation) :
  cs !! j = Some before ->
  exists after,
    foldl (fun cs m => alter (pushMessage m) k cs) cs ms !! j = Some after
    /\ gained before after (if decide (j = k) then ms else []).
Proof.
  revert cs before. induction ms as [|m ms IH]; intros cs before Hj; cbn [foldl].
  - exists before. split; [done|]. unfold gained.
    by destruct (decide (j = k)); rewrite app_nil_r.
  - destruct (decide (j = k)) as [->|Hne].
    + destruct (IH (alter (pushMessage m) k cs) (pushMessage m before))
        as (after & Hafter & Hid & Hcr & Hms).
      { by rewrite list_lookup_alter_eq, Hj. }
      exists after. split; [done|].
      unfold gained. cbn in *. by rewrite Hid, Hcr, Hms, <- app_assoc.
    + destruct (IH (alter (pushMessage m) k cs) before)
        as (after & Hafter & Hgained).
      { by rewrite list_lookup_alter_ne. }
      exists after. by split.
Qed.

Lemma foldl_alter_length (k : nat) (ms : list Message) (cs : list Conversation) :
  length (foldl (fun cs m => alter (pushMessage m) k cs) cs ms) = length cs.
Proof.
  revert cs. induction ms as [|m ms IH]; intros cs; cbn [foldl]; [done|].
  by rewrite IH, length_alter.
Qed.

Lemma findConversationFrom_Some (base : nat) (id : list N)
    (cs : list Conversation) (k : nat) (c : Conversation) :
  findConversationFrom base id cs = Some (k, c) ->
  (base <= k)%nat /\ cs !! (k - base)%nat = Some c /\ conversation_id c = id.
Proof.
  revert base. induction cs as [|c0 cs IH]; intros base; cbn; [done|].
  destruct (jsstring_eqb (conversation_id c0) id) eqn:Heq.
  - intros [= <- <-]. rewrite Nat.sub_diag. split_and!; [lia|done|].
    by apply jsstring_eqb_eq.
  - intros H. apply IH in H as (Hle & Hk & Hid). split_and!; [lia| |done].
    replace (k - base)%nat with (S (k - S base)) by lia. done.
Qed.

(** X18.  What a chat request does to the projects, the processes and the file
    system is what the request on the parsed files of the reply does, when
    the message is not empty and the agent has replied, and nothing
    otherwise; beyond that the route only writes to the console, and it
    leaves the current conversation id alone. *)
Theorem postChat_store (o : ChatOracle) (body : result ChatBody) (sv : Server) :
  store (postChat o body sv).1.2
  = match chatRequest o body with
    | Some req => (handle (world o) req (store sv)).1
    | None => store sv
    end
  /\ currentConversationId (postChat o body sv).1.2 = currentConversationId sv
  /\ exists console,
       (postChat o body sv).2
       = match chatRequest o body with
         | Some req => (handle (world o) req (store sv)).2
         | None => []
         end ++ console
       /\ forallb isConsoleError console = true.
Proof.
  destruct body as [b|e]; [|by split_and!; [..|exists [EConsoleError e]]].
  destruct (body_message b) as [[|c message]|] eqn:Hm;
    [unfold postChat, chatRequest; rewrite Hm;
     split_and!; [by destruct (agentRun o) as [[?|?]|]..|];
     exists []; by destruct (agentRun o) as [[?|?]|]
    | |unfold postChat, chatRequest; rewrite Hm;
       split_and!; [by destruct (agentRun o) as [[?|?]|]..|];
       exists []; by destruct (agentRun o) as [[?|?]|]].
  destruct (postChat_equation o b sv c message Hm) as (resp & st & log & -> & H).
  unfold chatRequest. rewrite Hm. cbn [fst snd store currentConversationId setStore
    setConversations handle].
  destruct (agentRun o) as [[events|e]|].
  - cbv zeta in H. destruct H as [-> H]. split_and!; [done..|].
    destruct (parseFilesFromResponse (accumulate events)) as [|f fs].
    + destruct H as [_ ->]. by exists [].
    + destruct ((createOrUpdateProject _ _ _ _ _).1.1) as [p|e].
      * destruct H as [_ ->]. exists []. by rewrite app_nil_r.
      * destruct H as [_ ->]. by exists [EConsoleError e].
  - destruct H as (_ & -> & ->). split_and!; [done..|]. by eexists.
  - destruct H as (_ & -> & ->). split_and!; [done..|]. by eexists.
Qed.

(** X19.  A chat request with a message adds the user's message to its
    conversation, which is the first one with the id of the body or else a
    new one put in front, followed by the reply exactly when the response
    is a success: after a failure of the agent or of the project directory
    the message stays, unanswered.  Every other conversation, and the id
    and date of this one, stay as they are. *)
Theorem postChat_history (o : ChatOracle) (b : ChatBody) (sv : Server)
    (message : list N) :
  body_message b = Some message -> message <> [] ->
  let after := conversations (postChat o (Return b) sv).1.2 in
  let added := userMessage o message :: replyOf (postChat o (Return b) sv).1.1 in
  length after = length (threadOf o b sv).2
  /\ forall j before, (threadOf o b sv).2 !! j = Some before ->
       exists c, after !! j = Some c
         /\ gained before c (if decide (j = (threadOf o b sv).1) then added else []).
Proof.
  intros Hm Hne. destruct message as [|c message]; [done|].
  destruct (postChat_equation o b sv c message Hm) as (resp & st & log & -> & _).
  cbn [fst snd conversations setStore setConversations].
  split; [apply foldl_alter_length|].
  intros j before Hj. by apply foldl_alter_lookup.
Qed.

Lemma postChat_history_witness :
  let o := {| world := quietEnv; agentRun := None;
              newConversationId := str "c9"; newConversationCreated := str "t0";
              userMessageId := str "m1"; userTimestamp := str "t1";
              assistantMessageId := str "m2"; assistantTimestamp := str "t2" |} in
  let b := {| body_message := Some (str "hello"); body_conversationId := None;
              body_projectId := None |} in
  let sv := {| store := initialState; conversations := [];
               currentConversationId := None |} in
  exists c, conversations (postChat o (Return b) sv).1.2 !! 0%nat = Some c
    /\ gained (emptyConversation o) c [userMessage o (str "hello")].
Proof.
  cbv zeta.
  apply (proj2 (postChat_history
                  {| world := quietEnv; agentRun := None;
                     newConversationId := str "c9"; newConversationCreated := str "t0";
                     userMessageId := str "m1"; userTimestamp := str "t1";
                     assistantMessageId := str "m2"; assistantTimestamp := str "t2" |}
                  {| body_message := Some (str "hello"); body_conversationId := None;
                     body_projectId := None |}
                  {| store := initialState; conversations := [];
                     currentConversationId := None |}
                  (str "hello") eq_refl ltac:(discriminate)) 0%nat).
  reflexivity.
Defined.

Lemma lastWithPath_In (news : list ProjectFile) (f : ProjectFile) :
  In f news ->
  exists g, lastWithPath (file_path f) news = Some g /\ file_path g = file_path f.
Proof.
  intros Hin. unfold lastWithPath.
  destruct (List.find _ (rev news)) as [g|] eqn:Hfind.
  - exists g. split; [done|]. apply find_some in Hfind as [_ Hg].
    by apply jsstring_eqb_eq in Hg.
  - apply in_rev in Hin. apply (find_none _ _ Hfind f) in Hin.
    by rewrite jsstring_eqb_refl in Hin.
Qed.

Lemma upsertFiles_tracks (fs news : list ProjectFile) (f : ProjectFile) :
  In f news -> In (file_path f) (map file_path (upsertFiles fs news)).
Proof.
  intros Hin. destruct (lastWithPath_In _ _ Hin) as (g & Hlast & Hg).
  destruct (upsertFiles_last fs _ _ _ Hlast) as (k & _ & Hk).
  rewrite <- Hg. apply in_map, list_elem_of_In. by eapply list_elem_of_lookup_2.
Qed.

Lemma createOrUpdateProject_returns (env : Env) (fs : list ProjectFile)
    (prompt : list N) (existing : option (nat * Project)) (st : State)
    (p : Project) :
  match existing with
  | Some (i, q) => projects st !! i = Some q
  | None => True
  end ->
  (createOrUpdateProject env fs prompt existing st).1.1 = Return p ->
  In p (projects (createOrUpdateProject env fs prompt existing st).1.2)
  /\ forall f, In f fs -> In (file_path f) (map file_path (project_files p)).
Proof.
  unfold createOrUpdateProject. destruct existing as [[i q]|].
  - cbn [fst snd]. intros Hi [= <-]. split.
    + apply list_elem_of_In. eapply list_elem_of_lookup_2.
      by apply (storeProject_lookup _ _ q).
    + intros f Hf. cbn [project_files withFiles]. by apply upsertFiles_tracks.
  - intros _. destruct (mkdir env _); [done|]. cbn [fst snd]. intros [= <-].
    split; [by left|]. intros f Hf. by apply in_map.
Qed.

(** X20.  A success of the chat route.  It takes a message that is not empty and
    an agent that has replied; the reply stored and sent has the text of the
    agent's answer without its blocks and the paths of the files parsed
    from it; the update flag says whether there are such files.  A project
    sent along is one of the listed projects afterwards and tracks every
    parsed path; none is sent only when there are no files and the body
    names no listed project. *)
Theorem postChat_reply (o : ChatOracle) (body : result ChatBody) (sv : Server)
    (m : Message) (project : option Project) (shouldUpdate : bool) :
  (postChat o body sv).1.1 = ChatSuccess m project shouldUpdate ->
  exists b message events,
    body = Return b /\ body_message b = Some message /\ message <> []
    /\ agentRun o = Some (Return events)
    /\ m = {| message_id := assistantMessageId o;
              message_role := AssistantRole;
              message_content := extractTextResponse (accumulate events);
              message_timestamp := assistantTimestamp o;
              message_files :=
                Some (map file_path (parseFilesFromResponse (accumulate events))) |}
    /\ (shouldUpdate = true <-> parseFilesFromResponse (accumulate events) <> [])
    /\ match project with
       | Some p =>
           In p (projects (store (postChat o body sv).1.2))
           /\ forall f, In f (parseFilesFromResponse (accumulate events)) ->
                In (file_path f) (map file_path (project_files p))
       | None =>
           parseFilesFromResponse (accumulate events) = []
           /\ currentProjectOf (body_projectId b) (store sv) = None
       end.
Proof.
  destruct body as [b|e]; [|done].
  destruct (body_message b) as [[|c message]|] eqn:Hm;
    [by unfold postChat; rewrite Hm| |by unfold postChat; rewrite Hm].
  destruct (postChat_equation o b sv c message Hm) as (resp & st & log & -> & H).
  cbn [fst snd store setStore]. intros ->.
  exists b, (c :: message). destruct (agentRun o) as [[events|e]|];
    [|by destruct H..].
  exists events. cbv zeta in H. destruct H as [-> H].
  do 4 (split; [done|]).
  unfold chatMaterialize in *.
  fold (currentProjectOf (body_projectId b) (store sv)) in *.
  assert (Hcur : match currentProjectOf (body_projectId b) (store sv) with
                 | Some (i, q) => projects (store sv) !! i = Some q
                 | None => True
                 end).
  { unfold currentProjectOf. destruct (body_projectId b) as [[|? ?]|]; [done| |done].
    destruct (findProject _ _) as [[i q]|] eqn:Hfind; [|done].
    by apply findProject_Some in Hfind as [? _]. }
  destruct (parseFilesFromResponse (accumulate events)) as [|f fs] eqn:Hfiles.
  - destruct H as [[= -> -> ->] _]. split_and!; [done|done|].
    cbn [fst]. destruct (currentProjectOf _ _) as [[i q]|]; [|done].
    cbn. split; [|done]. apply list_elem_of_In. by eapply list_elem_of_lookup_2.
  - pose proof (fun p => createOrUpdateProject_returns (world o) (f :: fs)
                  (c :: message) (currentProjectOf (body_projectId b) (store sv))
                  (store sv) p Hcur) as Hret.
    destruct (createOrUpdateProject _ _ _ _ _) as [[[p|e] st'] log'];
      cbn [fst snd] in *; [|by destruct H].
    destruct H as [[= -> -> ->] _]. do 2 (split; [done|]).
    by apply Hret.
Qed.

Lemma postChat_reply_witness :
  let o := {| world := quietEnv;
              agentRun := Some (Return [TextEvent (str "Here: ```js:a.js
x
```"); OtherEvent]);
              newConversationId := str "c9"; newConversationCreated := str "t0";
              userMessageId := str "m1"; userTimestamp := str "t1";
              assistantMessageId := str "m2"; assistantTimestamp := str "t2" |} in
  let body := Return {| body_message := Some (str "make it");
                        body_conversationId := None; body_projectId := None |} in
  let sv := {| store := initialState; conversations := [];
               currentConversationId := None |} in
  exists m p, (postChat o body sv).1.1 = ChatSuccess m (Some p) true
    /\ message_content m = str "Here:"
    /\ message_files m = Some [str "a.js"]
    /\ In p (projects (store (postChat o body sv).1.2)).
Proof.
  cbv zeta.
  set (o := {| world := quietEnv; agentRun := _ |}).
  set (body := Return _).
  set (sv := {| store := initialState |}).
  destruct ((postChat o body sv).1.1) as [m [p|] [|]| |e] eqn:Hresp;
    try (vm_compute in Hresp; discriminate).
  exists m, p. split; [reflexivity|].
  destruct (postChat_reply o body sv m (Some p) true Hresp)
    as (b & message & events & Hb & _ & _ & Hagent & -> & _ & Hin & _).
  injection Hagent as <-. split_and!; [reflexivity|reflexivity|].
  exact Hin.
Defined.

Lemma findConversationFrom_shift (base : nat) (id : list N) (cs : list Conversation) :
  findConversationFrom (S base) id cs
  = prod_map S (fun c => c) <$> findConversationFrom base id cs.
Proof.
  revert base. induction cs as [|c cs IH]; intros base; cbn; [done|].
  by destruct (jsstring_eqb (conversation_id c) id).
Qed.

Lemma postChat_front (o : ChatOracle) (b : ChatBody) (sv : Server)
    (message : list N) (c : Conversation) (rest : list Conversation) :
  body_message b = Some message -> message <> [] ->
  (threadOf o b sv).1 = 0%nat -> (threadOf o b sv).2 = c :: rest ->
  conversations (postChat o (Return b) sv).1.2
  = {| conversation_id := conversation_id c;
       conversation_messages :=
         conversation_messages c
         ++ userMessage o message :: replyOf (postChat o (Return b) sv).1.1;
       conversation_created := conversation_created c |} :: rest.
Proof.
  intros Hm Hne Hk Hcs. destruct message as [|u message]; [done|].
  destruct (postChat_equation o b sv u message Hm) as (resp & st & log & -> & _).
  cbn [fst snd conversations setStore setConversations]. rewrite Hk, Hcs.
  destruct resp; cbn; unfold pushMessage; cbn; by rewrite <- ?app_assoc.
Qed.

(** X21.  A conversation opened by a chat request is continued by a later chat
    request that names its id: the messages of the second exchange follow
    those of the first in the same conversation, which is still at the
    front and is the one found under that id, and no further conversation
    is added. *)
Theorem postChat_thread (o1 o2 : ChatOracle) (b1 b2 : ChatBody) (sv : Server)
    (m1 m2 : list N) :
  body_message b1 = Some m1 -> m1 <> [] ->
  findConversation (body_conversationId b1) (conversations sv) = None ->
  body_message b2 = Some m2 -> m2 <> [] ->
  body_conversationId b2 = Some (newConversationId o1) ->
  let first := postChat o1 (Return b1) sv in
  let second := postChat o2 (Return b2) first.1.2 in
  let thread :=
    {| conversation_id := newConversationId o1;
       conversation_messages :=
         (userMessage o1 m1 :: replyOf first.1.1)
         ++ userMessage o2 m2 :: replyOf second.1.1;
       conversation_created := newConversationCreated o1 |} in
  conversations second.1.2 = thread :: conversations sv
  /\ getConversation (newConversationId o1) second.1.2 = Some thread.
Proof.
  intros Hm1 Hne1 Hnew Hm2 Hne2 Hid. cbv zeta.
  assert (H1 : conversations (postChat o1 (Return b1) sv).1.2
               = {| conversation_id := newConversationId o1;
                    conversation_messages :=
                      userMessage o1 m1 :: replyOf (postChat o1 (Return b1) sv).1.1;
                    conversation_created := newConversationCreated o1 |}
                 :: conversations sv).
  { rewrite (postChat_front o1 b1 sv m1 (emptyConversation o1) (conversations sv));
      [done|done|done|..]; unfold threadOf; by rewrite Hnew. }
  set (sv1 := (postChat o1 (Return b1) sv).1.2) in *.
  assert (Hthread : threadOf o2 b2 sv1 = (0%nat, conversations sv1)).
  { unfold threadOf. rewrite Hid, H1. cbn. by rewrite jsstring_eqb_refl. }
  assert (H2 : conversations (postChat o2 (Return b2) sv1).1.2
               = {| conversation_id := newConversationId o1;
                    conversation_messages :=
                      (userMessage o1 m1 :: replyOf (postChat o1 (Return b1) sv).1.1)
                      ++ userMessage o2 m2 :: replyOf (postChat o2 (Return b2) sv1).1.1;
                    conversation_created := newConversationCreated o1 |}
                 :: conversations sv).
  { rewrite (postChat_front o2 b2 sv1 m2
               {| conversation_id := newConversationId o1;
                  conversation_messages :=
                    userMessage o1 m1 :: replyOf (postChat o1 (Return b1) sv).1.1;
                  conversation_created := newConversationCreated o1 |}
               (conversations sv) Hm2 Hne2);
      [done|by rewrite Hthread|]. by rewrite Hthread, H1. }
  split; [done|]. unfold getConversation. rewrite H2. cbn.
  by rewrite jsstring_eqb_refl.
Qed.

Lemma postChat_thread_witness :
  let o := {| world := quietEnv; agentRun := Some (Return [TextEvent (str "ok")]);
              newConversationId := str "c9"; newConversationCreated := str "t0";
              userMessageId := str "m1"; userTimestamp := str "t1";
              assistantMessageId := str "m2"; assistantTimestamp := str "t2" |} in
  let b1 := {| body_message := Some (str "one"); body_conversationId := None;
               body_projectId := None |} in
  let b2 := {| body_message := Some (str "two");
               body_conversationId := Some (str "c9"); body_projectId := None |} in
  let sv := {| store := initialState; conversations := [];
               currentConversationId := None |} in
  length (conversations (postChat o (Return b2) (postChat o (Return b1) sv).1.2).1.2)
  = 1%nat.
Proof.
  cbv zeta.
  rewrite (proj1 (postChat_thread
                    {| world := quietEnv;
                       agentRun := Some (Return [TextEvent (str "ok")]);
                       newConversationId := str "c9";
                       newConversationCreated := str "t0";
                       userMessageId := str "m1"; userTimestamp := str "t1";
                       assistantMessageId := str "m2";
                       assistantTimestamp := str "t2" |} _
                    {| body_message := Some (str "one"); body_conversationId := None;
                       body_projectId := None |}
                    {| body_message := Some (str "two");
                       body_conversationId := Some (str "c9");
                       body_projectId := None |}
                    {| store := initialState; conversations := [];
                       currentConversationId := None |}
                    (str "one") (str "two") eq_refl ltac:(discriminate) eq_refl
                    eq_refl ltac:(discriminate) eq_refl)).
  reflexivity.
Defined.

(** X22.  A conversation opened through the conversations route is at once the
    one served under its id, also when an older conversation has the same
    id; the conversations served under other ids are the same as before,
    the new id becomes the current one, and the projects are not
    touched. *)
Theorem postConversation_get (id created : list N) (sv : Server) :
  let opened := postConversation id created sv in
  getConversation id opened.2 = Some opened.1
  /\ conversation_messages opened.1 = []
  /\ (forall other, other <> id ->
        getConversation other opened.2 = getConversation other sv)
  /\ currentConversationId opened.2 = Some id
  /\ store opened.2 = store sv.
Proof.
  cbv zeta. unfold getConversation, postConversation.
  cbn [fst snd conversations findConversationFrom conversation_id
       conversation_messages currentConversationId store].
  rewrite jsstring_eqb_refl. split_and!; [done|done| |done|done].
  intros other Hne.
  replace (jsstring_eqb id other) with false
    by (symmetry; apply jsstring_eqb_neq; congruence).
  rewrite findConversationFrom_shift.
  by destruct (findConversationFrom 0 other (conversations sv)) as [[k c]|].
Qed.

Lemma postConversation_get_witness :
  let old := {| conversation_id := str "c0"; conversation_messages := [];
                conversation_created := str "t0" |} in
  let sv := {| store := initialState; conversations := [old];
               currentConversationId := None |} in
  getConversation (str "c0") (postConversation (str "c1") (str "t1") sv).2
  = Some old.
Proof.
  cbv zeta.
  rewrite (proj1 (proj2 (proj2 (postConversation_get (str "c1") (str "t1")
             {| store := initialState;
                conversations := [{| conversation_id := str "c0";
                                     conversation_messages := [];
                                     conversation_created := str "t0" |}];
                currentConversationId := None |}))) (str "c0") ltac:(discriminate)).
  reflexivity.
Defined.

(** ** Reading outside the project *)

(** X23.  Reading a file of a listed project asks the disk for the project path,
    a slash and the path given, whether or not the project tracks such a
    file; it answers with what the disk holds there, and reports any
    failure of the disk as File not found with the path given.  Nothing
    checks where the path leads: for a project rooted at its id under
    ./projects, what the disk holds at ../../x, outside ./projects, is
    returned. *)
Theorem getFileContent_unconfined (readTextFile : list N -> result (list N))
    (projectId : list N) (st : State) (i : nat) (p : Project) :
  findProject projectId st = Some (i, p) ->
  project_path p = str "./projects/" ++ projectId ->
  isIdString projectId = true ->
  (forall filePath,
     getFileContent readTextFile projectId filePath st
     = match readTextFile (project_path p ++ [c_slash] ++ filePath) with
       | Return content => Return content
       | Throw _ => Throw (ErrorObject (str "File not found: " ++ filePath))
       end)
  /\ isInside projectsRoot (project_path p ++ [c_slash] ++ str "../../x") = false
  /\ forall content,
       readTextFile (str "./projects/" ++ projectId ++ str "/../../x") = Return content ->
       getFileContent readTextFile projectId (str "../../x") st = Return content.
Proof.
  intros Hfind Hpath Hid. unfold getFileContent, fullPathOf. rewrite Hfind, Hpath.
  split_and!.
  - done.
  - by apply resolve_escape.
  - intros content Hread.
    replace ((str "./projects/" ++ projectId) ++ [c_slash] ++ str "../../x")
      with (str "./projects/" ++ projectId ++ str "/../../x")
      by (by rewrite <- app_assoc).
    by rewrite Hread.
Qed.

Lemma getFileContent_unconfined_witness :
  let disk := fun path : list N =>
    if jsstring_eqb path (str "./projects/p1/../../x") then Return (str "secret")
    else Throw Nullish in
  let st := {| projects := [sampleProject "p1" Created [sampleFile "index.js" "1"]];
               runningProcesses := ∅; nextPort := 3001 |} in
  getFileContent disk (str "p1") (str "../../x") st = Return (str "secret").
Proof.
  cbv zeta.
  apply (getFileContent_unconfined _ (str "p1")
           {| projects := [sampleProject "p1" Created [sampleFile "index.js" "1"]];
              runningProcesses := ∅; nextPort := 3001 |} 0%nat
           (sampleProject "p1" Created [sampleFile "index.js" "1"])
           eq_refl eq_refl eq_refl).
  reflexivity.
Defined.

(** ** Icons *)

Lemma normalizeLanguage_strings (tag s : list N) :
  normalizeLanguage tag = VString s -> In s languageTags.
Proof.
  intros Hs.
  destruct (decide (toLowerCase tag ∈ inheritedKeys)) as [Hin|Hnot];
    rewrite list_elem_of_In in *.
  - by rewrite (normalizeLanguage_inherited _ Hin) in Hs.
  - destruct (normalizeLanguage_tag _ Hnot) as (t & Ht & Hin).
    rewrite Ht in Hs. by injection Hs as <-.
Qed.

(** X24.  Every language the response parser stores as a string has an icon on
    the page that is a string and not empty: the icon listed for it, or
    the default one for text.  The lookup itself also finds what the
    literal inherits: asked for a property name of Object.prototype it
    answers with the inherited object, not with an icon. *)
Theorem getFileIcon_of_parsed (tag language : list N) :
  normalizeLanguage tag = VString language ->
  (exists icon, getFileIcon language = VString icon /\ icon <> []
                /\ (assoc language icons = None -> icon = defaultIcon)
                /\ (forall listed, assoc language icons = Some listed -> icon = listed))
  /\ forall name, In name objectPrototypeKeys -> getFileIcon name = VBuiltin name.
Proof.
  intros Hs. split.
  - apply normalizeLanguage_strings in Hs.
    cbv [languageTags map] in Hs. simpl in Hs.
    repeat (destruct Hs as [<-|Hs];
            [eexists; split; [reflexivity|];
             split; [discriminate|]; split; [try discriminate; done|];
             by intros listed [= <-]|]).
    contradiction.
  - intros name Hin. cbv [objectPrototypeKeys map] in Hin. simpl in Hin.
    repeat (destruct Hin as [<-|Hin]; [reflexivity|]). contradiction.
Qed.

Lemma getFileIcon_of_parsed_witness :
  exists icon, getFileIcon (str "python") = VString icon /\ icon <> [].
Proof.
  destruct (getFileIcon_of_parsed (str "py") (str "python") eq_refl)
    as [(icon & Hicon & Hne & _) _].
  by exists icon.
Defined.
